(** * Porto network control plane: a shallow embedding of [src/network.cpp]

    The development follows the source file top to bottom: the device
    snapshot and its configuration lookup ([TNetworkDevice::GetConfig]),
    the process-wide registry of per-namespace managers
    ([TNetwork::AddNetwork], [TNetwork::GetNetwork]), device
    reconciliation ([TNetwork::SetupQueue], [TNetwork::RefreshDevices]),
    the NAT address allocator ([TNetwork::GetNatAddress],
    [TNetwork::PutNatAddress]), the traffic-class engine ([TNetwork::AddTC],
    [TNetwork::DelTC], [TNetwork::CreateTC], [TNetwork::DestroyTC]) and the
    parser of the network specification ([TNetCfg::ParseNet]).  It goes on
    with the teardown of the queues ([TNetwork::Destroy]), device names
    ([TNetwork::MatchDevice], [TNetwork::NewDeviceName]), the refresh of
    the container classes ([TNetwork::RefreshClasses]), proxy announcements
    ([TNetwork::AddAnnounce], [TNetwork::DelAnnounce]), generated hardware
    addresses ([TNetCfg::GenerateHw]), the addresses of the interfaces
    ([TNetCfg::ParseIp], [TNetCfg::FormatIp]) and, from [src/task.cpp], the
    sysctl part of the start of a task ([InitIpcSysctl],
    [TTaskEnv::ApplySysctl]).

    Conventions.  C++ integers are values of [Z]; strings are
    [String.string]; [std::vector] is [list]; the kernel network API
    (libnl) is an interface whose calls are threaded through an explicit
    world together with the trace of the calls issued. *)

From stdpp Require Import base numbers list strings gmap pretty.

Open Scope string_scope.
Open Scope list_scope.
Open Scope Z_scope.

(** ** Errors *)

(** [EError] kinds used by the file. *)
Inductive EError : Type :=
  | Unknown
  | InvalidValue.

(** [TError]: [Success] is the default-constructed value; [Error] is
    [TError(kind, text)]; [NlError] is what [TNl::Error(ret, desc)] builds
    from a libnl return code; [Wrapped] is [TError(error, text)]. *)
Inductive TError : Type :=
  | Success
  | Error (kind : EError) (text : string)
  | NlError (ret : Z) (desc : string)
  | Wrapped (inner : TError) (text : string).

(** [if (error)] in the source. *)
Definition failed (e : TError) : bool :=
  match e with
  | Success => false
  | _ => true
  end.

(** ** What [network.cpp] calls but does not define *)

(** Functions of the string utilities and of the environment, and the
    constants and default arguments declared in [network.hpp], none of which
    is visible from [network.cpp]; they are taken as they come. *)
Class Util : Type := {
  (** [StringMatch(str, pattern)]: the glob matcher. *)
  StringMatch : string -> string -> bool;
  (** [SplitEscapedString(line, settings, sep)]. *)
  SplitEscapedString : string -> Ascii.ascii -> list string;
  StringTrim : string -> string;
  (** [StringToInt(s, value)]: an error, or the parsed [int]. *)
  StringToInt : string -> TError + Z;
  ValidMacVlanType : string -> bool;
  ValidIpVlanMode : string -> bool;
  ValidMacAddr : string -> bool;
  (** [TPath(path).Exists()]. *)
  PathExists : string -> bool;
  NET_DEFAULT_PRIO : Z;
  DEFAULT_TC_MAJOR : Z;
  (** Default second arguments of the two [GetConfig] overloads. *)
  DefaultUint : Z;
  DefaultString : string
}.

(** Modelled from the spec: [StringStartsWith(str, prefix)] belongs to the
    string utilities, which are not part of the sources at hand; the spec
    speaks of names carrying a reserved prefix. *)
Definition StringStartsWith (str prefix : string) : bool := String.prefix prefix str.

(** Constants of the system headers. *)
Definition INT32_MAX : Z := 2147483647.
Definition IFF_UP : Z := 1.
Definition IFF_LOOPBACK : Z := 8.
Definition IFF_RUNNING : Z := 64.
Definition NLE_OBJ_NOTFOUND : Z := 12.
Definition NLE_BUSY : Z := 25.
Definition NLE_PERM : Z := 28.
Definition AF_INET : Z := 2.
Definition AF_INET6 : Z := 10.

(** Conversion of an [int] expression such as [dev.MTU * 2] to the
    [uint64_t] parameter it is passed for. *)
Definition to_uint64 (z : Z) : Z := z mod 2 ^ 64.

(** Conversion of a [uint64_t] or [int] value to a [uint32_t] parameter. *)
Definition to_uint32 (z : Z) : Z := z mod 2 ^ 32.

(** Modelled from the spec: the macro [TC_HANDLE(major, minor)] of
    [network.hpp] is not part of the sources at hand; a class handle is a
    (major, minor) pair, packed as the kernel does, major in the upper 16
    bits. *)
Definition TC_HANDLE (maj min : Z) : Z := Z.lor (Z.shiftl maj 16) min.

(** Modelled from the spec: these constants of [network.hpp] are not part
    of the sources at hand.  The spec fixes the minors root (1), default
    (2) and platform-root (3), and the comment of [SetupQueue] draws the
    same shape: [1:0] qdisc, [1:1] root class, [1:2] default class, [1:3]
    porto class. *)
Definition ROOT_TC_MAJOR : Z := 1.
Definition ROOT_TC_MINOR : Z := 0.
Definition ROOT_CONTAINER_ID : Z := 1.
Definition DEFAULT_TC_MINOR : Z := 2.
Definition PORTO_ROOT_CONTAINER_ID : Z := 3.

(** ** Device snapshot *)

Record TNetworkDevice : Type := mkDevice {
  dev_Name : string;
  dev_Type : string;
  dev_Index : Z;
  dev_Link : Z;
  dev_Group : Z;
  dev_MTU : Z;
  dev_Managed : bool;
  dev_Prepared : bool;
  dev_Missing : bool
}.

Definition set_Managed (b : bool) (d : TNetworkDevice) : TNetworkDevice :=
  mkDevice (dev_Name d) (dev_Type d) (dev_Index d) (dev_Link d) (dev_Group d)
           (dev_MTU d) b (dev_Prepared d) (dev_Missing d).

Definition set_Prepared (b : bool) (d : TNetworkDevice) : TNetworkDevice :=
  mkDevice (dev_Name d) (dev_Type d) (dev_Index d) (dev_Link d) (dev_Group d)
           (dev_MTU d) (dev_Managed d) b (dev_Missing d).

Definition set_Missing (b : bool) (d : TNetworkDevice) : TNetworkDevice :=
  mkDevice (dev_Name d) (dev_Type d) (dev_Index d) (dev_Link d) (dev_Group d)
           (dev_MTU d) (dev_Managed d) (dev_Prepared d) b.

(** [TNetworkDevice::GetDesc]. *)
Definition GetDesc (dev : TNetworkDevice) : string :=
  pretty (dev_Index dev) +:+ ":" +:+ dev_Name dev +:+ " (" +:+ dev_Type dev +:+ ")".

(** Modelled from the spec: the declarations of [TUintMap] and [TStringMap]
    are not part of the sources at hand.  A configuration table is the
    sequence of its (pattern, value) entries in the order in which the
    table is iterated; [map_assign] below tells how a table comes to that
    order. *)
Abbreviation TMap V := (list (string * V)).
Abbreviation TUintMap := (TMap Z).
Abbreviation TStringMap := (TMap string).

(** The file-static configuration of [network.cpp]. *)
Record NetConfig : Type := mkNetConfig {
  UnmanagedDevices : list string;
  UnmanagedGroups : list Z;
  DeviceQdisc : TStringMap;
  DeviceRate : TUintMap;
  DefaultRate : TUintMap;
  PortoRate : TUintMap;
  ContainerRate : TUintMap;
  DeviceQuantum : TUintMap;
  HTBrbuffer : TUintMap;
  HTBcbuffer : TUintMap;
  DefaultQdisc : TStringMap;
  DefaultQdiscLimit : TUintMap;
  DefaultQdiscQuantum : TUintMap
}.

(** [cfg.find(key)]: the entry stored under the literal key. *)
Fixpoint find_key {V : Type} (key : string) (cfg : TMap V) : option V :=
  match cfg with
  | [] => None
  | it :: rest => if String.eqb it.1 key then Some it.2 else find_key key rest
  end.

(** The [for (auto &it: cfg)] loop of [GetConfig]: the value of the first
    entry whose pattern matches the device name. *)
Fixpoint scan_patterns `{Util} {V : Type} (Name : string) (cfg : TMap V) : option V :=
  match cfg with
  | [] => None
  | it :: rest =>
      if StringMatch Name it.1 then Some it.2 else scan_patterns Name rest
  end.

(** [TNetworkDevice::GetConfig]; the two overloads share this body. *)
Definition GetConfig `{Util} {V : Type} (dev : TNetworkDevice) (cfg : TMap V) (def : V) : V :=
  match scan_patterns (dev_Name dev) cfg with
  | Some v => v
  | None =>
      match find_key "default" cfg with
      | Some v => v
      | None => def
      end
  end.





(** ** The kernel network API *)

(** A link as [rtnl_link_get_*] shows it; a null type or qdisc reads as the
    empty string, as in the source. *)
Record rtnl_link : Type := mkLink {
  link_name : string;
  link_type : string;
  link_ifindex : Z;
  link_link : Z;
  link_group : Z;
  link_mtu : Z;
  link_flags : Z;
  link_qdisc : string
}.

(** An HTB class as [AddTC] fills it before [rtnl_class_add]. *)
Record rtnl_class : Type := mkClass {
  cls_ifindex : Z;
  cls_parent : Z;
  cls_handle : Z;
  cls_kind : string;
  cls_rate : Z;
  cls_ceil : Z;
  cls_prio : Z;
  cls_mtu : Z;
  cls_quantum : Z;
  cls_rbuffer : Z;
  cls_cbuffer : Z
}.

(** [TNlQdisc(parent, handle)] with the members [SetupQueue] assigns. *)
Record TNlQdisc : Type := mkQdisc {
  q_Parent : Z;
  q_Handle : Z;
  q_Kind : string;
  q_Default : Z;
  q_Limit : Z;
  q_Quantum : Z
}.

(** The calls [network.cpp] makes on the netlink socket of a namespace.
    [K] is the state of the kernel side; calls that only read take the
    state, calls that change it return the new one.  Return codes are the
    [int] of libnl (negative on failure) or the [TError] of the wrappers. *)
Class KernelApi (K : Type) : Type := {
  (** [rtnl_link_alloc_cache]: return code and the links of the cache. *)
  k_link_alloc_cache : K -> Z * list rtnl_link;
  (** [TNlLink(Nl, name).Load()]. *)
  k_link_load : string -> K -> TError;
  k_qdisc_check : TNlQdisc -> string -> K -> bool;
  k_qdisc_delete : TNlQdisc -> string -> K -> TError * K;
  k_qdisc_create : TNlQdisc -> string -> K -> TError * K;
  (** [TNlCgFilter(parent, handle)] on a link. *)
  k_filter_exists : Z -> Z -> string -> K -> bool;
  k_filter_remove : Z -> Z -> string -> K -> TError * K;
  k_filter_create : Z -> Z -> string -> K -> TError * K;
  (** [rtnl_class_alloc() != nullptr]. *)
  k_class_alloc : K -> bool;
  (** [rtnl_tc_set_kind(cls, kind)]. *)
  k_tc_set_kind : string -> K -> Z;
  (** [rtnl_class_add(sock, cls, NLM_F_CREATE | NLM_F_REPLACE)]. *)
  k_class_add : rtnl_class -> K -> Z * K;
  (** [rtnl_class_delete(sock, cls)] for (ifindex, handle). *)
  k_class_delete : Z -> Z -> K -> Z * K;
  (** [rtnl_class_alloc_cache(sock, ifindex, &cache)]: return code and the
      (handle, parent) pair of every class of the cache, in cache order. *)
  k_class_alloc_cache : Z -> K -> Z * list (Z * Z)
}.

(** The calls that reach the kernel, as recorded in the trace. *)
Inductive Event : Type :=
  | EvLinkCache (ret : Z)
  | EvQdiscDelete (link : string) (q : TNlQdisc)
  | EvQdiscCreate (link : string) (q : TNlQdisc)
  | EvFilterRemove (link : string)
  | EvFilterCreate (link : string)
  | EvClassAdd (cls : rtnl_class) (ret : Z)
  | EvClassDelete (ifindex handle ret : Z)
  | EvClassCache (ifindex ret : Z).

(** The world a manager acts on: the kernel side and the calls issued so
    far, oldest first. *)
Record World (K : Type) : Type := mkWorld {
  kern : K;
  calls : list Event
}.
Arguments mkWorld {K} _ _.
Arguments kern {K} _.
Arguments calls {K} _.

(** State passing over the world. *)
Definition M (K A : Type) : Type := World K -> A * World K.

Definition pure {K A : Type} (a : A) : M K A := fun w => (a, w).

Definition bind {K A B : Type} (c : M K A) (k : A -> M K B) : M K B :=
  fun w => let '(a, w1) := c w in k a w1.

Notation "'do' x <- c ; k" := (bind c (fun x => k))
  (at level 10, x pattern, c at level 100, k at level 200).

(** Run a call that changes the kernel and record it. *)
Definition emit {K A : Type} (op : K -> A * K) (ev : A -> Event) : M K A :=
  fun w =>
    let '(a, k1) := op (kern w) in
    (a, mkWorld k1 (calls w ++ [ev a])).

(** Run a call that only reads the kernel. *)
Definition query {K A : Type} (op : K -> A) : M K A :=
  fun w => (op (kern w), w).

(** ** NAT addresses and the offset bitmap *)

(** Modelled from the spec: [TNlAddr] and its methods [IsEmpty], [Family],
    [AddOffset] and [GetOffset] are not part of the sources at hand.  An
    address is its family and its numeric value, and the address at an
    offset is base plus offset. *)
Record nl_addr : Type := mkAddr {
  addr_family : Z;
  addr_value : Z
}.

(** [None] is the empty [TNlAddr]. *)
Abbreviation TNlAddr := (option nl_addr).

Definition IsEmpty (a : TNlAddr) : bool :=
  match a with
  | None => true
  | Some _ => false
  end.

Definition AddOffset (a : nl_addr) (offset : Z) : nl_addr :=
  mkAddr (addr_family a) (addr_value a + offset).

Definition GetOffset (a base : nl_addr) : Z := addr_value a - addr_value base.

(** Modelled from the spec: [TIdMap], the type of [NatBitmap], is not part
    of the sources at hand.  It is a fixed-size set of allocatable offsets,
    one flag per offset, [true] when allocated. *)
Abbreviation TIdMap := (list bool).

(** The lowest offset whose flag is clear. *)
Fixpoint lowest_free (used : TIdMap) : option nat :=
  match used with
  | [] => None
  | false :: _ => Some O
  | true :: rest => option_map S (lowest_free rest)
  end.

(** Modelled from the spec: [TIdMap::Get] allocates the lowest free offset
    and fails once every offset is allocated. *)
Definition IdMap_Get (used : TIdMap) : TError * Z * TIdMap :=
  match lowest_free used with
  | Some i => (Success, Z.of_nat i, <[i := true]> used)
  | None => (Error Unknown "Cannot allocate id", 0, used)
  end.

(** Modelled from the spec: [TIdMap::Put] frees an offset of the bitmap. *)
Definition IdMap_Put (used : TIdMap) (offset : Z) : TError * TIdMap :=
  if (0 <=? offset) && (offset <? Z.of_nat (length used))
  then (Success, <[Z.to_nat offset := false]> used)
  else (Error Unknown "Id out of range", used).

(** ** The per-namespace manager *)

Record TNetwork : Type := mkNetwork {
  Devices : list TNetworkDevice;
  ManagedNamespace : bool;
  NewManagedDevices : bool;
  NatBaseV4 : TNlAddr;
  NatBaseV6 : TNlAddr;
  NatBitmap : TIdMap
}.

Definition set_Devices (devs : list TNetworkDevice) (net : TNetwork) : TNetwork :=
  mkNetwork devs (ManagedNamespace net) (NewManagedDevices net)
            (NatBaseV4 net) (NatBaseV6 net) (NatBitmap net).

Definition set_NewManagedDevices (b : bool) (net : TNetwork) : TNetwork :=
  mkNetwork (Devices net) (ManagedNamespace net) b
            (NatBaseV4 net) (NatBaseV6 net) (NatBitmap net).

Definition set_NatBitmap (bm : TIdMap) (net : TNetwork) : TNetwork :=
  mkNetwork (Devices net) (ManagedNamespace net) (NewManagedDevices net)
            (NatBaseV4 net) (NatBaseV6 net) bm.

(** [TNetwork::GetNatAddress(addrs)]: the error, the manager and [addrs]
    after the call. *)
Definition GetNatAddress (net : TNetwork) (addrs : list nl_addr)
    : TError * TNetwork * list nl_addr :=
  let '(error, offset, bm) := IdMap_Get (NatBitmap net) in
  if failed error
  then (Wrapped error "Cannot allocate NAT address", net, addrs)
  else
    let addrs :=
      match NatBaseV4 net with
      | Some base => addrs ++ [AddOffset base offset]
      | None => addrs
      end in
    let addrs :=
      match NatBaseV6 net with
      | Some base => addrs ++ [AddOffset base offset]
      | None => addrs
      end in
    (Success, set_NatBitmap bm net, addrs).

(** [NatBitmap.Put(addr.GetOffset(base))] as the result of [PutNatAddress]. *)
Definition put_offset (net : TNetwork) (addr base : nl_addr) : TError * TNetwork :=
  let '(error, bm) := IdMap_Put (NatBitmap net) (GetOffset addr base) in
  (error, set_NatBitmap bm net).

(** [TNetwork::PutNatAddress(addrs)]: the first address whose family has a
    configured base decides. *)
Fixpoint PutNatAddress (net : TNetwork) (addrs : list nl_addr) : TError * TNetwork :=
  match addrs with
  | [] => (Success, net)
  | addr :: rest =>
      match (if addr_family addr =? AF_INET then NatBaseV4 net else None) with
      | Some base => put_offset net addr base
      | None =>
          match (if addr_family addr =? AF_INET6 then NatBaseV6 net else None) with
          | Some base => put_offset net addr base
          | None => PutNatAddress net rest
          end
      end
  end.

(** ** The registry of managers *)

(** A manager object is named by the identity of its control block;
    [alive o] tells whether a strong reference to [o] still exists.
    A [std::shared_ptr<TNetwork>] is [None] when null; a
    [std::weak_ptr<TNetwork>] is [None] when empty. *)
Definition ObjId : Type := positive.
Abbreviation shared_ptr := (option ObjId).
Abbreviation weak_ptr := (option ObjId).

(** [w.expired()]. *)
Definition expired (alive : ObjId -> bool) (w : weak_ptr) : bool :=
  match w with
  | Some o => negb (alive o)
  | None => true
  end.

(** [w.lock()]. *)
Definition lock (alive : ObjId -> bool) (w : weak_ptr) : shared_ptr :=
  match w with
  | Some o => if alive o then Some o else None
  | None => None
  end.

(** [TNetwork::AddNetwork(inode, net)] on the map [Networks]. *)
Definition AddNetwork (alive : ObjId -> bool) (inode : Z) (net : shared_ptr)
    (Networks : gmap Z weak_ptr) : gmap Z weak_ptr :=
  filter (fun it : Z * weak_ptr => expired alive it.2 = false) (<[inode := net]> Networks).

(** [TNetwork::GetNetwork(inode)]. *)
Definition GetNetwork (alive : ObjId -> bool) (inode : Z)
    (Networks : gmap Z weak_ptr) : shared_ptr :=
  match Networks !! inode with
  | Some w => lock alive w
  | None => None
  end.

(** ** Traffic classes and device reconciliation *)

Section Manager.

Context `{Util} {K : Type} `{KernelApi K}.

(** The global tables of the file. *)
Variable G : NetConfig.

(** The class [AddTC] hands to [rtnl_class_add].  [AddTC] computes rate,
    ceil, prio, quantum and the buffers as [uint64_t]; the setters of
    libnl it passes them to ([rtnl_htb_set_rate], [rtnl_htb_set_ceil],
    [rtnl_htb_set_prio], [rtnl_htb_set_quantum], [rtnl_htb_set_rbuffer],
    [rtnl_htb_set_cbuffer], and [rtnl_tc_set_mtu] for the MTU) take
    [uint32_t], so that the class holds the values narrowed to 32 bits
    (the source says so itself: "FIXME add support for 64-bit rate and
    ceil"). *)
Definition AddTC_class (dev : TNetworkDevice) (handle parent prio rate ceil : Z)
    : rtnl_class :=
  let rate := if rate =? 0 then 1 else rate in
  let max_rate := GetConfig dev (DeviceRate G) INT32_MAX in
  let rate := if rate >? max_rate then max_rate else rate in
  let ceil := if (ceil =? 0) || (ceil >? max_rate) then max_rate else ceil in
  let quantum := GetConfig dev (DeviceQuantum G) (to_uint64 (dev_MTU dev * 2)) in
  let rbuffer := GetConfig dev (HTBrbuffer G) (to_uint64 (dev_MTU dev * 10)) in
  let cbuffer := GetConfig dev (HTBcbuffer G) (to_uint64 (dev_MTU dev * 10)) in
  mkClass (dev_Index dev) parent handle "htb" (to_uint32 rate) (to_uint32 ceil)
          (to_uint32 prio) (to_uint32 (dev_MTU dev))
          (to_uint32 quantum) (to_uint32 rbuffer) (to_uint32 cbuffer).

(** [TNetwork::AddTC]. *)
Definition AddTC (dev : TNetworkDevice) (handle parent prio rate ceil : Z)
    : M K TError :=
  do allocated <- query k_class_alloc;
  if negb allocated
  then pure (Error Unknown "Cannot allocate rtnl_class object")
  else
    do r <- query (k_tc_set_kind "htb");
    if r <? 0
    then pure (NlError r "Cannot set HTB class")
    else
      let cls := AddTC_class dev handle parent prio rate ceil in
      do r <- emit (k_class_add cls) (EvClassAdd cls);
      if r <? 0
      then pure (NlError r ("Cannot add traffic class to " +:+ GetDesc dev))
      else pure Success.

(** The inner loop of the collection in [DelTC]: the handles of the
    cached classes whose parent is [h], in cache order. *)
Fixpoint children (cache : list (Z * Z)) (h : Z) : list Z :=
  match cache with
  | [] => []
  | obj :: rest =>
      if obj.2 =? h then obj.1 :: children rest h else children rest h
  end.

(** The outer loop [for (i = 0; i < handles.size(); i++)], which appends
    to the vector it walks; [None] when [fuel] iterations do not reach
    the end. *)
Fixpoint collect_handles (fuel : nat) (cache : list (Z * Z))
    (handles : list Z) (i : nat) : option (list Z) :=
  match fuel with
  | O => None
  | S fuel' =>
      match handles !! i with
      | None => Some handles
      | Some h => collect_handles fuel' cache (handles ++ children cache h) (S i)
      end
  end.

(** [ret < 0 && ret != -NLE_OBJ_NOTFOUND]. *)
Definition fatal (r : Z) : bool := (r <? 0) && negb (r =? - NLE_OBJ_NOTFOUND).

(** The loop [for (i = handles.size() - 1; i >= 0; i--)], over the
    handles still to delete, last collected first. *)
Fixpoint delete_handles (ifindex : Z) (todo : list Z) (r : Z) : M K Z :=
  match todo with
  | [] => pure r
  | h :: rest =>
      do r <- emit (k_class_delete ifindex h) (EvClassDelete ifindex h);
      if fatal r then pure r else delete_handles ifindex rest r
  end.

(** The tail of [DelTC], from the last return code to the error. *)
Definition DelTC_result (dev : TNetworkDevice) (r : Z) : TError :=
  if fatal r
  then NlError r ("Cannot remove traffic class at " +:+ GetDesc dev)
  else Success.

(** [TNetwork::DelTC]; [None] when the collection does not end within
    [fuel] iterations. *)
Definition DelTC (fuel : nat) (dev : TNetworkDevice) (handle : Z)
    : World K -> option (TError * World K) :=
  fun w =>
    if negb (k_class_alloc (kern w))
    then Some (Error Unknown "Cannot allocate rtnl_class object", w)
    else
      let ifindex := dev_Index dev in
      let '(r, w1) := emit (k_class_delete ifindex handle)
                           (EvClassDelete ifindex handle) w in
      if r =? - NLE_BUSY
      then
        let '(r, cache) := k_class_alloc_cache ifindex (kern w1) in
        let w2 := mkWorld (kern w1) (calls w1 ++ [EvClassCache ifindex r]) in
        if r <? 0
        then Some (NlError r "Cannot allocate class cache", w2)
        else
          match collect_handles fuel cache [handle] 0 with
          | None => None
          | Some handles =>
              let '(r, w3) := delete_handles ifindex (rev handles) r w2 in
              Some (DelTC_result dev r, w3)
          end
      else Some (DelTC_result dev r, w1).

(** [if (error) { if (!result) result = error; }]. *)
Definition remember (result error : TError) : TError :=
  if failed error then (if failed result then result else error) else result.

(** The default rate [CreateTC] picks for a handle on a device. *)
Definition default_rate (dev : TNetworkDevice) (handle : Z) : Z :=
  if handle =? TC_HANDLE ROOT_TC_MAJOR ROOT_CONTAINER_ID
  then GetConfig dev (DeviceRate G) DefaultUint
  else if handle =? TC_HANDLE ROOT_TC_MAJOR PORTO_ROOT_CONTAINER_ID
  then GetConfig dev (PortoRate G) DefaultUint
  else GetConfig dev (ContainerRate G) DefaultUint.

(** The loop of [TNetwork::CreateTC] over the devices still to visit. *)
Fixpoint CreateTC_loop (devs : list TNetworkDevice) (handle parent : Z)
    (prio rate ceil : TUintMap) (result : TError) : M K TError :=
  match devs with
  | [] => pure result
  | dev :: rest =>
      if negb (dev_Managed dev)
      then CreateTC_loop rest handle parent prio rate ceil result
      else
        let def := default_rate dev handle in
        do error <- AddTC dev handle parent
                          (GetConfig dev prio DefaultUint)
                          (GetConfig dev rate def)
                          (GetConfig dev ceil (GetConfig dev (DeviceRate G) DefaultUint));
        CreateTC_loop rest handle parent prio rate ceil (remember result error)
  end.

(** [TNetwork::CreateTC]. *)
Definition CreateTC (net : TNetwork) (handle parent : Z)
    (prio rate ceil : TUintMap) : M K TError :=
  CreateTC_loop (Devices net) handle parent prio rate ceil Success.

(** The loop of [TNetwork::DestroyTC]. *)
Fixpoint DestroyTC_loop (fuel : nat) (devs : list TNetworkDevice) (handle : Z)
    (result : TError) (w : World K) : option (TError * World K) :=
  match devs with
  | [] => Some (result, w)
  | dev :: rest =>
      if negb (dev_Managed dev)
      then DestroyTC_loop fuel rest handle result w
      else
        match DelTC fuel dev handle w with
        | None => None
        | Some (error, w1) =>
            DestroyTC_loop fuel rest handle (remember result error) w1
        end
  end.

(** [TNetwork::DestroyTC]. *)
Definition DestroyTC (fuel : nat) (net : TNetwork) (handle : Z)
    : World K -> option (TError * World K) :=
  DestroyTC_loop fuel (Devices net) handle Success.

End Manager.

Section Reconcile.

Context `{Util} {K : Type} `{KernelApi K}.

Variable G : NetConfig.

(** [TC_H_ROOT] of the kernel headers. *)
Definition TC_H_ROOT : Z := 4294967295.

(** The constructor of [TNetworkDevice] from a kernel link. *)
Definition NewDevice (link : rtnl_link) : TNetworkDevice :=
  let Name := link_name link in
  let Group := link_group link in
  let Managed := true in
  let Managed :=
    if existsb (fun pattern => StringMatch Name pattern) (UnmanagedDevices G)
    then false else Managed in
  let Managed :=
    if existsb (fun g => g =? Group) (UnmanagedGroups G)
    then false else Managed in
  mkDevice Name (link_type link) (link_ifindex link) (link_link link) Group
           (link_mtu link) Managed false false.

(** The root qdisc [1:0] as [SetupQueue] fills it. *)
Definition root_qdisc (dev : TNetworkDevice) : TNlQdisc :=
  mkQdisc TC_H_ROOT (TC_HANDLE ROOT_TC_MAJOR ROOT_TC_MINOR)
          (GetConfig dev (DeviceQdisc G) DefaultString)
          (TC_HANDLE ROOT_TC_MAJOR DEFAULT_TC_MINOR) 0 10.

(** [TNetwork::SetupQueue]: the error and the device after the call. *)
Definition SetupQueue (managedNamespace : bool) (dev : TNetworkDevice)
    : M K (TError * TNetworkDevice) :=
  let name := dev_Name dev in
  let root := TC_HANDLE ROOT_TC_MAJOR ROOT_TC_MINOR in
  do error <- query (k_link_load name);
  if failed error then pure (error, dev) else
  let qdisc := root_qdisc dev in
  do valid <- query (k_qdisc_check qdisc name);
  do error <-
    (if valid then pure Success
     else do _ <- emit (k_qdisc_delete qdisc name) (fun _ => EvQdiscDelete name qdisc);
          emit (k_qdisc_create qdisc name) (fun _ => EvQdiscCreate name qdisc));
  if failed error then pure (error, dev) else
  do present <- query (k_filter_exists root 1 name);
  do _ <-
    (if present
     then emit (k_filter_remove root 1 name) (fun _ => EvFilterRemove name)
     else pure Success);
  do error <- emit (k_filter_create root 1 name) (fun _ => EvFilterCreate name);
  if failed error then pure (error, dev) else
  let prio := NET_DEFAULT_PRIO in
  let rate := GetConfig dev (DeviceRate G) DefaultUint in
  let ceil := rate in
  do error <- AddTC G dev (TC_HANDLE ROOT_TC_MAJOR ROOT_CONTAINER_ID) root
                    prio rate ceil;
  if failed error then pure (error, dev) else
  let rate := GetConfig dev (DefaultRate G) DefaultUint in
  do error <- AddTC G dev (TC_HANDLE ROOT_TC_MAJOR DEFAULT_TC_MINOR)
                    (TC_HANDLE ROOT_TC_MAJOR ROOT_CONTAINER_ID) prio rate ceil;
  if failed error then pure (error, dev) else
  do error <-
    (if managedNamespace then pure Success
     else
       let defq := mkQdisc (TC_HANDLE ROOT_TC_MAJOR DEFAULT_TC_MINOR)
                           (TC_HANDLE DEFAULT_TC_MAJOR ROOT_TC_MINOR)
                           (GetConfig dev (DefaultQdisc G) DefaultString) 0
                           (GetConfig dev (DefaultQdiscLimit G) DefaultUint)
                           (GetConfig dev (DefaultQdiscQuantum G)
                                      (to_uint64 (dev_MTU dev * 2))) in
       do valid <- query (k_qdisc_check defq name);
       if valid then pure Success
       else emit (k_qdisc_create defq name) (fun _ => EvQdiscCreate name defq));
  if failed error then pure (error, dev) else
  let rate := GetConfig dev (PortoRate G) DefaultUint in
  do error <- AddTC G dev (TC_HANDLE ROOT_TC_MAJOR PORTO_ROOT_CONTAINER_ID)
                    (TC_HANDLE ROOT_TC_MAJOR ROOT_CONTAINER_ID) prio rate ceil;
  if failed error then pure (error, dev) else
  pure (Success, set_Prepared true dev).

(** The loop [for (auto &d: Devices)] that looks for the tracked device
    with the name and index of [dev]: the updated list when found. *)
Fixpoint update_tracked (dev : TNetworkDevice) (qdisc : string)
    (devs : list TNetworkDevice) : option (list TNetworkDevice) :=
  match devs with
  | [] => None
  | d :: rest =>
      if negb (String.eqb (dev_Name d) (dev_Name dev))
         || negb (dev_Index d =? dev_Index dev)
      then option_map (cons d) (update_tracked dev qdisc rest)
      else
        let d := dev in
        let d := if dev_Managed d && negb (String.eqb qdisc "htb")
                 then d else set_Prepared true d in
        Some (d :: rest)
  end.

(** One iteration of the loop over the link cache. *)
Definition refresh_link (managedNamespace : bool)
    (devs : list TNetworkDevice) (link : rtnl_link) : list TNetworkDevice :=
  let flags := link_flags link in
  if negb (Z.land flags IFF_LOOPBACK =? 0) then devs
  else if negb managedNamespace && (Z.land flags IFF_RUNNING =? 0) then devs
  else
    let dev := NewDevice link in
    if String.eqb (dev_Type dev) "veth"
       && (StringStartsWith (dev_Name dev) "portove-"
           || StringStartsWith (dev_Name dev) "L3-")
    then devs
    else
      let dev := if managedNamespace then set_Managed true dev else dev in
      match update_tracked dev (link_qdisc link) devs with
      | Some devs' => devs'
      | None => devs ++ [dev]
      end.

(** The loop that erases the devices still marked missing. *)
Fixpoint erase_missing (devs : list TNetworkDevice) : list TNetworkDevice :=
  match devs with
  | [] => []
  | dev :: rest =>
      if dev_Missing dev then erase_missing rest else dev :: erase_missing rest
  end.

(** The last loop of [RefreshDevices]: the error, the devices and
    [NewManagedDevices] after it. *)
Fixpoint setup_devices (managedNamespace : bool) (devs : list TNetworkDevice)
    (newManaged : bool) : M K (TError * list TNetworkDevice * bool) :=
  match devs with
  | [] => pure (Success, [], newManaged)
  | dev :: rest =>
      if negb (dev_Managed dev) || dev_Prepared dev
      then
        do (error, rest', newManaged') <- setup_devices managedNamespace rest newManaged;
        pure (error, dev :: rest', newManaged')
      else
        do (error, dev') <- SetupQueue managedNamespace dev;
        if failed error then pure (error, dev' :: rest, newManaged)
        else
          do (error, rest', newManaged') <- setup_devices managedNamespace rest true;
          pure (error, dev' :: rest', newManaged')
  end.

(** [TNetwork::RefreshDevices]: the error and the manager after the call. *)
Definition RefreshDevices (net : TNetwork) : M K (TError * TNetwork) :=
  do (r, cache) <- (fun w =>
                       let rc := k_link_alloc_cache (kern w) in
                       (rc, mkWorld (kern w) (calls w ++ [EvLinkCache rc.1])));
  if r <? 0 then pure (NlError r "Cannot allocate link cache", net)
  else
    let devs := map (set_Missing true) (Devices net) in
    let devs := fold_left (refresh_link (ManagedNamespace net)) cache devs in
    let devs := erase_missing devs in
    do (error, devs, newManaged) <-
      setup_devices (ManagedNamespace net) devs (NewManagedDevices net);
    pure (error, set_NewManagedDevices newManaged (set_Devices devs net)).

End Reconcile.

(** ** The network specification *)

Record TMacVlanNetCfg : Type := mkMacVlan {
  mv_Master : string;
  mv_Name : string;
  mv_Type : string;
  mv_Hw : string;
  mv_Mtu : Z
}.

Record TIpVlanNetCfg : Type := mkIpVlan {
  iv_Master : string;
  iv_Name : string;
  iv_Mode : string;
  iv_Mtu : Z
}.

Record TVethNetCfg : Type := mkVeth {
  veth_Bridge : string;
  veth_Name : string;
  veth_Hw : string;
  veth_Peer : string;
  veth_Mtu : Z
}.

Record TL3NetCfg : Type := mkL3 {
  l3_Name : string;
  l3_Master : string;
  l3_Mtu : Z;
  l3_Nat : bool;
  l3_Addrs : list nl_addr
}.

(** The members of [TNetCfg] that [ParseNet] reads or writes. *)
Record TNetCfg : Type := mkNetCfg {
  Id : Z;
  NewNetNs : bool;
  Inherited : bool;
  Steal : list string;
  MacVlan : list TMacVlanNetCfg;
  IpVlan : list TIpVlanNetCfg;
  Veth : list TVethNetCfg;
  L3lan : list TL3NetCfg;
  NetNsName : string;
  NetCtName : string;
  Autoconf : list string
}.

Definition set_NewNetNs (b : bool) (c : TNetCfg) : TNetCfg :=
  mkNetCfg (Id c) b (Inherited c) (Steal c) (MacVlan c) (IpVlan c) (Veth c)
           (L3lan c) (NetNsName c) (NetCtName c) (Autoconf c).

Definition set_Inherited (b : bool) (c : TNetCfg) : TNetCfg :=
  mkNetCfg (Id c) (NewNetNs c) b (Steal c) (MacVlan c) (IpVlan c) (Veth c)
           (L3lan c) (NetNsName c) (NetCtName c) (Autoconf c).

Definition set_Steal (l : list string) (c : TNetCfg) : TNetCfg :=
  mkNetCfg (Id c) (NewNetNs c) (Inherited c) l (MacVlan c) (IpVlan c) (Veth c)
           (L3lan c) (NetNsName c) (NetCtName c) (Autoconf c).

Definition set_MacVlan (l : list TMacVlanNetCfg) (c : TNetCfg) : TNetCfg :=
  mkNetCfg (Id c) (NewNetNs c) (Inherited c) (Steal c) l (IpVlan c) (Veth c)
           (L3lan c) (NetNsName c) (NetCtName c) (Autoconf c).

Definition set_IpVlan (l : list TIpVlanNetCfg) (c : TNetCfg) : TNetCfg :=
  mkNetCfg (Id c) (NewNetNs c) (Inherited c) (Steal c) (MacVlan c) l (Veth c)
           (L3lan c) (NetNsName c) (NetCtName c) (Autoconf c).

Definition set_Veth (l : list TVethNetCfg) (c : TNetCfg) : TNetCfg :=
  mkNetCfg (Id c) (NewNetNs c) (Inherited c) (Steal c) (MacVlan c) (IpVlan c) l
           (L3lan c) (NetNsName c) (NetCtName c) (Autoconf c).

Definition set_L3lan (l : list TL3NetCfg) (c : TNetCfg) : TNetCfg :=
  mkNetCfg (Id c) (NewNetNs c) (Inherited c) (Steal c) (MacVlan c) (IpVlan c)
           (Veth c) l (NetNsName c) (NetCtName c) (Autoconf c).

Definition set_NetNsName (s : string) (c : TNetCfg) : TNetCfg :=
  mkNetCfg (Id c) (NewNetNs c) (Inherited c) (Steal c) (MacVlan c) (IpVlan c)
           (Veth c) (L3lan c) s (NetCtName c) (Autoconf c).

Definition set_NetCtName (s : string) (c : TNetCfg) : TNetCfg :=
  mkNetCfg (Id c) (NewNetNs c) (Inherited c) (Steal c) (MacVlan c) (IpVlan c)
           (Veth c) (L3lan c) (NetNsName c) s (Autoconf c).

Definition set_Autoconf (l : list string) (c : TNetCfg) : TNetCfg :=
  mkNetCfg (Id c) (NewNetNs c) (Inherited c) (Steal c) (MacVlan c) (IpVlan c)
           (Veth c) (L3lan c) (NetNsName c) (NetCtName c) l.

Definition mv_set_Mtu (mtu : Z) (l : TMacVlanNetCfg) : TMacVlanNetCfg :=
  mkMacVlan (mv_Master l) (mv_Name l) (mv_Type l) (mv_Hw l) mtu.

Definition iv_set_Mtu (mtu : Z) (l : TIpVlanNetCfg) : TIpVlanNetCfg :=
  mkIpVlan (iv_Master l) (iv_Name l) (iv_Mode l) mtu.

Definition veth_set_Mtu (mtu : Z) (l : TVethNetCfg) : TVethNetCfg :=
  mkVeth (veth_Bridge l) (veth_Name l) (veth_Hw l) (veth_Peer l) mtu.

Definition l3_set_Mtu (mtu : Z) (l : TL3NetCfg) : TL3NetCfg :=
  mkL3 (l3_Name l) (l3_Master l) mtu (l3_Nat l) (l3_Addrs l).

(** [TNetCfg::Reset]. *)
Definition Reset (c : TNetCfg) : TNetCfg :=
  mkNetCfg (Id c) true false [] [] [] [] [] "" "" (Autoconf c).

(** What [ParseNet] holds while it walks the lines: the object and the
    locals [none] and [idx]. *)
Record ParseState : Type := mkParse {
  ps_cfg : TNetCfg;
  ps_none : bool;
  ps_idx : Z
}.

Definition with_cfg (f : TNetCfg -> TNetCfg) (st : ParseState) : ParseState :=
  mkParse (f (ps_cfg st)) (ps_none st) (ps_idx st).

(** How the body of the loop over the lines ends: with the next
    iteration, or with a [return]. *)
Inductive Flow : Type :=
  | Continue (st : ParseState)
  | Return (error : TError) (st : ParseState).

(** One of the four loops of the MTU branch,
    [for (auto &link: list) if (link.Name == name) { link.Mtu = mtu; return }]:
    the updated list when a link of that name is found. *)
Fixpoint set_mtu {A : Type} (name_of : A -> string) (assign : Z -> A -> A)
    (name : string) (mtu : Z) (links : list A) : option (list A) :=
  match links with
  | [] => None
  | link :: rest =>
      if String.eqb (name_of link) name
      then Some (assign mtu link :: rest)
      else option_map (cons link) (set_mtu name_of assign name mtu rest)
  end.

(** The separator [' '] of [SplitEscapedString(line, settings, ' ')]. *)
Definition space : Ascii.ascii := Ascii.ascii_of_nat 32.

Section Parser.

Context `{Util}.

(** [settings[i]], read only after the size of [settings] was checked. *)
Definition field (settings : list string) (i : nat) : string := nth i settings "".

Definition size (settings : list string) : Z := Z.of_nat (length settings).

Definition invalid (text : string) : TError := Error InvalidValue text.

(** The macvlan branch. *)
Definition parse_macvlan (st : ParseState) (line : string) (settings : list string)
    : Flow :=
  if size settings <? 3 then Return (invalid ("Invalid macvlan in: " +:+ line)) st
  else
    let master := StringTrim (field settings 1) in
    let name := StringTrim (field settings 2) in
    let type := if size settings >? 3 then StringTrim (field settings 3) else "bridge" in
    if (size settings >? 3) && negb (ValidMacVlanType type)
    then Return (invalid ("Invalid macvlan type " +:+ type)) st
    else
      match (if size settings >? 4 then StringToInt (field settings 4) else inr (-1)) with
      | inl _ => Return (invalid ("Invalid macvlan mtu " +:+ field settings 4)) st
      | inr mtu =>
          let hw := if size settings >? 5 then StringTrim (field settings 5) else "" in
          if (size settings >? 5) && negb (ValidMacAddr hw)
          then Return (invalid ("Invalid macvlan address " +:+ hw)) st
          else
            let mvlan := mkMacVlan master name type hw mtu in
            Continue (with_cfg (fun c => set_MacVlan (MacVlan c ++ [mvlan]) c) st)
      end.

(** The ipvlan branch. *)
Definition parse_ipvlan (st : ParseState) (line : string) (settings : list string)
    : Flow :=
  if size settings <? 3 then Return (invalid ("Invalid ipvlan in: " +:+ line)) st
  else
    let master := StringTrim (field settings 1) in
    let name := StringTrim (field settings 2) in
    let mode := if size settings >? 3 then StringTrim (field settings 3) else "l2" in
    if (size settings >? 3) && negb (ValidIpVlanMode mode)
    then Return (invalid ("Invalid ipvlan mode " +:+ mode)) st
    else
      match (if size settings >? 4 then StringToInt (field settings 4) else inr (-1)) with
      | inl _ => Return (invalid ("Invalid ipvlan mtu " +:+ field settings 4)) st
      | inr mtu =>
          let ipvlan := mkIpVlan master name mode mtu in
          Continue (with_cfg (fun c => set_IpVlan (IpVlan c ++ [ipvlan]) c) st)
      end.

(** The veth branch. *)
Definition parse_veth (st : ParseState) (line : string) (settings : list string)
    : Flow :=
  if size settings <? 3 then Return (invalid ("Invalid veth in: " +:+ line)) st
  else
    let name := StringTrim (field settings 1) in
    let bridge := StringTrim (field settings 2) in
    match (if size settings >? 3 then StringToInt (field settings 3) else inr (-1)) with
    | inl _ => Return (invalid ("Invalid veth mtu " +:+ field settings 3)) st
    | inr mtu =>
        let hw := if size settings >? 4 then StringTrim (field settings 4) else "" in
        if (size settings >? 4) && negb (ValidMacAddr hw)
        then Return (invalid ("Invalid veth address " +:+ hw)) st
        else
          let peer := "portove-" +:+ pretty (Id (ps_cfg st)) +:+ "-"
                      +:+ pretty (ps_idx st) in
          let veth := mkVeth bridge name hw peer mtu in
          Continue (mkParse (set_Veth (Veth (ps_cfg st) ++ [veth]) (ps_cfg st))
                            (ps_none st) (ps_idx st + 1))
    end.

(** The MTU branch. *)
Definition parse_mtu (st : ParseState) (line : string) (settings : list string)
    : Flow :=
  if negb (size settings =? 3) then Return (invalid ("Invalid MTU in: " +:+ line)) st
  else
    match StringToInt (field settings 2) with
    | inl error => Return error st
    | inr mtu =>
        let name := field settings 1 in
        let c := ps_cfg st in
        match set_mtu l3_Name l3_set_Mtu name mtu (L3lan c) with
        | Some l => Return Success (with_cfg (set_L3lan l) st)
        | None =>
        match set_mtu veth_Name veth_set_Mtu name mtu (Veth c) with
        | Some l => Return Success (with_cfg (set_Veth l) st)
        | None =>
        match set_mtu mv_Name mv_set_Mtu name mtu (MacVlan c) with
        | Some l => Return Success (with_cfg (set_MacVlan l) st)
        | None =>
        match set_mtu iv_Name iv_set_Mtu name mtu (IpVlan c) with
        | Some l => Return Success (with_cfg (set_IpVlan l) st)
        | None => Return (invalid ("Link not found: " +:+ name)) st
        end end end end
    end.

(** The body of the loop [for (auto &line : lines)] of [ParseNet]. *)
Definition ParseNet_line (st : ParseState) (line : string) : Flow :=
  let settings := SplitEscapedString line space in
  if size settings =? 0 then Return (invalid ("Invalid net in: " +:+ line)) st
  else
    let type := StringTrim (field settings 0) in
    let type := if String.eqb type "host" && (size settings =? 1)
                then "inherited" else type in
    if String.eqb type "none" then
      Continue (mkParse (ps_cfg st) true (ps_idx st))
    else if String.eqb type "inherited" then
      Continue (with_cfg (fun c => set_Inherited true (set_NewNetNs false c)) st)
    else if String.eqb type "steal" || String.eqb type "host" then
      if negb (size settings =? 2)
      then Return (invalid ("Invalid net in: " +:+ line)) st
      else Continue (with_cfg
                       (fun c => set_Steal (Steal c ++ [StringTrim (field settings 1)]) c)
                       st)
    else if String.eqb type "container" then
      if negb (size settings =? 2)
      then Return (invalid ("Invalid net in: " +:+ line)) st
      else Continue (with_cfg
                       (fun c => set_NetCtName (StringTrim (field settings 1))
                                               (set_NewNetNs false c))
                       st)
    else if String.eqb type "macvlan" then parse_macvlan st line settings
    else if String.eqb type "ipvlan" then parse_ipvlan st line settings
    else if String.eqb type "veth" then parse_veth st line settings
    else if String.eqb type "L3" then
      let name := if size settings >? 1 then StringTrim (field settings 1) else "eth0" in
      let master := if size settings >? 2 then StringTrim (field settings 2) else "" in
      let l3 := mkL3 name master (-1) false [] in
      Continue (with_cfg (fun c => set_L3lan (L3lan c ++ [l3]) c) st)
    else if String.eqb type "NAT" then
      let name := if size settings >? 1 then StringTrim (field settings 1) else "eth0" in
      let nat := mkL3 name "" (-1) true [] in
      Continue (with_cfg (fun c => set_L3lan (L3lan c ++ [nat]) c) st)
    else if String.eqb type "MTU" then parse_mtu st line settings
    else if String.eqb type "autoconf" then
      if negb (size settings =? 2)
      then Return (invalid ("Invalid autoconf in: " +:+ line)) st
      else Continue (with_cfg
                       (fun c => set_Autoconf (Autoconf c ++ [StringTrim (field settings 1)]) c)
                       st)
    else if String.eqb type "netns" then
      if negb (size settings =? 2)
      then Return (invalid ("Invalid netns in: " +:+ line)) st
      else
        let name := StringTrim (field settings 1) in
        if negb (PathExists ("/var/run/netns/" +:+ name))
        then Return (invalid ("net namespace not found: " +:+ name)) st
        else Continue (with_cfg (fun c => set_NetNsName name (set_NewNetNs false c)) st)
    else Return (invalid "Configuration is not specified") st.

(** The check after the loop. *)
Definition check_mixed (st : ParseState) : TError :=
  let c := ps_cfg st in
  let single := Z.b2z (ps_none st) + Z.b2z (Inherited c) in
  let mixed := Z.of_nat (length (Steal c)) + Z.of_nat (length (MacVlan c))
               + Z.of_nat (length (IpVlan c)) + Z.of_nat (length (Veth c))
               + Z.of_nat (length (L3lan c)) in
  if (single >? 1) || ((single =? 1) && negb (mixed =? 0))
  then invalid "none/host/inherited can't be mixed with other types"
  else Success.

(** The loop over the lines followed by the final check. *)
Fixpoint ParseNet_lines (lines : list string) (st : ParseState) : TError * ParseState :=
  match lines with
  | [] => (check_mixed st, st)
  | line :: rest =>
      match ParseNet_line st line with
      | Continue st' => ParseNet_lines rest st'
      | Return error st' => (error, st')
      end
  end.

(** [TNetCfg::ParseNet(lines)]: the error and the object after the call. *)
Definition ParseNet (c : TNetCfg) (lines : list string) : TError * TNetCfg :=
  let c := Reset c in
  if Z.of_nat (length lines) =? 0
  then (invalid "Configuration is not specified", c)
  else
    let '(error, st) := ParseNet_lines lines (mkParse c false 0) in
    (error, ps_cfg st).

End Parser.

(** ** Tearing the queues down, and device names *)

Section Teardown.

Context `{Util} {K : Type} `{KernelApi K}.

(** [TNlQdisc(TC_H_ROOT, TC_HANDLE(ROOT_TC_MAJOR, ROOT_TC_MINOR))] as
    [Destroy] builds it; the members [Destroy] does not assign are left
    empty and zero. *)
Definition bare_root_qdisc : TNlQdisc :=
  mkQdisc TC_H_ROOT (TC_HANDLE ROOT_TC_MAJOR ROOT_TC_MINOR) "" 0 0 0.

(** The loop of [TNetwork::Destroy]; the errors are logged and dropped. *)
Fixpoint Destroy_loop (devs : list TNetworkDevice) : M K unit :=
  match devs with
  | [] => pure tt
  | dev :: rest =>
      if negb (dev_Managed dev) then Destroy_loop rest
      else
        do error <- query (k_link_load (dev_Name dev));
        if failed error then Destroy_loop rest
        else
          do _ <- emit (k_qdisc_delete bare_root_qdisc (dev_Name dev))
                       (fun _ => EvQdiscDelete (dev_Name dev) bare_root_qdisc);
          Destroy_loop rest
  end.

(** [TNetwork::Destroy]. *)
Definition Destroy (net : TNetwork) : M K TError :=
  do _ <- Destroy_loop (Devices net);
  pure Success.

(** The loop of [TNetwork::MatchDevice]. *)
Fixpoint MatchDevice_loop (devs : list TNetworkDevice) (pattern : string) : string :=
  match devs with
  | [] => pattern
  | dev :: rest =>
      if StringMatch (dev_Name dev) pattern then dev_Name dev
      else MatchDevice_loop rest pattern
  end.

(** [TNetwork::MatchDevice(pattern)]. *)
Definition MatchDevice (net : TNetwork) (pattern : string) : string :=
  MatchDevice_loop (Devices net) pattern.

(** The loop [for (int retry = 0; retry < 100; retry++)] of
    [TNetwork::NewDeviceName], with [retries] iterations left.  The member
    [IfaceName], the counter of the manager, is passed in and returned;
    [link.Load()] answers an error when no link has the name. *)
Fixpoint NewDeviceName_loop (retries : nat) (prefix : string) (IfaceName : Z) (k : K)
    : string * Z :=
  match retries with
  | O => (prefix +:+ "0", IfaceName)
  | S retries' =>
      let name := prefix +:+ pretty IfaceName in
      let IfaceName := IfaceName + 1 in
      if failed (k_link_load name k) then (name, IfaceName)
      else NewDeviceName_loop retries' prefix IfaceName k
  end.

(** [TNetwork::NewDeviceName(prefix)]: the name and the counter after the
    call. *)
Definition NewDeviceName (prefix : string) (IfaceName : Z) (k : K) : string * Z :=
  NewDeviceName_loop 100 prefix IfaceName k.

End Teardown.

(** ** Refreshing the classes of the containers *)

Section Classes.

Context `{Util} {K : Type} `{KernelApi K}.

Variable G : NetConfig.

(** The loop of [RefreshClasses] over [Containers], which asks every
    running or meta container of this manager to update its traffic
    classes and logs the failures; containers are defined outside
    [network.cpp], the loop is taken as it comes. *)
Variable UpdateContainers : TNetwork -> M K unit.

(** [TNetwork::RefreshClasses(force)]: the error and the manager after the
    call. *)
Definition RefreshClasses (net : TNetwork) (force : bool) : M K (TError * TNetwork) :=
  do (error, net) <- RefreshDevices G net;
  if failed error || (negb force && negb (NewManagedDevices net))
  then pure (error, net)
  else
    let net := set_NewManagedDevices false net in
    do _ <- UpdateContainers net;
    pure (Success, net).

End Classes.

(** ** Proxy announcements *)

(** The neighbour and address calls of [AddAnnounce] and [DelAnnounce],
    with [TNetwork::DeviceIndex], which [network.cpp] calls but does not
    define. *)
Class NeighApi (K : Type) : Type := {
  (** [Nl->ProxyNeighbour(index, addr, add)]. *)
  k_proxy_neighbour : Z -> nl_addr -> bool -> K -> TError * K;
  (** [rtnl_addr_alloc_cache]: return code and, for every address of the
      cache in cache order, its interface index and its local address
      ([None] when null). *)
  k_addr_alloc_cache : K -> Z * list (Z * option nl_addr);
  (** [nl_addr_cmp_prefix(a, b)]. *)
  nl_addr_cmp_prefix : nl_addr -> nl_addr -> Z;
  (** [DeviceIndex(name)]. *)
  DeviceIndex : TNetwork -> string -> Z
}.

(** One call of [ProxyNeighbour] and what it answered. *)
Record ProxyCall : Type := mkProxy {
  px_index : Z;
  px_addr : nl_addr;
  px_add : bool;
  px_result : TError
}.

(** The kernel side and the proxy calls issued so far, oldest first. *)
Record NeighWorld (K : Type) : Type := mkNeigh {
  nkern : K;
  proxied : list ProxyCall
}.

Arguments mkNeigh {K} _ _.
Arguments nkern {K} _.
Arguments proxied {K} _.

Section Announce.

Context {K : Type} `{NeighApi K}.

(** [Nl->ProxyNeighbour(index, addr, add)], recorded. *)
Definition ProxyNeighbour (index : Z) (addr : nl_addr) (add : bool)
    (w : NeighWorld K) : TError * NeighWorld K :=
  let '(error, k1) := k_proxy_neighbour index addr add (nkern w) in
  (error, mkNeigh k1 (proxied w ++ [mkProxy index addr add error])).

(** The inner loop of [AddAnnounce] over the address cache: whether an
    address of the device has a local part of the prefix of [addr]. *)
Definition reachable (cache : list (Z * option nl_addr)) (dev : TNetworkDevice)
    (addr : nl_addr) : bool :=
  existsb (fun raddr : Z * option nl_addr =>
             (raddr.1 =? dev_Index dev)
             && match raddr.2 with
                | Some local => nl_addr_cmp_prefix local addr =? 0
                | None => false
                end) cache.

(** The loop of [AddAnnounce] over the devices, which breaks at the first
    error. *)
Fixpoint AddAnnounce_loop (devs : list TNetworkDevice)
    (cache : list (Z * option nl_addr)) (addr : nl_addr) (error : TError)
    (w : NeighWorld K) : TError * NeighWorld K :=
  match devs with
  | [] => (error, w)
  | dev :: rest =>
      if reachable cache dev addr
      then
        let '(error, w1) := ProxyNeighbour (dev_Index dev) addr true w in
        if failed error then (error, w1)
        else AddAnnounce_loop rest cache addr error w1
      else AddAnnounce_loop rest cache addr error w
  end.

(** [TNetwork::AddAnnounce(addr, master)]. *)
Definition AddAnnounce (net : TNetwork) (addr : nl_addr) (master : string)
    (w : NeighWorld K) : TError * NeighWorld K :=
  if negb (String.eqb master "")
  then
    let index := DeviceIndex net master in
    if negb (index =? 0) then ProxyNeighbour index addr true w
    else (Error InvalidValue ("Master link not found: " +:+ master), w)
  else
    let '(ret, cache) := k_addr_alloc_cache (nkern w) in
    if ret <? 0 then (NlError ret "Cannot allocate addr cache", w)
    else AddAnnounce_loop (Devices net) cache addr Success w.

(** The loop of [DelAnnounce], which keeps the error of the last call. *)
Fixpoint DelAnnounce_loop (devs : list TNetworkDevice) (addr : nl_addr)
    (error : TError) (w : NeighWorld K) : TError * NeighWorld K :=
  match devs with
  | [] => (error, w)
  | dev :: rest =>
      let '(error, w1) := ProxyNeighbour (dev_Index dev) addr false w in
      DelAnnounce_loop rest addr error w1
  end.

(** [TNetwork::DelAnnounce(addr)]. *)
Definition DelAnnounce (net : TNetwork) (addr : nl_addr)
    (w : NeighWorld K) : TError * NeighWorld K :=
  DelAnnounce_loop (Devices net) addr Success w.

End Announce.

(** ** Generated hardware addresses *)

(** One digit of [%x]. *)
Definition hex_digit (n : Z) : Ascii.ascii :=
  match String.get (Z.to_nat n) "0123456789abcdef" with
  | Some c => c
  | None => Ascii.zero
  end.

(** [%02x] of a value below 256. *)
Definition hex2 (b : Z) : string :=
  String (hex_digit (b / 16)) (String (hex_digit (b mod 16)) "").

(** [TNetCfg::GenerateHw(name)]; [Crc32], of the utilities, answers a
    [uint32_t], and [Hostname] is a member of the object. *)
Definition GenerateHw (Crc32 : string -> Z) (Hostname : string) (name : string) : string :=
  let n := Crc32 name in
  let h := Crc32 Hostname in
  "02:" +:+ hex2 (Z.shiftr (Z.land n 255) 0)
        +:+ ":" +:+ hex2 (Z.shiftr (Z.land h 4278190080) 24)
        +:+ ":" +:+ hex2 (Z.shiftr (Z.land h 16711680) 16)
        +:+ ":" +:+ hex2 (Z.shiftr (Z.land h 65280) 8)
        +:+ ":" +:+ hex2 (Z.shiftr (Z.land h 255) 0).

(** * Starting a task: the sysctl part of [src/task.cpp] *)

(** The list [IpcSysctls]. *)
Definition IpcSysctls : list string :=
  ["fs.mqueue.queues_max"; "fs.mqueue.msg_max"; "fs.mqueue.msgsize_max";
   "fs.mqueue.msg_default"; "fs.mqueue.msgsize_default";
   "kernel.shmmax"; "kernel.shmall"; "kernel.shmmni"; "kernel.shm_rmid_forced";
   "kernel.msgmax"; "kernel.msgmni"; "kernel.msgmnb";
   "kernel.sem"].

(** What [task.cpp] calls to read and write a sysctl, and
    [TNetwork::NetworkSysctl]; none of them is defined in the sources at
    hand. *)
Class SysctlApi (Sys : Type) : Type := {
  (** [SetSysctl(key, val)]. *)
  SetSysctl : string -> string -> Sys -> TError * Sys;
  (** [GetSysctl(key, val)]: the error and [val] after the call. *)
  GetSysctl : string -> Sys -> TError * string;
  (** [TNetwork::NetworkSysctl(key)]. *)
  NetworkSysctl : string -> bool
}.

(** The system and the sysctl writes issued so far, oldest first. *)
Record SysWorld (Sys : Type) : Type := mkSys {
  skern : Sys;
  written : list (string * string)
}.

Arguments mkSys {Sys} _ _.
Arguments skern {Sys} _.
Arguments written {Sys} _.

(** What [ApplySysctl] returns: the [TError] of a call, or
    [TError(EError::Permission, text)], a kind [network.cpp] has no use
    for. *)
Inductive TSysctlError : Type :=
  | Returned (error : TError)
  | Permission (text : string).

Section Sysctl.

Context {Sys : Type} `{SysctlApi Sys}.

(** The loop of [InitIpcSysctl] over the keys still to visit;
    [ipc_sysctl] is [config().container().ipc_sysctl()], the entries in
    order. *)
Fixpoint InitIpcSysctl_loop (keys : list string) (ipc_sysctl : list (string * string))
    (s : Sys) : list (string * string) :=
  match keys with
  | [] => ipc_sysctl
  | key :: rest =>
      let set := existsb (fun it : string * string => String.eqb it.1 key) ipc_sysctl in
      let '(error, val) := GetSysctl key s in
      if negb set && negb (failed error)
      then InitIpcSysctl_loop rest (ipc_sysctl ++ [(key, val)]) s
      else InitIpcSysctl_loop rest ipc_sysctl s
  end.

(** [InitIpcSysctl()]: the configured entries after the call. *)
Definition InitIpcSysctl (ipc_sysctl : list (string * string)) (s : Sys)
    : list (string * string) :=
  InitIpcSysctl_loop IpcSysctls ipc_sysctl s.

(** [SetSysctl(key, val)], recorded. *)
Definition set_sysctl (key val : string) (w : SysWorld Sys) : TError * SysWorld Sys :=
  let '(error, s1) := SetSysctl key val (skern w) in
  (error, mkSys s1 (written w ++ [(key, val)])).

(** The first loop of [ApplySysctl], over the configured entries. *)
Fixpoint ApplySysctl_ipc (ipc_sysctl : list (string * string)) (w : SysWorld Sys)
    : TError * SysWorld Sys :=
  match ipc_sysctl with
  | [] => (Success, w)
  | it :: rest =>
      let '(error, w1) := set_sysctl it.1 it.2 w in
      if failed error then (error, w1) else ApplySysctl_ipc rest w1
  end.

(** The second loop, over [CT->Sysctl] in the order of its keys. *)
Fixpoint ApplySysctl_keys (Isolate NetIsolate : bool) (Sysctl : list (string * string))
    (w : SysWorld Sys) : TSysctlError * SysWorld Sys :=
  match Sysctl with
  | [] => (Returned Success, w)
  | it :: rest =>
      let key := it.1 in
      if NetworkSysctl key then
        if negb NetIsolate
        then (Permission ("Sysctl " +:+ key +:+ " requires net isolation"), w)
        else ApplySysctl_keys Isolate NetIsolate rest w
      else if existsb (String.eqb key) IpcSysctls then
        if negb Isolate
        then (Permission ("Sysctl " +:+ key +:+ " requires ipc isolation"), w)
        else
          let '(error, w1) := set_sysctl key it.2 w in
          if failed error then (Returned error, w1)
          else ApplySysctl_keys Isolate NetIsolate rest w1
      else (Permission ("Sysctl " +:+ key +:+ " is not allowed"), w)
  end.

(** [TTaskEnv::ApplySysctl()], from [CT->Isolate], [CT->NetIsolate], the
    configured entries and [CT->Sysctl]. *)
Definition ApplySysctl (Isolate NetIsolate : bool)
    (ipc_sysctl Sysctl : list (string * string)) (w : SysWorld Sys)
    : TSysctlError * SysWorld Sys :=
  let '(error, w1) := if Isolate then ApplySysctl_ipc ipc_sysctl w else (Success, w) in
  if failed error then (Returned error, w1)
  else ApplySysctl_keys Isolate NetIsolate Sysctl w1.

End Sysctl.

(** ** The addresses of the interfaces *)

(** The methods of [TNlAddr] that [ParseIp] and [FormatIp] call; they are
    not defined in the sources at hand. *)
Class AddrApi : Type := {
  (** [addr.Parse(AF_UNSPEC, s)]: the error and the address after the
      call. *)
  ParseAddr : string -> TError * nl_addr;
  (** [addr.Format()]. *)
  FormatAddr : nl_addr -> string;
  (** [addr.IsHost()]. *)
  IsHost : nl_addr -> bool
}.

(** [TIpVec]. *)
Record TIpVec : Type := mkIpVec {
  ip_Iface : string;
  ip_Addr : nl_addr
}.

Definition l3_set_Addrs (addrs : list nl_addr) (l : TL3NetCfg) : TL3NetCfg :=
  mkL3 (l3_Name l) (l3_Master l) (l3_Mtu l) (l3_Nat l) addrs.

Section Addresses.

Context `{Util} `{AddrApi}.

(** The loop [for (auto &l3: L3lan)] of [ParseIp]: whether it ran to its
    end, and the descriptors as it left them. *)
Fixpoint push_l3_addr (ip : TIpVec) (l3s : list TL3NetCfg) : bool * list TL3NetCfg :=
  match l3s with
  | [] => (true, [])
  | l3 :: rest =>
      if String.eqb (l3_Name l3) (ip_Iface ip) then
        if negb (IsHost (ip_Addr ip)) then (false, l3 :: rest)
        else
          let '(ok, rest') := push_l3_addr ip rest in
          (ok, l3_set_Addrs (l3_Addrs l3 ++ [ip_Addr ip]) l3 :: rest')
      else
        let '(ok, rest') := push_l3_addr ip rest in
        (ok, l3 :: rest')
  end.

(** The loop of [ParseIp] over the lines; [IpVec] is the member of that
    name. *)
Fixpoint ParseIp_lines (lines : list string) (c : TNetCfg) (IpVec : list TIpVec)
    : TError * TNetCfg * list TIpVec :=
  match lines with
  | [] => (Success, c, IpVec)
  | line :: rest =>
      let settings := SplitEscapedString line space in
      if negb (size settings =? 2)
      then (invalid ("Invalid ip address/prefix in: " +:+ line), c, IpVec)
      else
        let '(error, addr) := ParseAddr (field settings 1) in
        if failed error then (error, c, IpVec)
        else
          let ip := mkIpVec (field settings 0) addr in
          let IpVec := IpVec ++ [ip] in
          let '(ok, l3s) := push_l3_addr ip (L3lan c) in
          let c := set_L3lan l3s c in
          if ok then ParseIp_lines rest c IpVec
          else (invalid "Invalid ip prefix for L3 network", c, IpVec)
  end.

(** [TNetCfg::ParseIp(lines)]: the error, the object and [IpVec] after the
    call; [IpVec.clear()] comes first. *)
Definition ParseIp (c : TNetCfg) (lines : list string) : TError * TNetCfg * list TIpVec :=
  ParseIp_lines lines c [].

(** [TNetCfg::FormatIp(lines)]: the error and [lines] after the call. *)
Definition FormatIp (IpVec : list TIpVec) (lines : list string) : TError * list string :=
  (Success,
   lines ++ map (fun ip => ip_Iface ip +:+ " " +:+ FormatAddr (ip_Addr ip)) IpVec).

End Addresses.

(** ** A plain instance of the utilities and a scripted kernel

    They serve to run the model on concrete inputs. *)

(** Glob matching restricted to literal characters and a final star. *)
Fixpoint glob_match (pattern str : string) : bool :=
  match pattern, str with
  | EmptyString, EmptyString => true
  | String c EmptyString, _ =>
      if Ascii.eqb c (Ascii.ascii_of_nat 42) then true
      else match str with
           | String d EmptyString => Ascii.eqb c d
           | _ => false
           end
  | String c p, String d s => Ascii.eqb c d && glob_match p s
  | _, _ => false
  end.

(** Cutting a line at every separator, without escapes. *)
Fixpoint split_on (sep : Ascii.ascii) (s : string) : list string :=
  match s with
  | EmptyString => [EmptyString]
  | String c rest =>
      let tokens := split_on sep rest in
      if Ascii.eqb c sep then EmptyString :: tokens
      else match tokens with
           | [] => [String c EmptyString]
           | t :: ts => String c t :: ts
           end
  end.

(** Reading an unsigned decimal number. *)
Fixpoint read_digits (s : string) (acc : Z) : option Z :=
  match s with
  | EmptyString => Some acc
  | String c rest =>
      let n := Z.of_nat (Ascii.nat_of_ascii c) - 48 in
      if (0 <=? n) && (n <=? 9) then read_digits rest (10 * acc + n) else None
  end.

Definition read_int (s : string) : TError + Z :=
  match s with
  | EmptyString => inl (Error InvalidValue "Bad integer value")
  | _ =>
      match read_digits s 0 with
      | Some v => inr v
      | None => inl (Error InvalidValue "Bad integer value")
      end
  end.

Definition plain_util : Util := {|
  StringMatch := fun str pattern => glob_match pattern str;
  SplitEscapedString := fun line sep => split_on sep line;
  StringTrim := fun s => s;
  StringToInt := read_int;
  ValidMacVlanType := fun t =>
    existsb (String.eqb t) ["private"; "vepa"; "bridge"; "passthru"];
  ValidIpVlanMode := fun m => existsb (String.eqb m) ["l2"; "l3"];
  ValidMacAddr := fun hw => (String.length hw =? 17)%nat;
  PathExists := fun _ => false;
  NET_DEFAULT_PRIO := 3;
  DEFAULT_TC_MAJOR := 2;
  DefaultUint := 0;
  DefaultString := ""
|}.

(** A kernel that answers from a script: the link cache and the class
    cache are fixed, class additions and deletions take their return codes
    from two lists (0 once a list is used up), links named in
    [s_unloadable] cannot be loaded, and every other call succeeds. *)
Record Script : Type := mkScript {
  s_links : Z * list rtnl_link;
  s_classes : Z * list (Z * Z);
  s_add : list Z;
  s_del : list Z;
  s_unloadable : list string
}.

Definition script_kernel : KernelApi Script := {|
  k_link_alloc_cache := s_links;
  k_link_load := fun name k =>
    if existsb (String.eqb name) (s_unloadable k)
    then Error Unknown "Cannot load link" else Success;
  k_qdisc_check := fun _ _ _ => false;
  k_qdisc_delete := fun _ _ k => (Success, k);
  k_qdisc_create := fun _ _ k => (Success, k);
  k_filter_exists := fun _ _ _ _ => false;
  k_filter_remove := fun _ _ _ k => (Success, k);
  k_filter_create := fun _ _ _ k => (Success, k);
  k_class_alloc := fun _ => true;
  k_tc_set_kind := fun _ _ => 0;
  k_class_add := fun _ k =>
    match s_add k with
    | [] => (0, k)
    | r :: rest => (r, mkScript (s_links k) (s_classes k) rest (s_del k) (s_unloadable k))
    end;
  k_class_delete := fun _ _ k =>
    match s_del k with
    | [] => (0, k)
    | r :: rest => (r, mkScript (s_links k) (s_classes k) (s_add k) rest (s_unloadable k))
    end;
  k_class_alloc_cache := fun _ k => s_classes k
|}.

(** A world with no call issued yet. *)
Definition fresh (k : Script) : World Script := mkWorld k [].

(** The sample tables and devices of the examples. *)
Definition no_config : NetConfig := mkNetConfig [] [] [] [] [] [] [] [] [] [] [] [] [].

Definition eth0 : TNetworkDevice := mkDevice "eth0" "" 2 0 0 1500 true true false.
Definition eth1 : TNetworkDevice := mkDevice "eth1" "" 3 0 0 1500 true true false.
Definition dummy0 : TNetworkDevice := mkDevice "dummy0" "dummy" 4 0 0 1500 false false false.

(** A class cache holding the chain 4 <- 5 <- 6, and a world whose kernel
    answers "busy" to the first delete, success to the second and
    "permission denied" to the third. *)
Definition chain : list (Z * Z) := [(5, 4); (6, 5)].

Definition busy_world : World Script :=
  fresh (mkScript (0, []) (0, chain) [] [- NLE_BUSY; 0; - NLE_PERM] []).

(** A manager of the host namespace tracking two managed devices and an
    unmanaged one. *)
Definition host_net : TNetwork :=
  mkNetwork [eth0; dummy0; eth1] false false None None [].

(** A manager with both NAT bases configured (10.64.0.0 and fd00::) and a
    bitmap of three offsets, the first one taken. *)
Definition nat_net : TNetwork :=
  mkNetwork [] false false
            (Some (mkAddr AF_INET 171966464))
            (Some (mkAddr AF_INET6 (253 * 2 ^ 120)))
            [true; false; false].

(** A manager whose bitmap has two offsets, both free, and for which no
    NAT base is configured. *)
Definition no_base_net : TNetwork := mkNetwork [] false false None None [false; false].

(** ** Vocabulary of the statements *)

(** The first error of a sequence of results, [Success] when none failed. *)
Fixpoint first_error (es : list TError) : TError :=
  match es with
  | [] => Success
  | e :: rest => if failed e then e else first_error rest
  end.

(** [attempts op devs w es w']: the operation is run once on every device
    of [devs], in order, each run starting in the world the previous one
    left, whatever the previous results were; [es] lists the results. *)
Inductive attempts {K : Type}
    (op : TNetworkDevice -> World K -> TError -> World K -> Prop)
    : list TNetworkDevice -> World K -> list TError -> World K -> Prop :=
  | attempts_nil w : attempts op [] w [] w
  | attempts_cons dev devs w e w1 es w2 :
      op dev w e w1 ->
      attempts op devs w1 es w2 ->
      attempts op (dev :: devs) w (e :: es) w2.

(** The managed devices of a list, in order. *)
Fixpoint managed (devs : list TNetworkDevice) : list TNetworkDevice :=
  match devs with
  | [] => []
  | dev :: rest => if dev_Managed dev then dev :: managed rest else managed rest
  end.

(** A class cache is acyclic when its classes can be ranked so that every
    class ranks below its parent. *)
Definition acyclic (cache : list (Z * Z)) : Prop :=
  exists rank : Z -> nat, forall h p, (h, p) ∈ cache -> (rank h < rank p)%nat.

(** The descendants of [root] in a class cache. *)
Inductive descendant (cache : list (Z * Z)) (root : Z) : Z -> Prop :=
  | descendant_child c : (c, root) ∈ cache -> descendant cache root c
  | descendant_step p c :
      descendant cache root p -> (c, p) ∈ cache -> descendant cache root c.

(** The number of handles the collection gathers below and including [h],
    for a cache of depth at most [d] under [h]. *)
Fixpoint weight (cache : list (Z * Z)) (d : nat) (h : Z) : nat :=
  match d with
  | O => 1
  | S d' =>
      S (sum_list (map (weight cache d') (children cache h)))
  end.

(** The reading of C3 under which a fatal delete leaves the handles
    collected further down the descent untouched: once the delete of a
    collected handle has failed fatally, the trace holds no delete of any
    handle collected after it. *)
Definition deeper_left_undeleted (ifindex : Z) (handles : list Z)
    (trace : list Event) : Prop :=
  forall (i j : nat) (f h r : Z),
    handles !! i = Some f -> handles !! j = Some h -> (i < j)%nat ->
    EvClassDelete ifindex f r ∈ trace -> fatal r = true ->
    forall r', EvClassDelete ifindex h r' ∉ trace.

(** The call [CreateTC] makes for one device. *)
Definition CreateTC_on `{Util} {K : Type} `{KernelApi K} (G : NetConfig)
    (handle parent : Z) (prio rate ceil : TUintMap)
    (dev : TNetworkDevice) (w : World K) (e : TError) (w1 : World K) : Prop :=
  AddTC G dev handle parent
        (GetConfig dev prio DefaultUint)
        (GetConfig dev rate (default_rate G dev handle))
        (GetConfig dev ceil (GetConfig dev (DeviceRate G) DefaultUint)) w = (e, w1).

(** The call [DestroyTC] makes for one device, when it returns. *)
Definition DestroyTC_on {K : Type} `{KernelApi K} (handle : Z)
    (dev : TNetworkDevice) (w : World K) (e : TError) (w1 : World K) : Prop :=
  exists fuel, DelTC fuel dev handle w = Some (e, w1).

(** The state [ParseNet] reaches after a run of lines none of which
    returns. *)
Fixpoint after_lines `{Util} (lines : list string) (st : ParseState)
    : option ParseState :=
  match lines with
  | [] => Some st
  | line :: rest =>
      match ParseNet_line st line with
      | Continue st' => after_lines rest st'
      | Return _ _ => None
      end
  end.

(** The configuration object the examples start from. *)
Definition blank_cfg : TNetCfg := mkNetCfg 7 true false [] [] [] [] [] "" "" [].

(** Flags and names of a kernel link. *)
Definition is_loopback (link : rtnl_link) : bool :=
  negb (Z.land (link_flags link) IFF_LOOPBACK =? 0).

Definition is_running (link : rtnl_link) : bool :=
  negb (Z.land (link_flags link) IFF_RUNNING =? 0).

(** Administratively up: the flag [IFF_UP] is set. *)
Definition is_up (link : rtnl_link) : bool :=
  negb (Z.land (link_flags link) IFF_UP =? 0).

(** A veth link carrying one of the reserved name prefixes. *)
Definition own_veth (link : rtnl_link) : bool :=
  String.eqb (link_type link) "veth"
  && (StringStartsWith (link_name link) "portove-"
      || StringStartsWith (link_name link) "L3-").

(** The links a reconciliation pass keeps: not the loopback, running
    unless the namespace is managed, and not a veth of our own. *)
Definition kept (managedNamespace : bool) (link : rtnl_link) : bool :=
  negb (is_loopback link)
  && (managedNamespace || is_running link)
  && negb (own_veth link).

(** The links C6 as worded expects to be kept: not the loopback,
    administratively up unless the namespace is managed, and not a veth of
    our own. *)
Definition kept_when_up (managedNamespace : bool) (link : rtnl_link) : bool :=
  negb (is_loopback link)
  && (managedNamespace || is_up link)
  && negb (own_veth link).

(** The device a pass builds for a link it keeps. *)
Definition tracked_device `{Util} (G : NetConfig) (managedNamespace : bool)
    (link : rtnl_link) : TNetworkDevice :=
  if managedNamespace then set_Managed true (NewDevice G link) else NewDevice G link.

(** A tracked device shows the link it was built from. *)
Definition shows (d : TNetworkDevice) (l : rtnl_link) : Prop :=
  dev_Name d = link_name l /\ dev_Index d = link_ifindex l /\
  dev_Type d = link_type l /\ dev_Link d = link_link l /\
  dev_Group d = link_group l /\ dev_MTU d = link_mtu l.

(** A link of the host that is administratively up but not running (no
    carrier), and a kernel whose link cache holds just that link. *)
Definition unplugged : rtnl_link := mkLink "eth0" "" 2 0 0 1500 IFF_UP "".

Definition unplugged_world : World Script :=
  fresh (mkScript (0, [unplugged]) (0, []) [] [] []).

(** A kernel with a running link [eth1] next to the loopback, seen by a
    manager that still tracks [eth0]. *)
Definition running_eth1 : rtnl_link :=
  mkLink "eth1" "" 3 0 0 1500 (Z.lor IFF_UP IFF_RUNNING) "htb".

Definition loopback : rtnl_link :=
  mkLink "lo" "" 1 0 0 65536 (Z.lor IFF_UP (Z.lor IFF_LOOPBACK IFF_RUNNING)) "".

Definition eth1_world : World Script :=
  fresh (mkScript (0, [loopback; running_eth1]) (0, []) [] [] []).

Definition tracking_eth0 : TNetwork := mkNetwork [eth0] false false None None [].

(** What holds of the device list while the link cache is walked: the
    devices no longer marked missing show kept links already seen, and
    every kept link already seen has such a device. *)
Definition walked (mns : bool) (seen : list rtnl_link) (devs : list TNetworkDevice) : Prop :=
  (forall d, d ∈ devs -> dev_Missing d = false ->
     exists l, l ∈ seen /\ kept mns l = true /\ shows d l) /\
  (forall l, l ∈ seen -> kept mns l = true ->
     exists d, d ∈ devs /\ dev_Missing d = false /\
               dev_Name d = link_name l /\ dev_Index d = link_ifindex l).

(** What [SetupQueue] may do to the device it is given. *)
Definition prepared_from (d d' : TNetworkDevice) : Prop :=
  d' = d \/ d' = set_Prepared true d.

(** The name and index by which a tracked device is matched to a link. *)
Definition dev_key (d : TNetworkDevice) : string * Z := (dev_Name d, dev_Index d).

(** While the link cache is walked, a device that comes after another
    device of the same name and index is still marked missing. *)
Fixpoint first_live (devs : list TNetworkDevice) : Prop :=
  match devs with
  | [] => True
  | d :: rest =>
      (forall x, x ∈ rest -> dev_key x = dev_key d -> dev_Missing x = true)
      /\ first_live rest
  end.

(** A manager of a runtime-managed namespace, and a configuration that
    declares every [eth*] device unmanaged. *)
Definition container_net : TNetwork := mkNetwork [] true false None None [].

Definition eth_unmanaged : NetConfig :=
  mkNetConfig ["eth*"] [] [] [] [] [] [] [] [] [] [] [] [].



(** The NAT base [PutNatAddress] measures an address against: the base of
    the family of the address, when one is configured. *)
Definition nat_base (net : TNetwork) (addr : nl_addr) : TNlAddr :=
  if addr_family addr =? AF_INET then NatBaseV4 net
  else if addr_family addr =? AF_INET6 then NatBaseV6 net
  else None.

(** A class cache in which the classes 5 and 6 both hang under class 4. *)
Definition fork : list (Z * Z) := [(5, 4); (6, 4)].

(** The peer name the veth branch of [ParseNet] builds,
    ["portove-" + std::to_string(Id) + "-" + std::to_string(idx)]. *)
Definition peer_name (id idx : Z) : string :=
  "portove-" +:+ pretty id +:+ "-" +:+ pretty idx.

(** The first field of a line, trimmed: what [ParseNet] reads the type of
    the line from. *)
Definition line_type `{Util} (line : string) : string :=
  StringTrim (field (SplitEscapedString line space) 0).

(** A world in which the link [eth1] cannot be loaded. *)
Definition eth1_gone : World Script := fresh (mkScript (0, []) (0, []) [] [] ["eth1"]).

(** A kernel side for the announcements: the address cache is fixed, the
    calls of [ProxyNeighbour] take their answers from a list ([Success]
    once it is used up), two addresses have the same prefix when they are
    equal, and no device index is known by name. *)
Record NeighScript : Type := mkNeighScript {
  ns_addrs : Z * list (Z * option nl_addr);
  ns_proxy : list TError
}.

Definition neigh_script : NeighApi NeighScript := {|
  k_proxy_neighbour := fun _ _ _ k =>
    match ns_proxy k with
    | [] => (Success, k)
    | e :: rest => (e, mkNeighScript (ns_addrs k) rest)
    end;
  k_addr_alloc_cache := ns_addrs;
  nl_addr_cmp_prefix := fun a b =>
    if (addr_family a =? addr_family b) && (addr_value a =? addr_value b) then 0 else 1;
  DeviceIndex := fun _ _ => 0
|}.

(** An address, a cache in which the devices of index 2 and 3 have it,
    and a kernel side that refuses the first proxy call. *)
Definition announced : nl_addr := mkAddr AF_INET 171966465.

Definition refusing : NeighWorld NeighScript :=
  mkNeigh (mkNeighScript (0, [(2, Some announced); (4, None); (3, Some announced)])
                         [Error Unknown "refused"]) [].

(** Whether [InitIpcSysctl] has a default to add for a key: no configured
    entry has the key, and the host gives its value. *)
Definition host_default {Sys : Type} `{SysctlApi Sys}
    (ipc_sysctl : list (string * string)) (s : Sys) (key : string) : bool :=
  negb (existsb (String.eqb key) ipc_sysctl.*1) && negb (failed (GetSysctl key s).1).

(** A system whose sysctl writes all succeed, on which the keys are read
    from a table, and for which the network keys are those under [net.]. *)
Definition table_sysctl : SysctlApi (list (string * string)) := {|
  SetSysctl := fun key val s => (Success, (key, val) :: s);
  GetSysctl := fun key s =>
    match find_key key s with
    | Some val => (Success, val)
    | None => (Error Unknown "No such sysctl", "")
    end;
  NetworkSysctl := fun key => String.prefix "net." key
|}.

(** Addresses written as the decimal of their value, all of one family,
    and all of them host addresses. *)
Definition decimal_addr : AddrApi := {|
  ParseAddr := fun s =>
    match read_int s with
    | inl error => (error, mkAddr 0 0)
    | inr v => (Success, mkAddr AF_INET v)
    end;
  FormatAddr := fun a => pretty (addr_value a);
  IsHost := fun _ => true
|}.

(** The addresses of [ip] that go to the descriptors named [name]. *)
Definition addrs_for (name : string) (IpVec : list TIpVec) : list nl_addr :=
  map ip_Addr (List.filter (fun ip => String.eqb name (ip_Iface ip)) IpVec).

(** * Properties *)

(** ** Configuration lookup *)

Section ConfigFacts.

Context `{Util}.








End ConfigFacts.



(** ** Rate policy of [AddTC] *)

(** C2, evaluated where the code departs from it.  With a device rate of
    3000000000 configured under the default key, a request for that rate
    reaches the kernel unchanged, above [INT32_MAX]: the maximum taken
    from the table is not bounded by [INT32_MAX], which only serves when
    the table has no entry for the device.  With a device rate of 2^32
    configured the class gets rate 0 and ceil 0, the 32 bits libnl keeps
    of them.  With a device rate of 0 configured, a requested rate of 0 is
    mapped to 1 and then clamped back to 0. *)
Theorem AddTC_configured_rate_not_bounded `{Util} {K : Type} `{KernelApi K}
    (G : NetConfig) (dev : TNetworkDevice) (handle parent prio : Z) (w : World K) :
  StringMatch (dev_Name dev) "default" = false ->
  k_class_alloc (kern w) = true ->
  0 <= k_tc_set_kind "htb" (kern w) ->
  (DeviceRate G = [("default", 3000000000)] ->
   let cls := AddTC_class G dev handle parent prio 3000000000 0 in
   cls_rate cls = 3000000000 /\
   cls_ceil cls = 3000000000 /\
   INT32_MAX < cls_rate cls /\
   calls (AddTC G dev handle parent prio 3000000000 0 w).2
   = calls w ++ [EvClassAdd cls (k_class_add cls (kern w)).1]) /\
  (DeviceRate G = [("default", 4294967296)] ->
   cls_rate (AddTC_class G dev handle parent prio 4294967296 0) = 0 /\
   cls_ceil (AddTC_class G dev handle parent prio 4294967296 0) = 0) /\
  (DeviceRate G = [("default", 0)] ->
   cls_rate (AddTC_class G dev handle parent prio 0 0) = 0).
Proof.
  intros Hmatch Halloc Hkind. split_and!.
  - intros Hrate cls.
    assert (Hcls : cls_rate cls = 3000000000 /\ cls_ceil cls = 3000000000).
    { subst cls. unfold AddTC_class, GetConfig. rewrite Hrate. simpl.
      rewrite Hmatch. simpl. split; reflexivity. }
    destruct Hcls as [Hr Hc].
    split_and!; [done | done | rewrite Hr; reflexivity |].
    unfold AddTC, bind, query, emit, pure. rewrite Halloc. simpl.
    destruct (k_tc_set_kind "htb" (kern w) <? 0) eqn:E; [lia|].
    fold cls. destruct (k_class_add cls (kern w)) as [r k1]. simpl.
    by destruct (r <? 0).
  - intros Hrate. unfold AddTC_class, GetConfig. rewrite Hrate. simpl.
    rewrite Hmatch. simpl. split; reflexivity.
  - intros Hrate. unfold AddTC_class, GetConfig. rewrite Hrate. simpl.
    rewrite Hmatch. simpl. reflexivity.
Qed.

(** C2 on the device [eth0] and a kernel that accepts the class. *)
Lemma AddTC_configured_rate_not_bounded_witness :
  @AddTC plain_util Script script_kernel
         (mkNetConfig [] [] [] [("default", 3000000000)] [] [] [] [] [] [] [] [] [])
         eth0 65540 65539 3 3000000000 0 (fresh (mkScript (0, []) (0, []) [] [] []))
  = (Success,
     mkWorld (mkScript (0, []) (0, []) [] [] [])
             [EvClassAdd (mkClass 2 65539 65540 "htb" 3000000000 3000000000 3 1500
                                  3000 15000 15000) 0]) /\
  INT32_MAX < 3000000000.
Proof.
  destruct (@AddTC_configured_rate_not_bounded plain_util Script script_kernel
              (mkNetConfig [] [] [] [("default", 3000000000)] [] [] [] [] [] [] [] [] [])
              eth0 65540 65539 3 (fresh (mkScript (0, []) (0, []) [] [] []))
              eq_refl eq_refl (Z.le_refl 0)) as [Hbig _].
  destruct (Hbig eq_refl) as (Hrate & _ & Hlt & _).
  split; [reflexivity|]. rewrite <- Hrate. exact Hlt.
Defined.

(** ** Collecting the handles below a class *)

Section CollectFacts.

Variable cache : list (Z * Z).

Lemma children_spec (h c : Z) : c ∈ children cache h <-> (c, h) ∈ cache.
Proof.
  induction cache as [|[c' p'] rest IH]; simpl.
  - split; intros Hin; inversion Hin.
  - destruct (p' =? h) eqn:E.
    + apply Z.eqb_eq in E. subst p'. rewrite !elem_of_cons, IH.
      split; intros [Heq | Hin]; auto; left; congruence.
    + apply Z.eqb_neq in E. rewrite elem_of_cons, IH.
      split; [auto|]. intros [Heq | Hin]; [congruence | done].
Qed.

Lemma collect_handles_mono (fuel fuel' : nat) handles i out :
  collect_handles fuel cache handles i = Some out ->
  (fuel <= fuel')%nat ->
  collect_handles fuel' cache handles i = Some out.
Proof.
  revert fuel' handles i. induction fuel as [|fuel IH]; intros fuel' handles i; simpl.
  - discriminate.
  - intros Hc Hle. destruct fuel' as [|fuel']; [lia|]. simpl.
    destruct (handles !! i); [|done]. apply IH; [done | lia].
Qed.

Lemma collect_handles_prefix (fuel : nat) handles i out :
  collect_handles fuel cache handles i = Some out ->
  exists ext, out = handles ++ ext.
Proof.
  revert handles i. induction fuel as [|fuel IH]; intros handles i; simpl.
  - discriminate.
  - destruct (handles !! i) as [h|].
    + intros Hc. destruct (IH _ _ Hc) as [ext ->].
      exists (children cache h ++ ext). by rewrite app_assoc.
    + intros [= <-]. exists []. by rewrite app_nil_r.
Qed.

(** Every child of a handle visited at or after position [i] is collected
    at a later position. *)
Lemma collect_handles_complete (fuel : nat) handles i out :
  collect_handles fuel cache handles i = Some out ->
  forall k p c,
    (i <= k)%nat -> out !! k = Some p -> (c, p) ∈ cache ->
    exists j, (k < j)%nat /\ out !! j = Some c.
Proof.
  revert handles i. induction fuel as [|fuel IH]; intros handles i; simpl.
  - discriminate.
  - destruct (handles !! i) as [h|] eqn:Ei.
    + intros Hc k p c Hik Hk Hcp.
      destruct (decide (k = i)) as [-> | Hne].
      * destruct (collect_handles_prefix _ _ _ _ Hc) as [ext Hout].
        assert (Hi : (i < length handles)%nat) by (by eapply lookup_lt_Some).
        assert (p = h) as ->.
        { rewrite Hout, <- app_assoc, lookup_app_l in Hk by done. congruence. }
        apply children_spec in Hcp. apply list_elem_of_lookup in Hcp as [n Hn].
        exists (length handles + n)%nat. split; [lia|].
        rewrite Hout, <- app_assoc, lookup_app_r by lia.
        replace (length handles + n - length handles)%nat with n by lia.
        by apply lookup_app_l_Some.
      * eapply (IH _ _ Hc k p c); [lia | done | done].
    + intros [= <-] k p c Hik Hk Hcp.
      apply lookup_ge_None in Ei. apply lookup_lt_Some in Hk. lia.
Qed.

(** Every handle collected beyond the initial ones is the child of a
    handle at an earlier position. *)
Lemma collect_handles_sound (fuel : nat) handles i out :
  collect_handles fuel cache handles i = Some out ->
  forall j c,
    (length handles <= j)%nat -> out !! j = Some c ->
    exists k p, (i <= k)%nat /\ (k < j)%nat /\ out !! k = Some p /\ (c, p) ∈ cache.
Proof.
  revert handles i. induction fuel as [|fuel IH]; intros handles i; simpl.
  - discriminate.
  - destruct (handles !! i) as [h|] eqn:Ei.
    + intros Hc j c Hj Hjc.
      assert (Hi : (i < length handles)%nat) by (by eapply lookup_lt_Some).
      destruct (decide (length (handles ++ children cache h) <= j)%nat) as [Hge | Hlt].
      * destruct (IH _ _ Hc j c Hge Hjc) as (k & p & Hk1 & Hk2 & Hk3 & Hk4).
        exists k, p. repeat split; [lia | done | done | done].
      * destruct (collect_handles_prefix _ _ _ _ Hc) as [ext Hout].
        rewrite length_app in Hlt.
        exists i, h. repeat split; [lia | lia | |].
        -- rewrite Hout, <- app_assoc. by apply lookup_app_l_Some.
        -- apply children_spec. apply list_elem_of_lookup.
           exists (j - length handles)%nat.
           rewrite Hout, <- app_assoc, lookup_app_r in Hjc by lia.
           rewrite lookup_app_l in Hjc by lia. done.
    + intros [= <-] j c Hj Hjc. apply lookup_lt_Some in Hjc. lia.
Qed.

(** The collection started at [handle] gathers [handle] and exactly its
    descendants. *)
Lemma collect_handles_descendants (fuel : nat) (handle : Z) out :
  collect_handles fuel cache [handle] 0 = Some out ->
  out !! 0%nat = Some handle /\
  forall h, h ∈ out <-> h = handle \/ descendant cache handle h.
Proof.
  intros Hc.
  destruct (collect_handles_prefix _ _ _ _ Hc) as [ext Hout].
  assert (H0 : out !! 0%nat = Some handle) by (by rewrite Hout).
  split; [done|]. intros h. split.
  - intros Hin. apply list_elem_of_lookup in Hin as [j Hj].
    revert h Hj. induction j as [j IHj] using lt_wf_ind. intros h Hj.
    destruct j as [|j]; [left; congruence|]. right.
    destruct (collect_handles_sound _ _ _ _ Hc (S j) h) as (k & p & _ & Hk & Hp & Hcp);
      [simpl; lia | done |].
    destruct (IHj k Hk p Hp) as [-> | Hd].
    + by apply descendant_child.
    + by eapply descendant_step.
  - intros [-> | Hd].
    + apply list_elem_of_lookup. by exists 0%nat.
    + induction Hd as [c Hc0 | p c _ IH Hcp].
      * destruct (collect_handles_complete _ _ _ _ Hc 0%nat handle c) as (j & _ & Hj);
          [lia | done | done |].
        apply list_elem_of_lookup. by exists j.
      * apply list_elem_of_lookup in IH as [k Hk].
        destruct (collect_handles_complete _ _ _ _ Hc k p c) as (j & _ & Hj);
          [lia | done | done |].
        apply list_elem_of_lookup. by exists j.
Qed.

(** *** Termination on an acyclic cache *)

Variable rank : Z -> nat.

Hypothesis ranked : forall h p, (h, p) ∈ cache -> (rank h < rank p)%nat.

Lemma weight_stable (d1 d2 : nat) (h : Z) :
  (rank h <= d1)%nat -> (rank h <= d2)%nat -> weight cache d1 h = weight cache d2 h.
Proof using ranked.
  revert d2 h. induction d1 as [|d1 IH]; intros d2 h H1 H2.
  - assert (Hnil : children cache h = []).
    { destruct (children cache h) as [|c l] eqn:E; [done|].
      assert (Hc : c ∈ children cache h) by (rewrite E; left).
      apply children_spec, ranked in Hc. lia. }
    destruct d2; simpl; [done|]. by rewrite Hnil.
  - destruct d2 as [|d2].
    + assert (Hnil : children cache h = []).
      { destruct (children cache h) as [|c l] eqn:E; [done|].
        assert (Hc : c ∈ children cache h) by (rewrite E; left).
        apply children_spec, ranked in Hc. lia. }
      simpl. by rewrite Hnil.
    + simpl. f_equal. f_equal. apply map_ext_in. intros c Hc.
      apply list_elem_of_In, children_spec, ranked in Hc. apply IH; lia.
Qed.

Lemma weight_unfold (h : Z) :
  weight cache (rank h) h
  = S (sum_list (map (fun c => weight cache (rank c) c) (children cache h))).
Proof using ranked.
  rewrite (weight_stable (rank h) (S (rank h)) h) by lia. simpl.
  f_equal. f_equal. apply map_ext_in. intros c Hc.
  apply list_elem_of_In, children_spec, ranked in Hc. apply weight_stable; lia.
Qed.

Lemma sum_list_app (l1 l2 : list nat) :
  sum_list (l1 ++ l2) = (sum_list l1 + sum_list l2)%nat.
Proof. induction l1 as [|x l1 IH]; simpl; [done|]. rewrite IH. lia. Qed.

Lemma collect_handles_terminates (fuel : nat) handles i :
  (sum_list (map (fun c => weight cache (rank c) c) (drop i handles)) < fuel)%nat ->
  exists out, collect_handles fuel cache handles i = Some out.
Proof using ranked.
  revert handles i. induction fuel as [|fuel IH]; intros handles i Hlt; [lia|].
  simpl. destruct (handles !! i) as [h|] eqn:Ei; [|by eexists].
  apply IH.
  assert (Hi : (i < length handles)%nat) by (by eapply lookup_lt_Some).
  rewrite (drop_S _ _ _ Ei) in Hlt. simpl in Hlt. rewrite weight_unfold in Hlt.
  rewrite drop_app_le by lia. rewrite map_app, sum_list_app. lia.
Qed.

End CollectFacts.

Lemma collect_handles_total (cache : list (Z * Z)) (handle : Z) :
  acyclic cache ->
  exists fuel0 out,
    forall fuel, (fuel0 <= fuel)%nat -> collect_handles fuel cache [handle] 0 = Some out.
Proof.
  intros [rank Hrank].
  set (fuel0 := S (sum_list (map (fun c => weight cache (rank c) c) [handle]))).
  destruct (collect_handles_terminates cache rank Hrank fuel0 [handle] 0) as [out Hout].
  { rewrite drop_0. unfold fuel0. lia. }
  exists fuel0, out. intros fuel Hle. by eapply collect_handles_mono.
Qed.

(** ** Deleting a class and what hangs below it *)

Lemma fatal_spec (r : Z) : fatal r = true <-> r < 0 /\ r <> - NLE_OBJ_NOTFOUND.
Proof. unfold fatal. rewrite andb_true_iff, negb_true_iff, Z.ltb_lt, Z.eqb_neq. done. Qed.

Lemma last_cons_default (x : Z) (l : list Z) (d1 d2 : Z) :
  List.last (x :: l) d1 = List.last (x :: l) d2.
Proof.
  revert x. induction l as [|y l IH]; intros x; [done|].
  change (List.last (y :: l) d1 = List.last (y :: l) d2). apply IH.
Qed.

Lemma last_cons_shift (x : Z) (l : list Z) (d : Z) :
  List.last (x :: l) d = List.last l x.
Proof.
  destruct l as [|y l]; [done|].
  change (List.last (y :: l) d = List.last (y :: l) x). apply last_cons_default.
Qed.

Section DeleteFacts.

Context {K : Type} `{KernelApi K}.

(** The cascade issues the deletes of a prefix [done] of [todo], in order;
    it goes past a return code only when that code is not fatal, and it
    stops before the end only on a fatal one. *)
Lemma delete_handles_spec (ifindex : Z) (todo : list Z) (r0 : Z) (w : World K) :
  exists (done rest rets : list Z),
    todo = done ++ rest /\
    length rets = length done /\
    (delete_handles ifindex todo r0 w).1 = List.last rets r0 /\
    calls (delete_handles ifindex todo r0 w).2
      = calls w ++ zip_with (EvClassDelete ifindex) done rets /\
    Forall (fun r => fatal r = false) (removelast rets) /\
    (rest = [] \/ fatal (List.last rets r0) = true) /\
    (todo <> [] -> rets <> []).
Proof.
  revert r0 w. induction todo as [|h todo IH]; intros r0 w.
  - exists [], [], []. simpl. rewrite app_nil_r. repeat split; auto.
  - simpl. unfold bind, emit.
    destruct (k_class_delete ifindex h (kern w)) as [r1 k1] eqn:Ed.
    destruct (fatal r1) eqn:Ef.
    + exists [h], todo, [r1]. simpl. repeat split; auto.
    + set (w1 := mkWorld k1 (calls w ++ [EvClassDelete ifindex h r1])).
      destruct (IH r1 w1) as (dn & rest & rets & -> & Hlen & Hr & Hc & Hall & Hend & _).
      exists (h :: dn), rest, (r1 :: rets).
      rewrite last_cons_shift. split_and!; auto.
      * simpl. by rewrite Hlen.
      * rewrite Hc. simpl. by rewrite <- app_assoc.
      * destruct rets as [|r2 rets]; [constructor|].
        change (Forall (fun r => fatal r = false) (r1 :: removelast (r2 :: rets))).
        by constructor.
Qed.

(** C3, as the code has it.  When the first delete reports the class busy
    and the class cache of the device is read (an acyclic cache),
    [DelTC] returns; it reads the cache once; the handles it collects
    from that cache alone are the handle itself followed by exactly its
    descendants, each one collected after the handle it hangs under; the
    deletes are issued along the reversed collection, so the original
    handle comes last; a return code that is not fatal (success, or
    "not found") lets the cascade go on, the first fatal one ends it at
    once, so that the handles collected before the failing one (the
    shallower descendants and the original handle) receive no delete,
    and [DelTC] returns the error built from that code. *)
Theorem DelTC_busy_cascade (dev : TNetworkDevice) (handle : Z) (w : World K)
    (k1 : K) (rc : Z) (cache : list (Z * Z)) :
  k_class_alloc (kern w) = true ->
  k_class_delete (dev_Index dev) handle (kern w) = (- NLE_BUSY, k1) ->
  k_class_alloc_cache (dev_Index dev) k1 = (rc, cache) ->
  0 <= rc ->
  acyclic cache ->
  exists (fuel0 : nat) (handles done rest rets : list Z) (w' : World K),
    (forall fuel, (fuel0 <= fuel)%nat ->
       DelTC fuel dev handle w = Some (DelTC_result dev (List.last rets rc), w')) /\
    handles !! 0%nat = Some handle /\
    (forall h, h ∈ handles <-> h = handle \/ descendant cache handle h) /\
    (forall j c, (0 < j)%nat -> handles !! j = Some c ->
       exists i p, (i < j)%nat /\ handles !! i = Some p /\ (c, p) ∈ cache) /\
    rev handles = done ++ rest /\
    length rets = length done /\
    rets <> [] /\
    calls w' = calls w
               ++ [EvClassDelete (dev_Index dev) handle (- NLE_BUSY);
                   EvClassCache (dev_Index dev) rc]
               ++ zip_with (EvClassDelete (dev_Index dev)) done rets /\
    Forall (fun r => fatal r = false) (removelast rets) /\
    fatal (- NLE_OBJ_NOTFOUND) = false /\
    (fatal (List.last rets rc) = false ->
       rest = [] /\ DelTC_result dev (List.last rets rc) = Success) /\
    (fatal (List.last rets rc) = true ->
       DelTC_result dev (List.last rets rc)
       = NlError (List.last rets rc)
                 ("Cannot remove traffic class at " +:+ GetDesc dev)).
Proof.
  intros Halloc Hdel Hcache Hrc Hacyc.
  destruct (collect_handles_total cache handle Hacyc) as (fuel0 & handles & Hcollect).
  pose proof (Hcollect fuel0 (Nat.le_refl _)) as Hc0.
  destruct (collect_handles_descendants _ _ _ _ Hc0) as [Hhead Hdesc].
  set (w2 := mkWorld k1 ((calls w ++ [EvClassDelete (dev_Index dev) handle (- NLE_BUSY)])
                         ++ [EvClassCache (dev_Index dev) rc])).
  destruct (delete_handles_spec (dev_Index dev) (rev handles) rc w2)
    as (dn & rest & rets & Hsplit & Hlen & Hlast & Hcalls & Hall & Hend & Hne).
  exists fuel0, handles, dn, rest, rets,
    (delete_handles (dev_Index dev) (rev handles) rc w2).2.
  split_and!.
  - intros fuel Hle. unfold DelTC, emit. rewrite Halloc, Hdel. simpl.
    rewrite Hcache. simpl.
    destruct (rc <? 0) eqn:E; [lia|].
    rewrite (Hcollect fuel Hle). fold w2.
    destruct (delete_handles (dev_Index dev) (rev handles) rc w2) as [r w3] eqn:Ed.
    simpl in Hlast. by rewrite Hlast.
  - done.
  - apply Hdesc.
  - intros j c Hj Hjc.
    destruct (collect_handles_sound _ _ _ _ _ Hc0 j c) as (i & p & _ & Hi & Hp & Hcp);
      [simpl; lia | done |].
    by exists i, p.
  - done.
  - done.
  - apply Hne. intros Hnil. destruct handles as [|x l]; [done|].
    simpl in Hnil. by destruct (rev l).
  - rewrite Hcalls. simpl. by rewrite <- !app_assoc.
  - done.
  - done.
  - intros Hf. split; [|unfold DelTC_result; by rewrite Hf].
    destruct Hend as [-> | Hf']; [done | congruence].
  - intros Hf. unfold DelTC_result. by rewrite Hf.
Qed.

End DeleteFacts.

(** ** Fanning a class operation out over the managed devices *)

Lemma first_error_success (es : list TError) :
  first_error es = Success <-> Forall (fun e => failed e = false) es.
Proof.
  induction es as [|e es IH]; simpl.
  - split; [constructor | done].
  - destruct (failed e) eqn:E.
    + split; [by intros ->|]. intros Hall. inversion Hall; congruence.
    + rewrite IH. split; [by constructor|]. by inversion 1.
Qed.

Lemma fold_remember (es : list TError) (result : TError) :
  fold_left remember es result = if failed result then result else first_error es.
Proof.
  revert result. induction es as [|e es IH]; intros result; simpl.
  - by destruct result.
  - rewrite IH. unfold remember.
    destruct (failed e) eqn:Ee, (failed result) eqn:Er; simpl; rewrite ?Ee, ?Er; try done.
Qed.

Section FanOutFacts.

Context `{Util} {K : Type} `{KernelApi K}.

Variable G : NetConfig.

Lemma CreateTC_loop_attempts devs handle parent prio rate ceil result (w : World K) :
  exists es w',
    attempts (CreateTC_on G handle parent prio rate ceil) (managed devs) w es w' /\
    CreateTC_loop G devs handle parent prio rate ceil result w
    = (fold_left remember es result, w').
Proof.
  revert result w. induction devs as [|dev devs IH]; intros result w; simpl.
  - exists [], w. split; [constructor | done].
  - destruct (dev_Managed dev); simpl; [|apply IH].
    unfold bind.
    destruct (AddTC G dev handle parent (GetConfig dev prio DefaultUint)
                    (GetConfig dev rate (default_rate G dev handle))
                    (GetConfig dev ceil (GetConfig dev (DeviceRate G) DefaultUint)) w)
      as [e w1] eqn:Ea.
    destruct (IH (remember result e) w1) as (es & w' & Hatt & Hloop).
    exists (e :: es), w'. split; [by econstructor | done].
Qed.

Lemma DelTC_mono (fuel fuel' : nat) dev handle (w : World K) out :
  DelTC fuel dev handle w = Some out -> (fuel <= fuel')%nat ->
  DelTC fuel' dev handle w = Some out.
Proof.
  unfold DelTC. intros Hd Hle.
  destruct (negb (k_class_alloc (kern w))); [done|].
  destruct (emit _ _ w) as [r w1].
  destruct (r =? - NLE_BUSY); [|done].
  destruct (k_class_alloc_cache (dev_Index dev) (kern w1)) as [rc cache].
  destruct (rc <? 0); [done|].
  destruct (collect_handles fuel cache [handle] 0) as [handles|] eqn:Ec; [|done].
  by rewrite (collect_handles_mono _ _ _ _ _ _ Ec Hle).
Qed.

(** An invariant of the kernel under which class caches are acyclic. *)
Variable Inv : K -> Prop.

Hypothesis Inv_delete :
  forall k ifindex handle, Inv k -> Inv (k_class_delete ifindex handle k).2.

Hypothesis Inv_acyclic :
  forall k ifindex, Inv k -> acyclic (k_class_alloc_cache ifindex k).2.

Lemma delete_handles_Inv ifindex todo r (w : World K) :
  Inv (kern w) -> Inv (kern (delete_handles ifindex todo r w).2).
Proof using Inv_delete.
  revert r w. induction todo as [|h todo IH]; intros r w Hw; simpl; [done|].
  unfold bind, emit.
  pose proof (Inv_delete _ ifindex h Hw) as Hk.
  destruct (k_class_delete ifindex h (kern w)) as [r1 k1].
  destruct (fatal r1); [done|]. by apply IH.
Qed.

Lemma DelTC_returns dev handle (w : World K) :
  Inv (kern w) ->
  exists fuel0 e w',
    Inv (kern w') /\
    forall fuel, (fuel0 <= fuel)%nat -> DelTC fuel dev handle w = Some (e, w').
Proof using Inv_delete Inv_acyclic.
  intros Hw. unfold DelTC, emit.
  destruct (negb (k_class_alloc (kern w)));
    [exists 0%nat; do 2 eexists; split; [|intros; reflexivity]; exact Hw|].
  pose proof (Inv_delete _ (dev_Index dev) handle Hw) as Hk.
  destruct (k_class_delete (dev_Index dev) handle (kern w)) as [r k1]. simpl in Hk.
  destruct (r =? - NLE_BUSY);
    [|exists 0%nat; do 2 eexists; split; [|intros; reflexivity]; exact Hk]. simpl.
  pose proof (Inv_acyclic _ (dev_Index dev) Hk) as Hac.
  destruct (k_class_alloc_cache (dev_Index dev) k1) as [rc cache]. simpl in Hac.
  destruct (rc <? 0);
    [exists 0%nat; do 2 eexists; split; [|intros; reflexivity]; exact Hk|].
  destruct (collect_handles_total cache handle Hac) as (fuel0 & handles & Hc).
  set (w2 := mkWorld k1 _).
  exists fuel0, (DelTC_result dev (delete_handles (dev_Index dev) (rev handles) rc w2).1),
    (delete_handles (dev_Index dev) (rev handles) rc w2).2.
  split; [by apply delete_handles_Inv|].
  intros fuel Hle. rewrite (Hc fuel Hle).
  by destruct (delete_handles (dev_Index dev) (rev handles) rc w2).
Qed.

Lemma DestroyTC_loop_attempts devs handle result (w : World K) :
  Inv (kern w) ->
  exists fuel0 es w',
    attempts (DestroyTC_on handle) (managed devs) w es w' /\
    forall fuel, (fuel0 <= fuel)%nat ->
      DestroyTC_loop fuel devs handle result w = Some (fold_left remember es result, w').
Proof using Inv_delete Inv_acyclic.
  revert result w. induction devs as [|dev devs IH]; intros result w Hw; simpl.
  - exists 0%nat, [], w. split; [constructor | done].
  - destruct (dev_Managed dev); simpl; [|by apply IH].
    destruct (DelTC_returns dev handle w Hw) as (f1 & e & w1 & Hw1 & Hd).
    destruct (IH (remember result e) w1 Hw1) as (f2 & es & w' & Hatt & Hloop).
    exists (f1 `max` f2)%nat, (e :: es), w'. split.
    + econstructor; [|done]. exists f1. by apply Hd.
    + intros fuel Hle. rewrite Hd by lia. apply Hloop. lia.
Qed.

End FanOutFacts.

(** C7.  [CreateTC] and [DestroyTC] run the class operation once on every
    managed device, in order and whatever the earlier results were, and
    return the first error among the results, [Success] when none failed.
    The default rate of [CreateTC] comes from the porto-rate table for the
    porto root handle [1:3], from the device-rate table for the root
    handle [1:1] and from the container-rate table for any other handle. *)
Theorem CreateTC_DestroyTC_attempt_every_device
    `{Util} {K : Type} `{KernelApi K} (G : NetConfig) (net : TNetwork)
    (handle parent : Z) (prio rate ceil : TUintMap) (w : World K) (Inv : K -> Prop) :
  (exists es w',
      attempts (CreateTC_on G handle parent prio rate ceil) (managed (Devices net)) w es w' /\
      CreateTC G net handle parent prio rate ceil w = (first_error es, w') /\
      (first_error es = Success <-> Forall (fun e => failed e = false) es)) /\
  ((forall k ifindex h, Inv k -> Inv (k_class_delete ifindex h k).2) ->
   (forall k ifindex, Inv k -> acyclic (k_class_alloc_cache ifindex k).2) ->
   Inv (kern w) ->
   exists fuel0 es w',
      attempts (DestroyTC_on handle) (managed (Devices net)) w es w' /\
      (forall fuel, (fuel0 <= fuel)%nat ->
         DestroyTC fuel net handle w = Some (first_error es, w')) /\
      (first_error es = Success <-> Forall (fun e => failed e = false) es)) /\
  (forall dev,
      (handle = TC_HANDLE ROOT_TC_MAJOR PORTO_ROOT_CONTAINER_ID ->
       default_rate G dev handle = GetConfig dev (PortoRate G) DefaultUint) /\
      (handle = TC_HANDLE ROOT_TC_MAJOR ROOT_CONTAINER_ID ->
       default_rate G dev handle = GetConfig dev (DeviceRate G) DefaultUint) /\
      (handle <> TC_HANDLE ROOT_TC_MAJOR PORTO_ROOT_CONTAINER_ID ->
       handle <> TC_HANDLE ROOT_TC_MAJOR ROOT_CONTAINER_ID ->
       default_rate G dev handle = GetConfig dev (ContainerRate G) DefaultUint)).
Proof.
  split_and!.
  - destruct (CreateTC_loop_attempts G (Devices net) handle parent prio rate ceil Success w)
      as (es & w' & Hatt & Hloop).
    exists es, w'. split_and!; [done | | apply first_error_success].
    unfold CreateTC. by rewrite Hloop, fold_remember.
  - intros Hdel Hac Hw.
    destruct (DestroyTC_loop_attempts Inv Hdel Hac (Devices net) handle Success w Hw)
      as (fuel0 & es & w' & Hatt & Hloop).
    exists fuel0, es, w'. split_and!; [done | | apply first_error_success].
    intros fuel Hle. unfold DestroyTC. by rewrite (Hloop fuel Hle), fold_remember.
  - intros dev. unfold default_rate. split_and!.
    + by intros ->.
    + by intros ->.
    + intros H1 H2.
      destruct (handle =? TC_HANDLE ROOT_TC_MAJOR ROOT_CONTAINER_ID) eqn:E1; [lia|].
      destruct (handle =? TC_HANDLE ROOT_TC_MAJOR PORTO_ROOT_CONTAINER_ID) eqn:E2; [lia|].
      done.
Qed.

(** ** Concrete runs of the traffic-class engine *)

Lemma chain_acyclic : acyclic chain.
Proof.
  exists (fun h => Z.to_nat (10 - h)). intros h p Hin. unfold chain in Hin.
  apply elem_of_cons in Hin as [Heq | Hin].
  - injection Heq as -> ->. simpl. lia.
  - apply elem_of_cons in Hin as [Heq | Hin].
    + injection Heq as -> ->. simpl. lia.
    + inversion Hin.
Defined.

(** C3 on the chain 4 <- 5 <- 6 of device [eth0], deleting class 4. *)
Lemma DelTC_busy_cascade_witness :
  exists (fuel0 : nat) (handles done rest rets : list Z) (w' : World Script),
    (forall fuel, (fuel0 <= fuel)%nat ->
       @DelTC Script script_kernel fuel eth0 4 busy_world
       = Some (DelTC_result eth0 (List.last rets 0), w')) /\
    rev handles = done ++ rest /\
    length rets = length done /\
    calls w' = calls busy_world
               ++ [EvClassDelete 2 4 (- NLE_BUSY); EvClassCache 2 0]
               ++ zip_with (EvClassDelete 2) done rets.
Proof.
  destruct (@DelTC_busy_cascade Script script_kernel eth0 4 busy_world
              (mkScript (0, []) (0, chain) [] [0; - NLE_PERM] []) 0 chain
              eq_refl eq_refl eq_refl (Z.le_refl 0) chain_acyclic)
    as (fuel0 & handles & dn & rest & rets & w' & Hrun & _ & _ & _ & Hrev & Hlen & _ & Hcalls & _).
  exists fuel0, handles, dn, rest, rets, w'. split_and!; assumption.
Defined.

(** C3 as worded fails on the same run: the class collected last, 6, is
    deleted before the delete of class 5 fails for good, which leaves
    classes 5 and 4, collected earlier, in place. *)
Lemma DelTC_fatal_delete_follows_deeper_ones :
  @DelTC Script script_kernel 4 eth0 4 busy_world
  = Some (NlError (- NLE_PERM) "Cannot remove traffic class at 2:eth0 ()",
          mkWorld (mkScript (0, []) (0, chain) [] [] [])
                  [EvClassDelete 2 4 (- NLE_BUSY); EvClassCache 2 0;
                   EvClassDelete 2 6 0; EvClassDelete 2 5 (- NLE_PERM)]) /\
  collect_handles 4 chain [4] 0 = Some [4; 5; 6] /\
  ~ deeper_left_undeleted 2 [4; 5; 6]
      [EvClassDelete 2 4 (- NLE_BUSY); EvClassCache 2 0;
       EvClassDelete 2 6 0; EvClassDelete 2 5 (- NLE_PERM)].
Proof.
  split_and!.
  - vm_compute. reflexivity.
  - vm_compute. reflexivity.
  - intros Hclaim.
    apply (Hclaim 1%nat 2%nat 5 6 (- NLE_PERM) eq_refl eq_refl) with (r' := 0).
    + lia.
    + do 3 apply list_elem_of_further. apply list_elem_of_here.
    + reflexivity.
    + do 2 apply list_elem_of_further. apply list_elem_of_here.
Qed.

(** C7 on the host manager: the porto root class [1:3] is created on and
    destroyed from [eth0] and [eth1], not the unmanaged [dummy0]. *)
Lemma CreateTC_DestroyTC_attempt_every_device_witness :
  (exists es w',
      attempts (@CreateTC_on plain_util Script script_kernel no_config 65539 65537 [] [] [])
               [eth0; eth1] busy_world es w' /\
      @CreateTC plain_util Script script_kernel no_config host_net 65539 65537 [] [] []
                busy_world = (first_error es, w')) /\
  (exists fuel0 es w',
      attempts (@DestroyTC_on Script script_kernel 65539) [eth0; eth1] busy_world es w' /\
      forall fuel, (fuel0 <= fuel)%nat ->
        @DestroyTC Script script_kernel fuel host_net 65539 busy_world
        = Some (first_error es, w')) /\
  @default_rate plain_util no_config eth0 65539
  = @GetConfig plain_util Z eth0 (PortoRate no_config) 0.
Proof.
  destruct (@CreateTC_DestroyTC_attempt_every_device plain_util Script script_kernel
              no_config host_net 65539 65537 [] [] [] busy_world
              (fun k => s_classes k = (0, chain)))
    as (Hcreate & Hdestroy & Hrate).
  split_and!.
  - destruct Hcreate as (es & w' & Hatt & Hrun & _). by exists es, w'.
  - destruct Hdestroy as (fuel0 & es & w' & Hatt & Hrun & _).
    + intros k ifindex h Hk. simpl. by destruct (s_del k).
    + intros k ifindex Hk. simpl. rewrite Hk. exact chain_acyclic.
    + reflexivity.
    + by exists fuel0, es, w'.
  - destruct (Hrate eth0) as (Hporto & _ & _). apply Hporto. reflexivity.
Defined.

(** ** The registry of managers *)

Lemma GetNetwork_absent (alive : ObjId -> bool) (inode : Z)
    (Networks : gmap Z weak_ptr) :
  Networks !! inode = None -> GetNetwork alive inode Networks = None.
Proof. unfold GetNetwork. by intros ->. Qed.

Lemma GetNetwork_live (alive : ObjId -> bool) (inode : Z)
    (Networks : gmap Z weak_ptr) (o : ObjId) :
  Networks !! inode = Some (Some o) -> alive o = true ->
  GetNetwork alive inode Networks = Some o.
Proof. unfold GetNetwork, lock. by intros -> ->. Qed.

Lemma GetNetwork_dead (alive : ObjId -> bool) (inode : Z)
    (Networks : gmap Z weak_ptr) (o : ObjId) :
  Networks !! inode = Some (Some o) -> alive o = false ->
  GetNetwork alive inode Networks = None.
Proof. unfold GetNetwork, lock. by intros -> ->. Qed.

Lemma AddNetwork_lookup (alive : ObjId -> bool) (inode : Z) (net : shared_ptr)
    (Networks : gmap Z weak_ptr) (k : Z) (w : weak_ptr) :
  AddNetwork alive inode net Networks !! k = Some w <->
  expired alive w = false /\
  (k = inode /\ w = net \/ k <> inode /\ Networks !! k = Some w).
Proof.
  unfold AddNetwork. rewrite map_lookup_filter_Some. simpl.
  destruct (decide (k = inode)) as [-> | Hne].
  - rewrite lookup_insert_eq. split.
    + intros [[= <-] Hexp]. auto.
    + intros [Hexp [[_ ->] | [Hne _]]]; [done | congruence].
  - rewrite lookup_insert_ne by done. split.
    + intros [Hk Hexp]. auto.
    + intros [Hexp [[Heq _] | [_ Hk]]]; [congruence | done].
Qed.

(** C9.  After [AddNetwork(inode, net)] with a live [net], the registry
    holds no expired entry: every entry that was expired is gone and every
    other entry of another inode is kept; the entry of [inode] refers to
    [net].  [GetNetwork(inode)] returns the manager of the entry as long as
    a strong reference to it exists, so it returns [net] after one or two
    [AddNetwork] calls for the same inode, and it returns null when the
    entry is absent or its manager is no longer alive. *)
Theorem AddNetwork_sweeps_GetNetwork_locks (alive : ObjId -> bool) (inode : Z)
    (o : ObjId) (Networks : gmap Z weak_ptr) :
  alive o = true ->
  (forall k w, AddNetwork alive inode (Some o) Networks !! k = Some w ->
     expired alive w = false) /\
  (forall k w, k <> inode ->
     (AddNetwork alive inode (Some o) Networks !! k = Some w <->
      Networks !! k = Some w /\ expired alive w = false)) /\
  AddNetwork alive inode (Some o) Networks !! inode = Some (Some o) /\
  GetNetwork alive inode (AddNetwork alive inode (Some o) Networks) = Some o /\
  (forall later : ObjId -> bool, later o = true ->
     GetNetwork later inode (AddNetwork alive inode (Some o) Networks) = Some o /\
     GetNetwork later inode
       (AddNetwork later inode (Some o) (AddNetwork alive inode (Some o) Networks))
     = Some o) /\
  (forall later : ObjId -> bool, later o = false ->
     GetNetwork later inode (AddNetwork alive inode (Some o) Networks) = None) /\
  (forall (later : ObjId -> bool) (registry : gmap Z weak_ptr) (k : Z),
     registry !! k = None -> GetNetwork later k registry = None).
Proof.
  intros Hlive.
  assert (Hentry : forall a : ObjId -> bool, a o = true ->
            forall N, AddNetwork a inode (Some o) N !! inode = Some (Some o)).
  { intros a Ha N. apply AddNetwork_lookup. simpl. rewrite Ha. auto. }
  split_and!.
  - intros k w Hk. by apply AddNetwork_lookup in Hk as [Hexp _].
  - intros k w Hne. rewrite AddNetwork_lookup. split.
    + intros [Hexp [[Heq _] | [_ Hk]]]; [congruence | done].
    + intros [Hk Hexp]. auto.
  - by apply Hentry.
  - apply GetNetwork_live; [by apply Hentry | done].
  - intros later Hlater. split.
    + apply GetNetwork_live; [by apply Hentry | done].
    + apply GetNetwork_live; [by apply Hentry | done].
  - intros later Hlater. eapply GetNetwork_dead; [by apply Hentry | done].
  - intros later registry k Hk. by apply GetNetwork_absent.
Qed.

(** C9 on a registry holding one expired entry, under inode 7: adding the
    live manager 1 under inode 5 drops the entry of inode 7. *)
Lemma AddNetwork_sweeps_GetNetwork_locks_witness :
  GetNetwork (Pos.eqb 1) 5
    (AddNetwork (Pos.eqb 1) 5 (Some 1%positive)
                (<[7 := Some 2%positive]> ∅)) = Some 1%positive /\
  AddNetwork (Pos.eqb 1) 5 (Some 1%positive)
             (<[7 := Some 2%positive]> ∅) !! 7 = None.
Proof.
  destruct (AddNetwork_sweeps_GetNetwork_locks
              (Pos.eqb 1) 5 1%positive
              (<[7 := Some 2%positive]> ∅) eq_refl)
    as (_ & _ & _ & Hget & _).
  split; [exact Hget|].
  destruct (AddNetwork _ 5 _ _ !! 7) as [w|] eqn:E; [|reflexivity].
  apply AddNetwork_lookup in E as [Hexp [[Heq _] | [_ Hw]]]; [discriminate Heq|].
  rewrite lookup_insert_eq in Hw. injection Hw as <-. discriminate Hexp.
Defined.

(** ** NAT addresses *)

Lemma lowest_free_Some (used : TIdMap) (i : nat) :
  lowest_free used = Some i ->
  used !! i = Some false /\ forall j, (j < i)%nat -> used !! j = Some true.
Proof.
  revert i. induction used as [|b used IH]; intros i; simpl; [done|].
  destruct b.
  - destruct (lowest_free used) as [n|]; [|done]. simpl. intros [= <-].
    destruct (IH n eq_refl) as [Hn Hlow]. split; [done|].
    intros [|j] Hj; [done|]. simpl. apply Hlow. lia.
  - intros [= <-]. split; [done|]. intros j Hj. lia.
Qed.

Lemma lowest_free_None (used : TIdMap) :
  lowest_free used = None <-> Forall (fun b => b = true) used.
Proof.
  induction used as [|b used IH]; simpl.
  - split; [constructor | done].
  - destruct b.
    + destruct (lowest_free used) as [n|]; simpl.
      * split; [done|]. intros Hall. inversion Hall as [|? ? _ Hrest]; subst.
        by apply IH in Hrest.
      * split; [|done]. intros _. constructor; [done|]. by apply IH.
    + split; [done|]. intros Hall. by inversion Hall.
Qed.

Lemma IdMap_Put_Get (used : TIdMap) (i : nat) :
  lowest_free used = Some i ->
  IdMap_Put (<[i := true]> used) (Z.of_nat i) = (Success, used).
Proof.
  intros Hfree. destruct (lowest_free_Some _ _ Hfree) as [Hi _].
  pose proof (lookup_lt_Some _ _ _ Hi) as Hlt.
  unfold IdMap_Put. rewrite length_insert.
  destruct (0 <=? Z.of_nat i) eqn:E1; [|lia].
  destruct (Z.of_nat i <? Z.of_nat (length used)) eqn:E2; [|lia]. simpl.
  rewrite Nat2Z.id, list_insert_insert_eq. by rewrite list_insert_id.
Qed.

Lemma set_NatBitmap_back (net : TNetwork) (bm : TIdMap) :
  set_NatBitmap (NatBitmap net) (set_NatBitmap bm net) = net.
Proof. by destruct net. Qed.

(** C8, as the code has it.  [GetNatAddress] takes one offset of the
    bitmap, the lowest free one, and returns one address for each
    configured base, IPv4 first, each being its base plus that offset; it
    fails when every offset is allocated; and when at least one base is
    configured, [PutNatAddress] of the addresses returned gives the offset
    back: the manager is as before, and the next [GetNatAddress] draws the
    same offset again. *)
Theorem GetNatAddress_PutNatAddress_round_trip (net : TNetwork) :
  (forall b, NatBaseV4 net = Some b -> addr_family b = AF_INET) ->
  (forall b, NatBaseV6 net = Some b -> addr_family b = AF_INET6) ->
  (forall i : nat,
      lowest_free (NatBitmap net) = Some i ->
      let addrs :=
        match NatBaseV4 net with Some b => [AddOffset b (Z.of_nat i)] | None => [] end
        ++ match NatBaseV6 net with Some b => [AddOffset b (Z.of_nat i)] | None => [] end in
      let net' := set_NatBitmap (<[i := true]> (NatBitmap net)) net in
      GetNatAddress net [] = (Success, net', addrs) /\
      (forall j, NatBitmap net' !! j
                 = if decide (j = i) then Some true else NatBitmap net !! j) /\
      (NatBaseV4 net <> None \/ NatBaseV6 net <> None ->
       PutNatAddress net' addrs = (Success, net) /\
       (PutNatAddress net' addrs).2 = net /\
       GetNatAddress (PutNatAddress net' addrs).2 [] = (Success, net', addrs))) /\
  (Forall (fun b => b = true) (NatBitmap net) ->
   forall addrs,
     GetNatAddress net addrs
     = (Wrapped (Error Unknown "Cannot allocate id") "Cannot allocate NAT address",
        net, addrs)).
Proof.
  intros Hv4 Hv6. split.
  - intros i Hfree addrs net'.
    assert (Hget : GetNatAddress net [] = (Success, net', addrs)).
    { unfold GetNatAddress, IdMap_Get. rewrite Hfree. simpl.
      subst addrs net'. by destruct (NatBaseV4 net), (NatBaseV6 net). }
    assert (Hput : NatBaseV4 net <> None \/ NatBaseV6 net <> None ->
                   PutNatAddress net' addrs = (Success, net)).
    { intros Hbase. subst addrs.
      assert (Hback : forall base : nl_addr,
                 put_offset net' (AddOffset base (Z.of_nat i)) base = (Success, net)).
      { intros base. unfold put_offset, GetOffset, AddOffset. simpl.
        replace (addr_value base + Z.of_nat i - addr_value base) with (Z.of_nat i) by lia.
        rewrite (IdMap_Put_Get _ _ Hfree). subst net'.
        by rewrite set_NatBitmap_back. }
      destruct (NatBaseV4 net) as [b4|] eqn:E4.
      - simpl. subst net'. simpl. rewrite E4, (Hv4 b4 eq_refl). simpl. apply Hback.
      - destruct (NatBaseV6 net) as [b6|] eqn:E6; [|by destruct Hbase].
        simpl. subst net'. simpl. rewrite E4, E6, (Hv6 b6 eq_refl). simpl.
        apply Hback. }
    split_and!.
    + done.
    + intros j. subst net'. simpl. destruct (decide (j = i)) as [-> | Hne].
      * apply list_lookup_insert_eq.
        destruct (lowest_free_Some _ _ Hfree) as [Hi _]. by eapply lookup_lt_Some.
      * by apply list_lookup_insert_ne.
    + intros Hbase. rewrite (Hput Hbase). done.
  - intros Hall addrs. apply lowest_free_None in Hall.
    unfold GetNatAddress, IdMap_Get. by rewrite Hall.
Qed.

(** C8 on a manager with both bases and offset 0 taken: the two addresses
    share offset 1, and putting them back frees it. *)
Lemma GetNatAddress_PutNatAddress_round_trip_witness :
  GetNatAddress nat_net []
  = (Success, set_NatBitmap [true; true; false] nat_net,
     [mkAddr AF_INET 171966465; mkAddr AF_INET6 (253 * 2 ^ 120 + 1)]) /\
  PutNatAddress (set_NatBitmap [true; true; false] nat_net)
                [mkAddr AF_INET 171966465; mkAddr AF_INET6 (253 * 2 ^ 120 + 1)]
  = (Success, nat_net).
Proof.
  destruct (GetNatAddress_PutNatAddress_round_trip nat_net) as [Hget _].
  - intros b [= <-]. reflexivity.
  - intros b [= <-]. reflexivity.
  - destruct (Hget 1%nat eq_refl) as (Hg & _ & Hp).
    split; [exact Hg|]. apply Hp. left. discriminate.
Defined.

(** C8 as the spec words it fails on a manager that has a bitmap and no
    NAT base: [GetNatAddress] takes offset 0 and returns no address,
    [PutNatAddress] of the addresses it returned frees nothing, and the
    next [GetNatAddress] takes offset 1, not offset 0 again. *)
Lemma GetNatAddress_without_base_keeps_offset :
  GetNatAddress no_base_net []
  = (Success, mkNetwork [] false false None None [true; false], []) /\
  PutNatAddress (GetNatAddress no_base_net []).1.2 (GetNatAddress no_base_net []).2
  = (Success, mkNetwork [] false false None None [true; false]) /\
  lowest_free (NatBitmap no_base_net) = Some 0%nat /\
  lowest_free (NatBitmap (PutNatAddress (GetNatAddress no_base_net []).1.2
                                        (GetNatAddress no_base_net []).2).2)
  = Some 1%nat /\
  GetNatAddress (PutNatAddress (GetNatAddress no_base_net []).1.2
                               (GetNatAddress no_base_net []).2).2 []
  = (Success, mkNetwork [] false false None None [true; true], []).
Proof. split_and!; reflexivity. Qed.

(** ** The parser of the network specification *)

Lemma set_mtu_first {A : Type} (name_of : A -> string) (assign : Z -> A -> A)
    (name : string) (mtu : Z) (pre post : list A) (link : A) :
  Forall (fun l => name_of l <> name) pre ->
  name_of link = name ->
  set_mtu name_of assign name mtu (pre ++ link :: post)
  = Some (pre ++ assign mtu link :: post).
Proof.
  intros Hpre Hlink. induction Hpre as [|l pre Hl _ IH]; simpl.
  - apply String.eqb_eq in Hlink. by rewrite Hlink.
  - apply String.eqb_neq in Hl. by rewrite Hl, IH.
Qed.

Lemma set_mtu_none {A : Type} (name_of : A -> string) (assign : Z -> A -> A)
    (name : string) (mtu : Z) (links : list A) :
  Forall (fun l => name_of l <> name) links ->
  set_mtu name_of assign name mtu links = None.
Proof.
  induction 1 as [|l links Hl _ IH]; simpl; [done|].
  apply String.eqb_neq in Hl. by rewrite Hl, IH.
Qed.

Section ParserFacts.

Context `{Util}.

Lemma ParseNet_lines_app (pre rest : list string) (st st1 : ParseState) :
  after_lines pre st = Some st1 ->
  ParseNet_lines (pre ++ rest) st = ParseNet_lines rest st1.
Proof.
  revert st. induction pre as [|line pre IH]; intros st; simpl.
  - by intros [= ->].
  - destruct (ParseNet_line st line) as [st'|]; [apply IH | done].
Qed.

(** A [return] inside the loop ends [ParseNet] with that error, whatever
    lines follow. *)
Lemma ParseNet_returns_early (c : TNetCfg) (pre rest : list string) (line : string)
    (st st' : ParseState) (error : TError) :
  after_lines pre (mkParse (Reset c) false 0) = Some st ->
  ParseNet_line st line = Return error st' ->
  ParseNet c (pre ++ line :: rest) = (error, ps_cfg st').
Proof.
  intros Hpre Hline. unfold ParseNet.
  destruct (Z.of_nat (length (pre ++ line :: rest)) =? 0) eqn:E.
  { apply Z.eqb_eq in E. rewrite length_app in E. simpl in E. lia. }
  rewrite (ParseNet_lines_app _ _ _ _ Hpre). simpl. by rewrite Hline.
Qed.

Lemma ParseNet_line_MTU (st : ParseState) (line t0 name value : string) :
  SplitEscapedString line space = [t0; name; value] ->
  StringTrim t0 = "MTU" ->
  ParseNet_line st line = parse_mtu st line [t0; name; value].
Proof.
  intros Htok Htrim. unfold ParseNet_line, field. rewrite Htok. simpl. by rewrite Htrim.
Qed.

End ParserFacts.

(** C4.  An MTU line with a name and a number looks the name up in the
    L3 list, then the veth list, then the macvlan list, then the ipvlan
    list, and within a list takes the first descriptor of that name; that
    descriptor gets the number as its MTU and keeps its other members,
    every other descriptor and member of the object stays as it was, and
    [ParseNet] returns success there and then, whatever lines follow; when
    no descriptor has the name, [ParseNet] fails.  On [L3 eth0],
    [veth eth1 br0], [MTU eth1 9000] the veth descriptor gets MTU 9000 and
    the L3 descriptor keeps its own. *)
Theorem ParseNet_MTU_first_match_returns `{Util} :
  (forall (st : ParseState) (line t0 name value : string) (mtu : Z),
      SplitEscapedString line space = [t0; name; value] ->
      StringTrim t0 = "MTU" ->
      StringToInt value = inr mtu ->
      let c := ps_cfg st in
      (forall pre l post,
          L3lan c = pre ++ l :: post ->
          Forall (fun x => l3_Name x <> name) pre ->
          l3_Name l = name ->
          ParseNet_line st line
          = Return Success
              (mkParse
                 (mkNetCfg (Id c) (NewNetNs c) (Inherited c) (Steal c) (MacVlan c)
                           (IpVlan c) (Veth c)
                           (pre ++ mkL3 (l3_Name l) (l3_Master l) mtu (l3_Nat l)
                                        (l3_Addrs l) :: post)
                           (NetNsName c) (NetCtName c) (Autoconf c))
                 (ps_none st) (ps_idx st))) /\
      (forall pre l post,
          Forall (fun x => l3_Name x <> name) (L3lan c) ->
          Veth c = pre ++ l :: post ->
          Forall (fun x => veth_Name x <> name) pre ->
          veth_Name l = name ->
          ParseNet_line st line
          = Return Success
              (mkParse
                 (mkNetCfg (Id c) (NewNetNs c) (Inherited c) (Steal c) (MacVlan c)
                           (IpVlan c)
                           (pre ++ mkVeth (veth_Bridge l) (veth_Name l) (veth_Hw l)
                                          (veth_Peer l) mtu :: post)
                           (L3lan c) (NetNsName c) (NetCtName c) (Autoconf c))
                 (ps_none st) (ps_idx st))) /\
      (forall pre l post,
          Forall (fun x => l3_Name x <> name) (L3lan c) ->
          Forall (fun x => veth_Name x <> name) (Veth c) ->
          MacVlan c = pre ++ l :: post ->
          Forall (fun x => mv_Name x <> name) pre ->
          mv_Name l = name ->
          ParseNet_line st line
          = Return Success
              (mkParse
                 (mkNetCfg (Id c) (NewNetNs c) (Inherited c) (Steal c)
                           (pre ++ mkMacVlan (mv_Master l) (mv_Name l) (mv_Type l)
                                             (mv_Hw l) mtu :: post)
                           (IpVlan c) (Veth c) (L3lan c)
                           (NetNsName c) (NetCtName c) (Autoconf c))
                 (ps_none st) (ps_idx st))) /\
      (forall pre l post,
          Forall (fun x => l3_Name x <> name) (L3lan c) ->
          Forall (fun x => veth_Name x <> name) (Veth c) ->
          Forall (fun x => mv_Name x <> name) (MacVlan c) ->
          IpVlan c = pre ++ l :: post ->
          Forall (fun x => iv_Name x <> name) pre ->
          iv_Name l = name ->
          ParseNet_line st line
          = Return Success
              (mkParse
                 (mkNetCfg (Id c) (NewNetNs c) (Inherited c) (Steal c) (MacVlan c)
                           (pre ++ mkIpVlan (iv_Master l) (iv_Name l) (iv_Mode l) mtu
                                :: post)
                           (Veth c) (L3lan c)
                           (NetNsName c) (NetCtName c) (Autoconf c))
                 (ps_none st) (ps_idx st))) /\
      (Forall (fun x => l3_Name x <> name) (L3lan c) ->
       Forall (fun x => veth_Name x <> name) (Veth c) ->
       Forall (fun x => mv_Name x <> name) (MacVlan c) ->
       Forall (fun x => iv_Name x <> name) (IpVlan c) ->
       ParseNet_line st line = Return (invalid ("Link not found: " +:+ name)) st) /\
      (forall (c0 : TNetCfg) (before rest : list string) (error : TError)
              (st' : ParseState),
          after_lines before (mkParse (Reset c0) false 0) = Some st ->
          ParseNet_line st line = Return error st' ->
          ParseNet c0 (before ++ line :: rest) = (error, ps_cfg st'))) /\
  (forall (c : TNetCfg) (l3_line veth_line mtu_line : string)
          (t1 n1 t2 n2 b2 t3 v3 : string) (rest : list string),
      SplitEscapedString l3_line space = [t1; n1] ->
      StringTrim t1 = "L3" -> StringTrim n1 = "eth0" ->
      SplitEscapedString veth_line space = [t2; n2; b2] ->
      StringTrim t2 = "veth" -> StringTrim n2 = "eth1" -> StringTrim b2 = "br0" ->
      SplitEscapedString mtu_line space = [t3; "eth1"; v3] ->
      StringTrim t3 = "MTU" -> StringToInt v3 = inr 9000 ->
      ParseNet c ([l3_line; veth_line; mtu_line] ++ rest)
      = (Success,
         mkNetCfg (Id c) true false [] [] []
                  [mkVeth "br0" "eth1" ""
                          ("portove-" +:+ pretty (Id c) +:+ "-" +:+ pretty 0) 9000]
                  [mkL3 "eth0" "" (-1) false []]
                  "" "" (Autoconf c))).
Proof.
  split.
  - intros st line t0 name value mtu Htok Htrim Hint c.
    pose proof (ParseNet_line_MTU st line t0 name value Htok Htrim) as Hline.
    unfold parse_mtu, field, size in Hline. simpl in Hline. rewrite Hint in Hline.
    fold c in Hline.
    split_and!.
    + intros pre l post Heq Hpre Hl. rewrite Hline, Heq.
      by rewrite (set_mtu_first _ _ _ _ _ _ _ Hpre Hl).
    + intros pre l post H3 Heq Hpre Hl. rewrite Hline, Heq.
      by rewrite (set_mtu_none _ _ _ _ _ H3), (set_mtu_first _ _ _ _ _ _ _ Hpre Hl).
    + intros pre l post H3 Hv Heq Hpre Hl. rewrite Hline, Heq.
      by rewrite (set_mtu_none _ _ _ _ _ H3), (set_mtu_none _ _ _ _ _ Hv),
                 (set_mtu_first _ _ _ _ _ _ _ Hpre Hl).
    + intros pre l post H3 Hv Hm Heq Hpre Hl. rewrite Hline, Heq.
      by rewrite (set_mtu_none _ _ _ _ _ H3), (set_mtu_none _ _ _ _ _ Hv),
                 (set_mtu_none _ _ _ _ _ Hm), (set_mtu_first _ _ _ _ _ _ _ Hpre Hl).
    + intros H3 Hv Hm Hi. rewrite Hline.
      by rewrite (set_mtu_none _ _ _ _ _ H3), (set_mtu_none _ _ _ _ _ Hv),
                 (set_mtu_none _ _ _ _ _ Hm), (set_mtu_none _ _ _ _ _ Hi).
    + intros c0 before rest error st'. apply ParseNet_returns_early.
  - intros c l3_line veth_line mtu_line t1 n1 t2 n2 b2 t3 v3 rest
           Hs1 Ht1 Hn1 Hs2 Ht2 Hn2 Hb2 Hs3 Ht3 Hv3.
    unfold ParseNet. simpl.
    unfold ParseNet_line at 1. rewrite Hs1. unfold field, size. simpl.
    rewrite Ht1, Hn1. simpl.
    unfold ParseNet_line at 1. rewrite Hs2. unfold field, size. simpl.
    rewrite Ht2. simpl. unfold parse_veth, field, size. simpl.
    rewrite Hn2, Hb2. simpl.
    rewrite (ParseNet_line_MTU _ mtu_line t3 "eth1" v3 Hs3 Ht3).
    unfold parse_mtu, field, size. simpl. rewrite Hv3. reflexivity.
Qed.

(** C4 on the three lines of the example, followed by a line that is
    never read. *)
Lemma ParseNet_MTU_first_match_returns_witness :
  @ParseNet plain_util blank_cfg ["L3 eth0"; "veth eth1 br0"; "MTU eth1 9000"; "bogus"]
  = (Success,
     mkNetCfg 7 true false [] [] []
              [mkVeth "br0" "eth1" "" "portove-7-0" 9000]
              [mkL3 "eth0" "" (-1) false []]
              "" "" []).
Proof.
  exact (proj2 (@ParseNet_MTU_first_match_returns plain_util) blank_cfg
               "L3 eth0" "veth eth1 br0" "MTU eth1 9000"
               "L3" "eth0" "veth" "eth1" "br0" "MTU" "9000" ["bogus"]
               eq_refl eq_refl eq_refl eq_refl eq_refl eq_refl eq_refl
               eq_refl eq_refl eq_refl).
Defined.

(** C10.  A line whose only field is [host] is parsed as [inherited]: the
    object inherits the namespace of the parent, asks for no new
    namespace, and its steal list and every other member stay as they
    were.  A line [host] with one more field is parsed as [steal] with
    that field: the device is added at the end of the steal list and
    nothing else changes.  With more fields the line is rejected: what
    [host] means depends on the number of fields alone. *)
Theorem ParseNet_host_by_field_count `{Util} (st : ParseState) :
  (forall (host_line inherited_line t1 t2 : string),
      SplitEscapedString host_line space = [t1] -> StringTrim t1 = "host" ->
      SplitEscapedString inherited_line space = [t2] -> StringTrim t2 = "inherited" ->
      let c := ps_cfg st in
      ParseNet_line st host_line = ParseNet_line st inherited_line /\
      ParseNet_line st host_line
      = Continue
          (mkParse
             (mkNetCfg (Id c) false true (Steal c) (MacVlan c) (IpVlan c) (Veth c)
                       (L3lan c) (NetNsName c) (NetCtName c) (Autoconf c))
             (ps_none st) (ps_idx st))) /\
  (forall (host_line steal_line t1 t2 device : string),
      SplitEscapedString host_line space = [t1; device] -> StringTrim t1 = "host" ->
      SplitEscapedString steal_line space = [t2; device] -> StringTrim t2 = "steal" ->
      let c := ps_cfg st in
      ParseNet_line st host_line = ParseNet_line st steal_line /\
      ParseNet_line st host_line
      = Continue
          (mkParse
             (mkNetCfg (Id c) (NewNetNs c) (Inherited c) (Steal c ++ [StringTrim device])
                       (MacVlan c) (IpVlan c) (Veth c) (L3lan c)
                       (NetNsName c) (NetCtName c) (Autoconf c))
             (ps_none st) (ps_idx st))) /\
  (forall (host_line t1 f1 f2 : string) (more : list string),
      SplitEscapedString host_line space = t1 :: f1 :: f2 :: more ->
      StringTrim t1 = "host" ->
      ParseNet_line st host_line = Return (invalid ("Invalid net in: " +:+ host_line)) st).
Proof.
  split_and!.
  - intros host_line inherited_line t1 t2 Hs1 Ht1 Hs2 Ht2 c.
    unfold ParseNet_line, field, size. rewrite Hs1, Hs2. simpl. by rewrite Ht1, Ht2.
  - intros host_line steal_line t1 t2 device Hs1 Ht1 Hs2 Ht2 c.
    unfold ParseNet_line, field, size. rewrite Hs1, Hs2. simpl. by rewrite Ht1, Ht2.
  - intros host_line t1 f1 f2 more Hs1 Ht1.
    unfold ParseNet_line, field, size. rewrite Hs1.
    change (nth 0 (t1 :: f1 :: f2 :: more) "") with t1. rewrite Ht1.
    assert (Hlen : 3 <= Z.of_nat (length (t1 :: f1 :: f2 :: more))) by (simpl; lia).
    destruct (Z.of_nat (length (t1 :: f1 :: f2 :: more)) =? 0) eqn:E0; [lia|].
    destruct (Z.of_nat (length (t1 :: f1 :: f2 :: more)) =? 1) eqn:E1; [lia|].
    destruct (Z.of_nat (length (t1 :: f1 :: f2 :: more)) =? 2) eqn:E2; [lia|].
    reflexivity.
Qed.

(** C10 on the lines [host], [inherited], [host eth5] and [steal eth5]. *)
Lemma ParseNet_host_by_field_count_witness :
  (@ParseNet_line plain_util (mkParse blank_cfg false 0) "host"
   = @ParseNet_line plain_util (mkParse blank_cfg false 0) "inherited" /\
   @ParseNet_line plain_util (mkParse blank_cfg false 0) "host"
   = Continue (mkParse (mkNetCfg 7 false true [] [] [] [] [] "" "" []) false 0)) /\
  (@ParseNet_line plain_util (mkParse blank_cfg false 0) "host eth5"
   = @ParseNet_line plain_util (mkParse blank_cfg false 0) "steal eth5" /\
   @ParseNet_line plain_util (mkParse blank_cfg false 0) "host eth5"
   = Continue (mkParse (mkNetCfg 7 true false ["eth5"] [] [] [] [] "" "" []) false 0)) /\
  @ParseNet_line plain_util (mkParse blank_cfg false 0) "host eth5 eth6"
  = Return (invalid "Invalid net in: host eth5 eth6") (mkParse blank_cfg false 0).
Proof.
  destruct (@ParseNet_host_by_field_count plain_util (mkParse blank_cfg false 0))
    as (Hone & Htwo & Hmore).
  split_and!.
  - apply (Hone "host" "inherited" "host" "inherited"); reflexivity.
  - apply (Hone "host" "inherited" "host" "inherited"); reflexivity.
  - apply (Htwo "host eth5" "steal eth5" "host" "steal" "eth5"); reflexivity.
  - apply (Htwo "host eth5" "steal eth5" "host" "steal" "eth5"); reflexivity.
  - apply (Hmore "host eth5 eth6" "host" "eth5" "eth6" []); reflexivity.
Defined.

(** What C5 asks for holds at the line and at the final check: a veth
    line of fewer than three fields is refused where it is read, and so is
    a macvlan line with an unknown type; the final check refuses [none] or
    [inherited] next to a structural descriptor, and the two together. *)
Lemma ParseNet_line_checks `{Util} (st : ParseState) :
  (forall line settings,
      size settings < 3 ->
      parse_veth st line settings = Return (invalid ("Invalid veth in: " +:+ line)) st) /\
  (forall line settings,
      3 < size settings ->
      ValidMacVlanType (StringTrim (field settings 3)) = false ->
      parse_macvlan st line settings
      = Return (invalid ("Invalid macvlan type " +:+ StringTrim (field settings 3))) st) /\
  (ps_none st = true -> Inherited (ps_cfg st) = true ->
   check_mixed st = invalid "none/host/inherited can't be mixed with other types") /\
  (ps_none st = true \/ Inherited (ps_cfg st) = true ->
   Steal (ps_cfg st) <> [] \/ MacVlan (ps_cfg st) <> [] \/ IpVlan (ps_cfg st) <> []
   \/ Veth (ps_cfg st) <> [] \/ L3lan (ps_cfg st) <> [] ->
   check_mixed st = invalid "none/host/inherited can't be mixed with other types").
Proof.
  split_and!.
  - intros line settings Hlt. unfold parse_veth.
    by destruct (size settings <? 3) eqn:E; [|lia].
  - intros line settings Hgt Hbad. unfold parse_macvlan.
    destruct (size settings <? 3) eqn:E; [lia|].
    destruct (size settings >? 3) eqn:E3; [|lia]. by rewrite Hbad.
  - intros Hn Hi. unfold check_mixed. by rewrite Hn, Hi.
  - intros Hone Hmixed. unfold check_mixed.
    set (mixed := Z.of_nat (length (Steal (ps_cfg st))) + _ + _ + _ + _).
    assert (Hpos : 0 < mixed).
    { subst mixed.
      destruct Hmixed as [Hm | [Hm | [Hm | [Hm | Hm]]]];
        match type of Hm with ?l <> [] => destruct l; [done | simpl; lia] end. }
    destruct (ps_none st), (Inherited (ps_cfg st)); simpl;
      try done; try (by destruct Hone);
      destruct (mixed =? 0) eqn:E; try lia; done.
Qed.

(** C5, evaluated where the code departs from it.  After [none] and
    [L3 eth0], a line [MTU eth0 <n>] finds its link and makes [ParseNet]
    return success: the final check, which refuses the first two lines on
    their own, is never reached.  In the same way a veth line of two
    fields, refused on its own, is accepted when it follows an MTU line
    that found its link. *)
Theorem ParseNet_MTU_return_skips_checks `{Util} (c : TNetCfg)
    (none_line l3_line mtu_line veth_line : string)
    (tn t1 n1 t3 v3 t4 n4 : string) (mtu : Z) :
  SplitEscapedString none_line space = [tn] -> StringTrim tn = "none" ->
  SplitEscapedString l3_line space = [t1; n1] ->
  StringTrim t1 = "L3" -> StringTrim n1 = "eth0" ->
  SplitEscapedString mtu_line space = [t3; "eth0"; v3] ->
  StringTrim t3 = "MTU" -> StringToInt v3 = inr mtu ->
  SplitEscapedString veth_line space = [t4; n4] -> StringTrim t4 = "veth" ->
  ParseNet c [none_line; l3_line; mtu_line]
  = (Success, set_L3lan [mkL3 "eth0" "" mtu false []] (Reset c)) /\
  ParseNet c [none_line; l3_line]
  = (invalid "none/host/inherited can't be mixed with other types",
     set_L3lan [mkL3 "eth0" "" (-1) false []] (Reset c)) /\
  ParseNet c [l3_line; mtu_line; veth_line]
  = (Success, set_L3lan [mkL3 "eth0" "" mtu false []] (Reset c)) /\
  ParseNet c [l3_line; veth_line]
  = (invalid ("Invalid veth in: " +:+ veth_line),
     set_L3lan [mkL3 "eth0" "" (-1) false []] (Reset c)).
Proof.
  intros Hsn Htn Hs1 Ht1 Hn1 Hs3 Ht3 Hv3 Hs4 Ht4.
  assert (Hnone : forall st,
            ParseNet_line st none_line = Continue (mkParse (ps_cfg st) true (ps_idx st))).
  { intros st. unfold ParseNet_line, field, size. rewrite Hsn. simpl. by rewrite Htn. }
  assert (Hl3 : forall st,
            ParseNet_line st l3_line
            = Continue (with_cfg (fun c => set_L3lan (L3lan c ++ [mkL3 "eth0" "" (-1) false []]) c)
                                 st)).
  { intros st. unfold ParseNet_line, field, size. rewrite Hs1. simpl.
    by rewrite Ht1, Hn1. }
  assert (Hmtu : forall st,
            L3lan (ps_cfg st) = [mkL3 "eth0" "" (-1) false []] ->
            ParseNet_line st mtu_line
            = Return Success (with_cfg (set_L3lan [mkL3 "eth0" "" mtu false []]) st)).
  { intros st Hl. rewrite (ParseNet_line_MTU st mtu_line t3 "eth0" v3 Hs3 Ht3).
    unfold parse_mtu, field, size. simpl. by rewrite Hv3, Hl. }
  assert (Hveth : forall st,
            ParseNet_line st veth_line
            = Return (invalid ("Invalid veth in: " +:+ veth_line)) st).
  { intros st. unfold ParseNet_line, field, size. rewrite Hs4. simpl.
    rewrite Ht4. simpl. unfold parse_veth, size. by simpl. }
  unfold ParseNet. simpl. split_and!.
  - rewrite Hnone, Hl3. simpl. by rewrite Hmtu.
  - by rewrite Hnone, Hl3.
  - rewrite Hl3. simpl. by rewrite Hmtu.
  - by rewrite Hl3, Hveth.
Qed.

(** C5 on the lines [none], [L3 eth0], [MTU eth0 1500] and [veth eth1]. *)
Lemma ParseNet_MTU_return_skips_checks_witness :
  @ParseNet plain_util blank_cfg ["none"; "L3 eth0"; "MTU eth0 1500"]
  = (Success, set_L3lan [mkL3 "eth0" "" 1500 false []] (Reset blank_cfg)) /\
  @ParseNet plain_util blank_cfg ["none"; "L3 eth0"]
  = (invalid "none/host/inherited can't be mixed with other types",
     set_L3lan [mkL3 "eth0" "" (-1) false []] (Reset blank_cfg)) /\
  @ParseNet plain_util blank_cfg ["L3 eth0"; "MTU eth0 1500"; "veth eth1"]
  = (Success, set_L3lan [mkL3 "eth0" "" 1500 false []] (Reset blank_cfg)) /\
  @ParseNet plain_util blank_cfg ["L3 eth0"; "veth eth1"]
  = (invalid "Invalid veth in: veth eth1",
     set_L3lan [mkL3 "eth0" "" (-1) false []] (Reset blank_cfg)).
Proof.
  exact (@ParseNet_MTU_return_skips_checks plain_util blank_cfg
           "none" "L3 eth0" "MTU eth0 1500" "veth eth1"
           "none" "L3" "eth0" "MTU" "1500" "veth" "eth1" 1500
           eq_refl eq_refl eq_refl eq_refl eq_refl eq_refl eq_refl eq_refl
           eq_refl eq_refl).
Defined.

(** ** Device reconciliation *)

(** Membership in a list put together with [++] and [::]. *)
Ltac mem := rewrite ?elem_of_app, ?elem_of_cons; auto.

Section ReconcileFacts.

Context `{Util} {K : Type} `{KernelApi K}.

Variable G : NetConfig.

Lemma tracked_device_shows (mns : bool) (l : rtnl_link) :
  shows (tracked_device G mns l) l /\ dev_Missing (tracked_device G mns l) = false.
Proof. unfold tracked_device, shows. by destruct mns. Qed.

Lemma refresh_link_cases (mns : bool) (devs : list TNetworkDevice) (l : rtnl_link) :
  refresh_link G mns devs l
  = if kept mns l
    then match update_tracked (tracked_device G mns l) (link_qdisc l) devs with
         | Some devs' => devs'
         | None => devs ++ [tracked_device G mns l]
         end
    else devs.
Proof.
  unfold refresh_link, kept, is_loopback, is_running, own_veth, tracked_device.
  destruct (Z.land (link_flags l) IFF_LOOPBACK =? 0); simpl; [|done].
  destruct mns; simpl.
  - by destruct (_ && _).
  - destruct (Z.land (link_flags l) IFF_RUNNING =? 0); simpl; [done|].
    by destruct (_ && _).
Qed.

Lemma update_tracked_None (dev : TNetworkDevice) (q : string) devs :
  update_tracked dev q devs = None ->
  Forall (fun d => ~ (dev_Name d = dev_Name dev /\ dev_Index d = dev_Index dev)) devs.
Proof.
  induction devs as [|d devs IH]; simpl; [constructor|].
  destruct (negb (String.eqb (dev_Name d) (dev_Name dev))
            || negb (dev_Index d =? dev_Index dev)) eqn:E; [|done].
  destruct (update_tracked dev q devs); [done|]. intros _.
  constructor; [|by apply IH].
  intros [Hn Hi]. apply orb_true_iff in E as [E | E]; apply negb_true_iff in E.
  - apply String.eqb_neq in E. done.
  - apply Z.eqb_neq in E. done.
Qed.

Lemma update_tracked_Some (dev : TNetworkDevice) (q : string) devs devs' :
  update_tracked dev q devs = Some devs' ->
  exists pre d post dev',
    devs = pre ++ d :: post /\
    dev_Name d = dev_Name dev /\ dev_Index d = dev_Index dev /\
    devs' = pre ++ dev' :: post /\
    (dev' = dev \/ dev' = set_Prepared true dev).
Proof.
  revert devs'. induction devs as [|d devs IH]; intros devs'; simpl; [done|].
  destruct (negb (String.eqb (dev_Name d) (dev_Name dev))
            || negb (dev_Index d =? dev_Index dev)) eqn:E.
  - destruct (update_tracked dev q devs) as [r|]; [|done]. simpl. intros [= <-].
    destruct (IH r eq_refl) as (pre & d0 & post & dev' & -> & Hn & Hi & -> & Hdev).
    by exists (d :: pre), d0, post, dev'.
  - intros [= <-]. apply orb_false_iff in E as [E1 E2].
    apply negb_false_iff in E1, E2.
    apply String.eqb_eq in E1. apply Z.eqb_eq in E2.
    exists [], d, devs, (if dev_Managed dev && negb (String.eqb q "htb")
                         then dev else set_Prepared true dev).
    split_and!; [done | done | done | done |]. destruct (_ && _); auto.
Qed.

Lemma walked_step (mns : bool) (seen : list rtnl_link) devs (l : rtnl_link) :
  walked mns seen devs -> walked mns (seen ++ [l]) (refresh_link G mns devs l).
Proof.
  intros [Ha Hb]. rewrite refresh_link_cases.
  destruct (kept mns l) eqn:Ek.
  - destruct (tracked_device_shows mns l) as [Hshow Hmiss].
    set (dev := tracked_device G mns l) in *.
    destruct (update_tracked dev (link_qdisc l) devs) as [devs'|] eqn:Eu.
    + apply update_tracked_Some in Eu
        as (pre & d & post & dev' & -> & Hn & Hi & -> & Hdev).
      assert (Hshow' : shows dev' l /\ dev_Missing dev' = false).
      { destruct Hdev as [-> | ->]; [done|]. by destruct dev. }
      destruct Hshow' as [Hshow' Hmiss']. split.
      * intros x Hx Hxm. apply elem_of_app in Hx as [Hx | Hx].
        -- destruct (Ha x) as (l0 & Hl0 & Hk0 & Hs0); [mem | done |].
           exists l0. split; [mem | done].
        -- apply elem_of_cons in Hx as [-> | Hx].
           ++ exists l. split; [mem | done].
           ++ destruct (Ha x) as (l0 & Hl0 & Hk0 & Hs0); [mem | done |].
              exists l0. split; [mem | done].
      * intros l0 Hl0 Hk0. apply elem_of_app in Hl0 as [Hl0 | Hl0].
        -- destruct (Hb l0 Hl0 Hk0) as (x & Hx & Hxm & Hxn & Hxi).
           apply elem_of_app in Hx as [Hx | Hx].
           ++ exists x. split; [mem | done].
           ++ apply elem_of_cons in Hx as [-> | Hx].
              ** exists dev'. split; [mem|]. split; [done|].
                 destruct Hshow as (Hsn & Hsi & _). destruct Hshow' as (Hsn' & Hsi' & _).
                 split; congruence.
              ** exists x. split; [mem | done].
        -- apply list_elem_of_singleton in Hl0 as ->.
           exists dev'. split; [mem|]. by destruct Hshow' as (? & ? & _).
    + split.
      * intros x Hx Hxm. apply elem_of_app in Hx as [Hx | Hx].
        -- destruct (Ha x Hx Hxm) as (l0 & Hl0 & Hk0 & Hs0).
           exists l0. split; [mem | done].
        -- apply list_elem_of_singleton in Hx as ->.
           exists l. split; [mem | done].
      * intros l0 Hl0 Hk0. apply elem_of_app in Hl0 as [Hl0 | Hl0].
        -- destruct (Hb l0 Hl0 Hk0) as (x & Hx & Hrest).
           exists x. split; [mem | done].
        -- apply list_elem_of_singleton in Hl0 as ->.
           exists dev. split; [mem|]. by destruct Hshow as (? & ? & _).
  - split.
    + intros x Hx Hxm. destruct (Ha x Hx Hxm) as (l0 & Hl0 & Hk0 & Hs0).
      exists l0. split; [mem | done].
    + intros l0 Hl0 Hk0. apply elem_of_app in Hl0 as [Hl0 | Hl0]; [by apply Hb|].
      apply list_elem_of_singleton in Hl0 as ->. congruence.
Qed.

Lemma walked_fold (mns : bool) (links seen : list rtnl_link) devs :
  walked mns seen devs ->
  walked mns (seen ++ links) (fold_left (refresh_link G mns) links devs).
Proof.
  revert seen devs. induction links as [|l links IH]; intros seen devs Hw; simpl.
  - by rewrite app_nil_r.
  - replace (seen ++ l :: links) with ((seen ++ [l]) ++ links)
      by (by rewrite <- app_assoc).
    apply IH. by apply walked_step.
Qed.

Lemma walked_start (mns : bool) devs : walked mns [] (map (set_Missing true) devs).
Proof.
  split.
  - intros d Hd Hm. apply list_elem_of_fmap in Hd as (d0 & -> & _). done.
  - intros l Hl. inversion Hl.
Qed.

Lemma erase_missing_spec devs (d : TNetworkDevice) :
  d ∈ erase_missing devs <-> d ∈ devs /\ dev_Missing d = false.
Proof.
  induction devs as [|x devs IH]; simpl.
  - split; [intros Hd; inversion Hd | intros [Hd _]; inversion Hd].
  - destruct (dev_Missing x) eqn:Ex.
    + rewrite IH, elem_of_cons. split; [intros [? ?]; auto|].
      intros [[-> | Hd] Hm]; [congruence | done].
    + rewrite !elem_of_cons, IH. split.
      * intros [-> | [Hd Hm]]; auto.
      * intros [[-> | Hd] Hm]; auto.
Qed.

Lemma SetupQueue_device (mns : bool) (d : TNetworkDevice) (w : World K) :
  prepared_from d (SetupQueue G mns d w).1.2.
Proof.
  unfold prepared_from, SetupQueue, bind, query, emit, pure.
  repeat (case_match; simpl; auto).
Qed.

Lemma setup_devices_devices (mns : bool) devs (nm : bool) (w : World K) :
  Forall2 prepared_from devs (setup_devices G mns devs nm w).1.1.2.
Proof.
  revert nm w. induction devs as [|d devs IH]; intros nm w; simpl; [constructor|].
  destruct (negb (dev_Managed d) || dev_Prepared d).
  - unfold bind, pure. specialize (IH nm w).
    destruct (setup_devices G mns devs nm w) as [[[e rest'] nm'] w1]. simpl in *.
    constructor; [by left | done].
  - unfold bind, pure. pose proof (SetupQueue_device mns d w) as Hd.
    destruct (SetupQueue G mns d w) as [[e d'] w1]. simpl in Hd.
    destruct (failed e); simpl.
    + constructor; [done|]. apply Forall2_same_length_lookup. split; [done|].
      intros i x y Hx Hy. left. congruence.
    + specialize (IH true w1).
      destruct (setup_devices G mns devs true w1) as [[[e2 rest'] nm'] w2]. simpl in *.
      by constructor.
Qed.

(** A failing [SetupQueue] ends the loop: its error is the result, the
    world is the one it left, and the devices after it are untouched. *)
Lemma setup_devices_abort (mns : bool) pre d post (nm nm1 : bool) (w w1 w2 : World K)
    pre' (e : TError) d' :
  setup_devices G mns pre nm w = ((Success, pre', nm1), w1) ->
  dev_Managed d = true -> dev_Prepared d = false ->
  SetupQueue G mns d w1 = ((e, d'), w2) ->
  failed e = true ->
  setup_devices G mns (pre ++ d :: post) nm w = ((e, pre' ++ d' :: post, nm1), w2).
Proof.
  intros Hpre Hm Hp Hq He.
  revert nm w pre' Hpre. induction pre as [|a pre IH]; intros nm w pre' Hpre; simpl in *.
  - injection Hpre as <- <- <-. rewrite Hm, Hp. simpl.
    unfold bind, pure. by rewrite Hq, He.
  - destruct (negb (dev_Managed a) || dev_Prepared a).
    + unfold bind, pure in *.
      destruct (setup_devices G mns pre nm w) as [[[e0 rest'] nm'] w0] eqn:Er.
      injection Hpre as -> <- -> ->.
      by rewrite (IH nm w rest' Er).
    + unfold bind, pure in *.
      destruct (SetupQueue G mns a w) as [[ea a'] wa].
      destruct (failed ea) eqn:Ea.
      * injection Hpre as -> _ _ _. done.
      * destruct (setup_devices G mns pre true wa) as [[[e0 rest'] nm'] w0] eqn:Er.
        injection Hpre as -> <- -> ->.
        by rewrite (IH true wa rest' Er).
Qed.

End ReconcileFacts.

Lemma prepared_from_shows (d d' : TNetworkDevice) (l : rtnl_link) :
  prepared_from d d' -> shows d l -> shows d' l.
Proof. intros [-> | ->]; [done|]. by destruct d. Qed.

Lemma prepared_from_key (d d' : TNetworkDevice) :
  prepared_from d d' -> dev_Name d' = dev_Name d /\ dev_Index d' = dev_Index d.
Proof. intros [-> | ->]; [done|]. by destruct d. Qed.

(** C6, as the code has it.  When the link cache cannot be read the pass
    ends there with that error and the manager is unchanged.  Otherwise,
    whatever the pass returns, the tracked devices are exactly the links
    of the cache that are kept, matched by name and index: kept are the
    links that are not the loopback, that are running (the flag
    [IFF_RUNNING], not the administrative flag [IFF_UP]) unless the
    namespace is managed, and that are not a veth carrying one of the
    reserved prefixes; each tracked device shows such a link, so a device
    tracked before and not seen in the pass is gone.  A [SetupQueue] error
    on a managed device not yet prepared ends the pass: that error is
    returned, no call follows it and the later devices are left as they
    were. *)
Theorem RefreshDevices_tracks_kept_links `{Util} {K : Type} `{KernelApi K}
    (G : NetConfig) (net : TNetwork) (w : World K) (rc : Z) (cache : list rtnl_link) :
  k_link_alloc_cache (kern w) = (rc, cache) ->
  let mns := ManagedNamespace net in
  let w0 := mkWorld (kern w) (calls w ++ [EvLinkCache rc]) in
  let devs := erase_missing (fold_left (refresh_link G mns) cache
                                       (map (set_Missing true) (Devices net))) in
  (rc < 0 ->
   RefreshDevices G net w = ((NlError rc "Cannot allocate link cache", net), w0)) /\
  (0 <= rc ->
   let net' := (RefreshDevices G net w).1.2 in
   (forall name index,
       (exists d, d ∈ Devices net' /\ dev_Name d = name /\ dev_Index d = index) <->
       (exists l, l ∈ cache /\ kept mns l = true /\
                  link_name l = name /\ link_ifindex l = index)) /\
   (forall d, d ∈ Devices net' ->
       exists l, l ∈ cache /\ kept mns l = true /\ shows d l) /\
   (forall d, d ∈ Devices net ->
       (forall l, l ∈ cache -> kept mns l = true ->
          ~ (link_name l = dev_Name d /\ link_ifindex l = dev_Index d)) ->
       forall d', d' ∈ Devices net' ->
          ~ (dev_Name d' = dev_Name d /\ dev_Index d' = dev_Index d)) /\
   (forall pre d post pre' nm1 w1 e d' w2,
       devs = pre ++ d :: post ->
       setup_devices G mns pre (NewManagedDevices net) w0 = ((Success, pre', nm1), w1) ->
       dev_Managed d = true -> dev_Prepared d = false ->
       SetupQueue G mns d w1 = ((e, d'), w2) ->
       failed e = true ->
       RefreshDevices G net w
       = ((e, set_NewManagedDevices nm1 (set_Devices (pre' ++ d' :: post) net)), w2))).
Proof.
  intros Hcache mns w0 devs. split.
  - intros Hrc. unfold RefreshDevices, bind, pure. rewrite Hcache. simpl.
    by destruct (rc <? 0) eqn:E; [|lia].
  - intros Hrc net'.
    assert (Hrun : forall x,
              setup_devices G mns devs (NewManagedDevices net) w0 = x ->
              RefreshDevices G net w
              = ((x.1.1.1, set_NewManagedDevices x.1.2 (set_Devices x.1.1.2 net)), x.2)).
    { intros [[[e ds] nm] w2] Hx. unfold RefreshDevices, bind, pure.
      rewrite Hcache. simpl. destruct (rc <? 0) eqn:E; [lia|].
      fold mns. fold devs. fold w0. by rewrite Hx. }
    pose proof (setup_devices_devices G mns devs (NewManagedDevices net) w0) as Hrel.
    assert (Hdevs : Devices net'
                    = (setup_devices G mns devs (NewManagedDevices net) w0).1.1.2).
    { subst net'. by rewrite (Hrun _ eq_refl). }
    rewrite <- Hdevs in Hrel.
    destruct (walked_fold G mns cache [] _ (walked_start mns (Devices net))) as [Ha Hb].
    simpl in Ha, Hb.
    assert (Hleft : forall d', d' ∈ Devices net' ->
              exists l, l ∈ cache /\ kept mns l = true /\ shows d' l).
    { intros d' Hd'. apply list_elem_of_lookup in Hd' as [i Hi].
      destruct (Forall2_lookup_r _ _ _ _ _ Hrel Hi) as (d & Hd & Hp).
      apply list_elem_of_lookup_2, erase_missing_spec in Hd as [Hd Hm].
      destruct (Ha d Hd Hm) as (l & Hl & Hk & Hs).
      exists l. split_and!; [done | done |]. by eapply prepared_from_shows. }
    split_and!.
    + intros name index. split.
      * intros (d' & Hd' & <- & <-).
        destruct (Hleft d' Hd') as (l & Hl & Hk & Hn & Hi & _).
        exists l. by split_and!.
      * intros (l & Hl & Hk & <- & <-).
        destruct (Hb l Hl Hk) as (d & Hd & Hm & Hn & Hi).
        assert (Hin : d ∈ devs) by (by apply erase_missing_spec).
        apply list_elem_of_lookup in Hin as [i Hdi].
        destruct (Forall2_lookup_l _ _ _ _ _ Hrel Hdi) as (d' & Hd' & Hp).
        apply prepared_from_key in Hp as [Hn' Hi'].
        exists d'. split_and!; [by eapply list_elem_of_lookup_2 | congruence | congruence].
    + exact Hleft.
    + intros d Hd Hnone d' Hd' [Hn Hi].
      destruct (Hleft d' Hd') as (l & Hl & Hk & Hln & Hli & _).
      apply (Hnone l Hl Hk). split; congruence.
    + intros pre d post pre' nm1 w1 e d' w2 Hsplit Hpre Hm Hp Hq He.
      rewrite (Hrun _ (eq_trans (f_equal (fun ds => setup_devices G mns ds _ w0) Hsplit)
                                (setup_devices_abort G mns pre d post _ nm1 w0 w1 w2 pre' e d'
                                                     Hpre Hm Hp Hq He))).
      done.
Qed.

(** C6 on a host manager that tracks [eth0] while the kernel shows the
    loopback and a running [eth1]: after the pass [eth1] is tracked and
    [eth0] is not. *)
Lemma RefreshDevices_tracks_kept_links_witness :
  (exists d,
      d ∈ Devices (@RefreshDevices plain_util Script script_kernel no_config
                                   tracking_eth0 eth1_world).1.2 /\
      dev_Name d = "eth1" /\ dev_Index d = 3) /\
  (forall d',
      d' ∈ Devices (@RefreshDevices plain_util Script script_kernel no_config
                                    tracking_eth0 eth1_world).1.2 ->
      ~ (dev_Name d' = "eth0" /\ dev_Index d' = 2)).
Proof.
  destruct (@RefreshDevices_tracks_kept_links plain_util Script script_kernel no_config
              tracking_eth0 eth1_world 0 [loopback; running_eth1] eq_refl) as [_ Hpass].
  destruct (Hpass (Z.le_refl 0)) as (Hiff & _ & Hgone & _).
  split.
  - apply Hiff. exists running_eth1. split; [|split; [reflexivity | split; reflexivity]].
    apply list_elem_of_further, list_elem_of_here.
  - apply (Hgone eth0).
    + apply list_elem_of_here.
    + intros l Hl Hk [Hn _].
      apply elem_of_cons in Hl as [-> | Hl]; [discriminate Hk|].
      apply elem_of_cons in Hl as [-> | Hl]; [discriminate Hn | inversion Hl].
Defined.

(** C6 as worded fails on a host link that is administratively up but has
    no carrier: it is neither the loopback, nor administratively down, nor
    a veth of our own, and yet the pass, which succeeds, does not track
    it. *)
Lemma RefreshDevices_drops_link_without_carrier :
  kept_when_up false unplugged = true /\
  unplugged ∈ (k_link_alloc_cache (KernelApi := script_kernel) (kern unplugged_world)).2 /\
  (@RefreshDevices plain_util Script script_kernel no_config
                   (mkNetwork [] false false None None []) unplugged_world).1.1 = Success /\
  Devices (@RefreshDevices plain_util Script script_kernel no_config
                           (mkNetwork [] false false None None []) unplugged_world).1.2 = [] /\
  ~ (forall l,
        l ∈ (k_link_alloc_cache (KernelApi := script_kernel) (kern unplugged_world)).2 ->
        kept_when_up false l = true ->
        exists d,
          d ∈ Devices (@RefreshDevices plain_util Script script_kernel no_config
                         (mkNetwork [] false false None None []) unplugged_world).1.2 /\
          dev_Name d = link_name l /\ dev_Index d = link_ifindex l).
Proof.
  split_and!.
  - reflexivity.
  - apply list_elem_of_here.
  - reflexivity.
  - reflexivity.
  - intros Hclaim.
    destruct (Hclaim unplugged (list_elem_of_here _ _) eq_refl) as (d & Hd & _).
    inversion Hd.
Qed.


(** * Further properties *)

(** ** Outcomes of [SetupQueue] and of the setup loop *)

Section SetupFacts.

Context `{Util} {K : Type} `{KernelApi K}.

Variable G : NetConfig.

Lemma SetupQueue_outcome (mns : bool) (d : TNetworkDevice) (w : World K) :
  ((SetupQueue G mns d w).1.1 = Success /\
   (SetupQueue G mns d w).1.2 = set_Prepared true d) \/
  (failed (SetupQueue G mns d w).1.1 = true /\ (SetupQueue G mns d w).1.2 = d).
Proof.
  unfold SetupQueue, bind, query, emit, pure.
  repeat (case_match; simpl in *; simplify_eq; auto).
Qed.

Lemma setup_devices_success (mns : bool) devs (nm : bool) (w : World K) :
  (setup_devices G mns devs nm w).1.1.1 = Success ->
  Forall (fun d => dev_Managed d = true -> dev_Prepared d = true)
         (setup_devices G mns devs nm w).1.1.2.
Proof.
  revert nm w. induction devs as [|d devs IH]; intros nm w; simpl; [constructor|].
  destruct (negb (dev_Managed d) || dev_Prepared d) eqn:Eskip.
  - unfold bind, pure. specialize (IH nm w).
    destruct (setup_devices G mns devs nm w) as [[[e rest'] nm'] w1]. simpl in *.
    intros He. constructor; [|by apply IH].
    intros Hm. rewrite Hm in Eskip. by simpl in Eskip.
  - unfold bind, pure. pose proof (SetupQueue_outcome mns d w) as Hout.
    destruct (SetupQueue G mns d w) as [[e d'] w1]. simpl in Hout.
    destruct Hout as [[-> ->] | [He ->]].
    + simpl. specialize (IH true w1).
      destruct (setup_devices G mns devs true w1) as [[[e2 rest'] nm'] w2]. simpl in *.
      intros He2. constructor; [done | by apply IH].
    + rewrite He. simpl. intros ->. done.
Qed.

(** The flag [NewManagedDevices] is raised by the loop and never lowered. *)
Lemma setup_devices_flag (mns : bool) devs (w : World K) :
  (setup_devices G mns devs true w).1.2 = true.
Proof.
  revert w. induction devs as [|d devs IH]; intros w; simpl; [done|].
  destruct (negb (dev_Managed d) || dev_Prepared d).
  - unfold bind, pure. specialize (IH w).
    by destruct (setup_devices G mns devs true w) as [[[e rest'] nm'] w1].
  - unfold bind, pure. destruct (SetupQueue G mns d w) as [[e d'] w1].
    destruct (failed e); [done|]. specialize (IH w1).
    by destruct (setup_devices G mns devs true w1) as [[[e2 rest'] nm'] w2].
Qed.

Lemma RefreshDevices_unfold (net : TNetwork) (w : World K) (rc : Z)
    (cache : list rtnl_link) :
  k_link_alloc_cache (kern w) = (rc, cache) ->
  0 <= rc ->
  RefreshDevices G net w
  = (((setup_devices G (ManagedNamespace net)
         (erase_missing (fold_left (refresh_link G (ManagedNamespace net)) cache
                                   (map (set_Missing true) (Devices net))))
         (NewManagedDevices net)
         (mkWorld (kern w) (calls w ++ [EvLinkCache rc]))).1.1.1,
      set_NewManagedDevices
        (setup_devices G (ManagedNamespace net)
           (erase_missing (fold_left (refresh_link G (ManagedNamespace net)) cache
                                     (map (set_Missing true) (Devices net))))
           (NewManagedDevices net)
           (mkWorld (kern w) (calls w ++ [EvLinkCache rc]))).1.2
        (set_Devices
           (setup_devices G (ManagedNamespace net)
              (erase_missing (fold_left (refresh_link G (ManagedNamespace net)) cache
                                        (map (set_Missing true) (Devices net))))
              (NewManagedDevices net)
              (mkWorld (kern w) (calls w ++ [EvLinkCache rc]))).1.1.2 net)),
     (setup_devices G (ManagedNamespace net)
        (erase_missing (fold_left (refresh_link G (ManagedNamespace net)) cache
                                  (map (set_Missing true) (Devices net))))
        (NewManagedDevices net)
        (mkWorld (kern w) (calls w ++ [EvLinkCache rc]))).2).
Proof.
  intros Hcache Hrc. unfold RefreshDevices, bind, pure. rewrite Hcache. simpl.
  destruct (rc <? 0) eqn:E; [lia|].
  by destruct (setup_devices _ _ _ _ _) as [[[e ds] nm] w2].
Qed.

(** *** Devices of one name and index *)

Lemma update_tracked_first (dev : TNetworkDevice) (q : string) devs devs' :
  update_tracked dev q devs = Some devs' ->
  exists pre d post dev',
    devs = pre ++ d :: post /\
    Forall (fun x => dev_key x <> dev_key dev) pre /\
    dev_key d = dev_key dev /\
    devs' = pre ++ dev' :: post /\
    (dev' = dev \/ dev' = set_Prepared true dev).
Proof.
  revert devs'. induction devs as [|d devs IH]; intros devs'; simpl; [done|].
  destruct (negb (String.eqb (dev_Name d) (dev_Name dev))
            || negb (dev_Index d =? dev_Index dev)) eqn:E.
  - destruct (update_tracked dev q devs) as [r|]; [|done]. simpl. intros [= <-].
    destruct (IH r eq_refl) as (pre & d0 & post & dev' & -> & Hpre & Hk & -> & Hdev).
    exists (d :: pre), d0, post, dev'. split_and!; [done | | done | done | done].
    constructor; [|done]. unfold dev_key. intros [= Hn Hi].
    apply orb_true_iff in E as [E | E]; apply negb_true_iff in E.
    + apply String.eqb_neq in E. done.
    + apply Z.eqb_neq in E. done.
  - intros [= <-]. apply orb_false_iff in E as [E1 E2].
    apply negb_false_iff in E1, E2.
    apply String.eqb_eq in E1. apply Z.eqb_eq in E2.
    exists [], d, devs, (if dev_Managed dev && negb (String.eqb q "htb")
                         then dev else set_Prepared true dev).
    split_and!; [done | constructor | by unfold dev_key; rewrite E1, E2 | done |].
    destruct (_ && _); auto.
Qed.

Lemma update_tracked_none_keys (dev : TNetworkDevice) (q : string) devs :
  update_tracked dev q devs = None ->
  Forall (fun x => dev_key x <> dev_key dev) devs.
Proof.
  intros Hu. apply update_tracked_None in Hu.
  eapply Forall_impl; [exact Hu|]. intros x Hx. unfold dev_key. intros [= Hn Hi]. auto.
Qed.

Lemma first_live_push devs (dev : TNetworkDevice) :
  first_live devs ->
  Forall (fun x => dev_key x <> dev_key dev) devs ->
  first_live (devs ++ [dev]).
Proof.
  induction devs as [|d devs IH]; simpl; intros Hfl Hall.
  - split; [|done]. intros x Hx. inversion Hx.
  - destruct Hfl as [Hd Hfl]. inversion Hall as [|? ? Hne Hrest]; subst.
    split; [|by apply IH].
    intros x Hx Hk. apply elem_of_app in Hx as [Hx | Hx]; [by apply Hd|].
    apply list_elem_of_singleton in Hx as ->. congruence.
Qed.

Lemma first_live_update pre d post (dev' : TNetworkDevice) :
  first_live (pre ++ d :: post) ->
  Forall (fun x => dev_key x <> dev_key dev') pre ->
  dev_key d = dev_key dev' ->
  first_live (pre ++ dev' :: post).
Proof.
  induction pre as [|a pre IH]; simpl; intros Hfl Hall Hk.
  - destruct Hfl as [Hd Hfl]. split; [|done].
    intros x Hx Hkx. apply Hd; [done | congruence].
  - destruct Hfl as [Ha Hfl]. inversion Hall as [|? ? Hne Hrest]; subst.
    split; [|by apply IH].
    intros x Hx Hkx. apply elem_of_app in Hx as [Hx | Hx].
    + apply Ha; [mem | done].
    + apply elem_of_cons in Hx as [-> | Hx]; [congruence|].
      apply Ha; [mem | done].
Qed.

Lemma first_live_step (mns : bool) devs (l : rtnl_link) :
  first_live devs -> first_live (refresh_link G mns devs l).
Proof.
  intros Hfl. rewrite refresh_link_cases. destruct (kept mns l); [|done].
  destruct (update_tracked (tracked_device G mns l) (link_qdisc l) devs) as [devs'|] eqn:Eu.
  - apply update_tracked_first in Eu
      as (pre & d & post & dev' & -> & Hpre & Hk & -> & Hdev).
    assert (Hk' : dev_key dev' = dev_key (tracked_device G mns l)).
    { destruct Hdev as [-> | ->]; [done|]. by destruct (tracked_device G mns l). }
    apply (first_live_update pre d post dev' Hfl); [|congruence].
    eapply Forall_impl; [exact Hpre|]. intros x Hx. congruence.
  - apply first_live_push; [done|]. by eapply update_tracked_none_keys.
Qed.

Lemma first_live_fold (mns : bool) (links : list rtnl_link) devs :
  first_live devs -> first_live (fold_left (refresh_link G mns) links devs).
Proof.
  revert devs. induction links as [|l links IH]; intros devs Hfl; simpl; [done|].
  apply IH. by apply first_live_step.
Qed.

Lemma first_live_start devs : first_live (map (set_Missing true) devs).
Proof.
  induction devs as [|d devs IH]; simpl; [done|]. split; [|done].
  intros x Hx _. apply list_elem_of_fmap in Hx as (x0 & -> & _). done.
Qed.

Lemma erase_missing_NoDup devs :
  first_live devs -> NoDup (map dev_key (erase_missing devs)).
Proof.
  induction devs as [|d devs IH]; simpl; intros Hfl; [constructor|].
  destruct Hfl as [Hd Hfl]. destruct (dev_Missing d) eqn:Em; [by apply IH|].
  simpl. constructor; [|by apply IH].
  intros Hin. apply list_elem_of_fmap in Hin as (x & Hk & Hx).
  apply erase_missing_spec in Hx as [Hx Hm].
  rewrite (Hd x Hx (eq_sym Hk)) in Hm. discriminate.
Qed.

Lemma prepared_from_keys devs devs' :
  Forall2 prepared_from devs devs' ->
  map dev_key devs' = map dev_key devs /\
  map dev_Missing devs' = map dev_Missing devs /\
  map dev_Managed devs' = map dev_Managed devs.
Proof.
  induction 1 as [|d d' devs devs' Hp _ IH]; simpl; [done|].
  destruct IH as (-> & -> & ->).
  destruct Hp as [-> | ->]; [done|]. by destruct d.
Qed.

(** *** Devices that are not missing *)

(** A property of the device built for a kept link holds of every device
    that is no longer marked missing. *)
Lemma walk_live (mns : bool) (P : TNetworkDevice -> Prop) (links : list rtnl_link) devs :
  (forall l, P (tracked_device G mns l) /\ P (set_Prepared true (tracked_device G mns l))) ->
  (forall d, d ∈ devs -> dev_Missing d = false -> P d) ->
  forall d, d ∈ fold_left (refresh_link G mns) links devs -> dev_Missing d = false -> P d.
Proof.
  intros HP. revert devs. induction links as [|l links IH]; intros devs Hdevs; simpl; [done|].
  apply IH. intros d Hd Hm. rewrite refresh_link_cases in Hd.
  destruct (kept mns l); [|by apply Hdevs].
  destruct (update_tracked (tracked_device G mns l) (link_qdisc l) devs) as [devs'|] eqn:Eu.
  - apply update_tracked_Some in Eu as (pre & d0 & post & dev' & -> & _ & _ & -> & Hdev).
    apply elem_of_app in Hd as [Hd | Hd]; [apply Hdevs; [mem | done]|].
    apply elem_of_cons in Hd as [-> | Hd]; [|apply Hdevs; [mem | done]].
    destruct Hdev as [-> | ->]; apply HP.
  - apply elem_of_app in Hd as [Hd | Hd]; [by apply Hdevs|].
    apply list_elem_of_singleton in Hd as ->. apply HP.
Qed.

Lemma prepared_from_elem devs devs' (d : TNetworkDevice) :
  Forall2 prepared_from devs devs' -> d ∈ devs' ->
  exists x, x ∈ devs /\ dev_Missing d = dev_Missing x /\ dev_Managed d = dev_Managed x.
Proof.
  intros Hrel Hd. apply list_elem_of_lookup in Hd as [i Hi].
  destruct (Forall2_lookup_r _ _ _ _ _ Hrel Hi) as (x & Hx & Hp).
  exists x. split; [by eapply list_elem_of_lookup_2|].
  destruct Hp as [-> | ->]; [done|]. by destruct x.
Qed.

End SetupFacts.

(** ** What a reconciliation pass guarantees *)

(** X1.  After a pass whose link enumeration succeeded, no two tracked
    devices have the same name and index, whatever the device list and the
    link cache were. *)
Theorem RefreshDevices_keys_unique `{Util} {K : Type} `{KernelApi K}
    (G : NetConfig) (net : TNetwork) (w : World K) (rc : Z) (cache : list rtnl_link) :
  k_link_alloc_cache (kern w) = (rc, cache) ->
  0 <= rc ->
  NoDup (map dev_key (Devices (RefreshDevices G net w).1.2)).
Proof.
  intros Hcache Hrc. rewrite (RefreshDevices_unfold G net w rc cache Hcache Hrc). simpl.
  destruct (prepared_from_keys _ _ (setup_devices_devices G (ManagedNamespace net)
              (erase_missing (fold_left (refresh_link G (ManagedNamespace net)) cache
                                        (map (set_Missing true) (Devices net))))
              (NewManagedDevices net)
              (mkWorld (kern w) (calls w ++ [EvLinkCache rc])))) as (-> & _ & _).
  apply erase_missing_NoDup, first_live_fold, first_live_start.
Qed.

Lemma RefreshDevices_keys_unique_witness :
  NoDup (map dev_key
           (Devices (@RefreshDevices plain_util Script script_kernel no_config
                                     tracking_eth0 eth1_world).1.2)).
Proof.
  exact (@RefreshDevices_keys_unique plain_util Script script_kernel no_config
           tracking_eth0 eth1_world 0 [loopback; running_eth1] eq_refl (Z.le_refl 0)).
Defined.

(** X2.  When a pass returns success, no tracked device is marked missing
    and every managed tracked device is prepared. *)
Theorem RefreshDevices_success_all_prepared `{Util} {K : Type} `{KernelApi K}
    (G : NetConfig) (net : TNetwork) (w : World K) :
  (RefreshDevices G net w).1.1 = Success ->
  forall d, d ∈ Devices (RefreshDevices G net w).1.2 ->
    dev_Missing d = false /\ (dev_Managed d = true -> dev_Prepared d = true).
Proof.
  destruct (k_link_alloc_cache (kern w)) as [rc cache] eqn:Hcache.
  destruct (decide (0 <= rc)) as [Hrc | Hrc].
  - rewrite (RefreshDevices_unfold G net w rc cache Hcache Hrc). simpl.
    set (devs := erase_missing _). set (w0 := mkWorld _ _).
    intros Hok d Hd. split.
    + destruct (prepared_from_elem _ _ d
                  (setup_devices_devices G (ManagedNamespace net) devs
                                         (NewManagedDevices net) w0) Hd)
        as (x & Hx & -> & _).
      by apply erase_missing_spec in Hx as [_ Hx].
    + pose proof (setup_devices_success G _ devs _ w0 Hok) as Hall.
      rewrite Forall_forall in Hall. by apply Hall.
  - unfold RefreshDevices, bind, pure. rewrite Hcache. simpl.
    destruct (rc <? 0) eqn:E; [|lia]. simpl. discriminate.
Qed.

Lemma RefreshDevices_success_all_prepared_witness :
  Forall (fun d => dev_Missing d = false /\ (dev_Managed d = true -> dev_Prepared d = true))
         (Devices (@RefreshDevices plain_util Script script_kernel no_config
                                   tracking_eth0 eth1_world).1.2).
Proof.
  apply Forall_forall.
  exact (@RefreshDevices_success_all_prepared plain_util Script script_kernel no_config
           tracking_eth0 eth1_world eq_refl).
Defined.

(** X3.  In a runtime-managed namespace every device tracked after a pass
    is managed, whatever the unmanaged patterns and groups of the
    configuration say. *)
Theorem RefreshDevices_managed_namespace `{Util} {K : Type} `{KernelApi K}
    (G : NetConfig) (net : TNetwork) (w : World K) (rc : Z) (cache : list rtnl_link) :
  k_link_alloc_cache (kern w) = (rc, cache) ->
  0 <= rc ->
  ManagedNamespace net = true ->
  forall d, d ∈ Devices (RefreshDevices G net w).1.2 -> dev_Managed d = true.
Proof.
  intros Hcache Hrc Hmns d. rewrite (RefreshDevices_unfold G net w rc cache Hcache Hrc).
  simpl. set (devs := erase_missing _). set (w0 := mkWorld _ _). intros Hd.
  destruct (prepared_from_elem _ _ d
              (setup_devices_devices G (ManagedNamespace net) devs
                                     (NewManagedDevices net) w0) Hd)
    as (x & Hx & _ & ->).
  apply erase_missing_spec in Hx as [Hx Hm].
  apply (walk_live G (ManagedNamespace net) (fun d => dev_Managed d = true) cache
                   (map (set_Missing true) (Devices net))); [| | done | done].
  - intros l. rewrite Hmns. unfold tracked_device. done.
  - intros x0 Hx0 Hm0. apply list_elem_of_fmap in Hx0 as (x1 & -> & _). done.
Qed.

Lemma RefreshDevices_managed_namespace_witness :
  Forall (fun d => dev_Managed d = true)
         (Devices (@RefreshDevices plain_util Script script_kernel eth_unmanaged
                                   container_net eth1_world).1.2).
Proof.
  apply Forall_forall.
  exact (@RefreshDevices_managed_namespace plain_util Script script_kernel eth_unmanaged
           container_net eth1_world 0 [loopback; running_eth1] eq_refl (Z.le_refl 0) eq_refl).
Defined.

(** ** The class tree [SetupQueue] builds *)



Section TreeFacts.

Context `{Util} {K : Type} `{KernelApi K}.

Variable G : NetConfig.



(** The loop raises [NewManagedDevices] only past a device it has just
    prepared. *)
Lemma setup_devices_raised (mns : bool) devs (w : World K) :
  (setup_devices G mns devs false w).1.2 = true ->
  exists d, d ∈ (setup_devices G mns devs false w).1.1.2 /\
            dev_Managed d = true /\ dev_Prepared d = true.
Proof.
  revert w. induction devs as [|d devs IH]; intros w; simpl; [done|].
  destruct (negb (dev_Managed d) || dev_Prepared d) eqn:Eskip.
  - unfold bind, pure. specialize (IH w).
    destruct (setup_devices G mns devs false w) as [[[e rest'] nm'] w1]. simpl in *.
    intros Hnm. destruct (IH Hnm) as (x & Hx & Hm & Hp). exists x. split; [mem | done].
  - unfold bind, pure. pose proof (SetupQueue_outcome G mns d w) as Hout.
    destruct (SetupQueue G mns d w) as [[e d'] w1]. simpl in Hout.
    destruct Hout as [[-> ->] | [He ->]].
    + simpl. destruct (setup_devices G mns devs true w1) as [[[e2 rest'] nm'] w2]. simpl.
      intros _. exists (set_Prepared true d). split; [mem|].
      apply orb_false_iff in Eskip as [Hm _]. apply negb_false_iff in Hm. by destruct d.
    + rewrite He. simpl. discriminate.
Qed.

End TreeFacts.



(** X5.  A reconciliation pass never lowers [NewManagedDevices], and when
    it raises the flag, a managed and prepared device is tracked
    afterwards. *)
Theorem RefreshDevices_raises_flag `{Util} {K : Type} `{KernelApi K}
    (G : NetConfig) (net : TNetwork) (w : World K) :
  (NewManagedDevices net = true ->
   NewManagedDevices (RefreshDevices G net w).1.2 = true) /\
  (NewManagedDevices net = false ->
   NewManagedDevices (RefreshDevices G net w).1.2 = true ->
   exists d, d ∈ Devices (RefreshDevices G net w).1.2 /\
             dev_Managed d = true /\ dev_Prepared d = true).
Proof.
  destruct (k_link_alloc_cache (kern w)) as [rc cache] eqn:Hcache.
  destruct (decide (0 <= rc)) as [Hrc | Hrc].
  - rewrite (RefreshDevices_unfold G net w rc cache Hcache Hrc). simpl. split.
    + intros ->. apply setup_devices_flag.
    + intros ->. apply setup_devices_raised.
  - unfold RefreshDevices, bind, pure. rewrite Hcache. simpl.
    destruct (rc <? 0) eqn:E; [|lia]. simpl. split; [done|]. intros ->. discriminate.
Qed.

(** ** Deleting without and with a cascade *)

Section CascadeFacts.

Variable cache : list (Z * Z).
Variable root : Z.
Variable rank : Z -> nat.
Hypothesis ranked : forall h p, (h, p) ∈ cache -> (rank h < rank p)%nat.
Hypothesis single_parent : NoDup cache.*1.

Lemma descendant_rank (h : Z) : descendant cache root h -> (rank h < rank root)%nat.
Proof using ranked.
  induction 1 as [c Hc | p c _ IH Hc].
  - by apply ranked.
  - pose proof (ranked _ _ Hc). lia.
Qed.

Lemma children_NoDup (h : Z) : NoDup (children cache h).
Proof using single_parent.
  clear ranked. induction cache as [|[c p] rest IH]; simpl; [constructor|].
  simpl in single_parent. apply NoDup_cons in single_parent as [Hc Hrest].
  destruct (p =? h); [|by apply IH].
  constructor; [|by apply IH].
  intros Hin. apply Hc. clear IH Hc Hrest.
  induction rest as [|[c' p'] rest IH]; simpl in *; [inversion Hin|].
  destruct (p' =? h); [|right; by apply IH].
  apply elem_of_cons in Hin as [-> | Hin]; [left | right; by apply IH].
Qed.

Lemma parent_unique (c p q : Z) : (c, p) ∈ cache -> (c, q) ∈ cache -> p = q.
Proof using single_parent.
  clear ranked. induction cache as [|[c' p'] rest IH]; [intros Hin; inversion Hin|].
  simpl in single_parent. apply NoDup_cons in single_parent as [Hc Hrest].
  intros Hp Hq.
  apply elem_of_cons in Hp as [Hp | Hp]; apply elem_of_cons in Hq as [Hq | Hq].
  - congruence.
  - injection Hp as <- <-. exfalso. apply Hc.
    apply list_elem_of_fmap. by exists (c, q).
  - injection Hq as <- <-. exfalso. apply Hc.
    apply list_elem_of_fmap. by exists (c, p).
  - by apply IH.
Qed.

(** While the collection runs, no handle is collected twice. *)
Lemma collect_handles_NoDup (fuel : nat) handles i out :
  collect_handles fuel cache handles i = Some out ->
  NoDup handles ->
  handles !! 0%nat = Some root ->
  (forall h, h ∈ handles -> h = root \/ descendant cache root h) ->
  (forall j c, (0 < j)%nat -> handles !! j = Some c ->
     exists k p, (k < i)%nat /\ handles !! k = Some p /\ (c, p) ∈ cache) ->
  NoDup out.
Proof using ranked single_parent.
  revert handles i. induction fuel as [|fuel IH]; intros handles i; simpl; [discriminate|].
  destruct (handles !! i) as [h|] eqn:Ei; [|by intros [= <-]].
  intros Hc Hnd H0 Hdesc Hpar.
  assert (Hi : (i < length handles)%nat) by (by eapply lookup_lt_Some).
  assert (Hh : h = root \/ descendant cache root h).
  { apply Hdesc. by eapply list_elem_of_lookup_2. }
  apply (IH _ _ Hc).
  - apply NoDup_app. split_and!; [done | | apply children_NoDup].
    intros c Hin Hchild. apply children_spec in Hchild.
    apply list_elem_of_lookup in Hin as [j Hj].
    destruct j as [|j].
    + assert (c = root) by congruence. subst c.
      pose proof (ranked _ _ Hchild) as Hlt.
      destruct Hh as [-> | Hd]; [lia|].
      pose proof (descendant_rank _ Hd). lia.
    + destruct (Hpar (S j) c ltac:(lia) Hj) as (k & p & Hk & Hkp & Hcp).
      assert (p = h) by (by eapply parent_unique). subst p.
      pose proof (NoDup_lookup _ _ _ _ Hnd Hkp Ei). lia.
  - rewrite lookup_app_l; [done|]. by eapply lookup_lt_Some.
  - intros x Hx. apply elem_of_app in Hx as [Hx | Hx]; [by apply Hdesc|].
    apply children_spec in Hx. right.
    destruct Hh as [-> | Hd]; [by constructor | by eapply descendant_step].
  - intros j c Hj Hjc.
    destruct (decide (j < length handles)%nat) as [Hlt | Hge].
    + rewrite lookup_app_l in Hjc by done.
      destruct (Hpar j c Hj Hjc) as (k & p & Hk & Hkp & Hcp).
      exists k, p. split_and!; [lia | | done].
      rewrite lookup_app_l; [done|]. by eapply lookup_lt_Some.
    + exists i, h. split_and!; [lia | by rewrite lookup_app_l |].
      apply children_spec. rewrite lookup_app_r in Hjc by lia.
      by eapply list_elem_of_lookup_2.
Qed.

End CascadeFacts.

(** X6.  When the first delete of a class is not answered "busy", [DelTC]
    asks the kernel nothing else, whatever the fuel: the one delete is
    the whole trace of the call, and a class the kernel does not know
    counts as deleted. *)
Theorem DelTC_without_cascade {K : Type} `{KernelApi K} (fuel : nat) (dev : TNetworkDevice)
    (handle : Z) (w : World K) (r : Z) (k1 : K) :
  k_class_alloc (kern w) = true ->
  k_class_delete (dev_Index dev) handle (kern w) = (r, k1) ->
  r <> - NLE_BUSY ->
  DelTC fuel dev handle w
  = Some (DelTC_result dev r,
          mkWorld k1 (calls w ++ [EvClassDelete (dev_Index dev) handle r])) /\
  (0 <= r \/ r = - NLE_OBJ_NOTFOUND -> DelTC_result dev r = Success).
Proof.
  intros Halloc Hdel Hr. split.
  - unfold DelTC, emit. rewrite Halloc, Hdel. simpl.
    destruct (r =? - NLE_BUSY) eqn:E; [|done]. apply Z.eqb_eq in E. done.
  - unfold DelTC_result, fatal. intros [Hpos | ->].
    + destruct (r <? 0) eqn:E; [lia | done].
    + by rewrite Z.eqb_refl, andb_false_r.
Qed.

Lemma DelTC_without_cascade_witness :
  @DelTC Script script_kernel 0 eth0 4
         (fresh (mkScript (0, []) (0, chain) [] [- NLE_OBJ_NOTFOUND] []))
  = Some (Success,
          mkWorld (mkScript (0, []) (0, chain) [] [] [])
                  [EvClassDelete 2 4 (- NLE_OBJ_NOTFOUND)]).
Proof.
  exact (proj1 (@DelTC_without_cascade Script script_kernel 0 eth0 4
                  (fresh (mkScript (0, []) (0, chain) [] [- NLE_OBJ_NOTFOUND] []))
                  (- NLE_OBJ_NOTFOUND) (mkScript (0, []) (0, chain) [] [] [])
                  eq_refl eq_refl ltac:(discriminate))).
Defined.

(** X7.  In a cascade over an acyclic class cache that lists every class
    once, no class is asked to be deleted twice after the cache was
    read. *)
Theorem DelTC_cascade_deletes_once {K : Type} `{KernelApi K} (fuel : nat) (dev : TNetworkDevice)
    (handle : Z) (w : World K) (k1 : K) (rc : Z) (cache : list (Z * Z))
    (e : TError) (w' : World K) :
  k_class_alloc (kern w) = true ->
  k_class_delete (dev_Index dev) handle (kern w) = (- NLE_BUSY, k1) ->
  k_class_alloc_cache (dev_Index dev) k1 = (rc, cache) ->
  0 <= rc ->
  acyclic cache ->
  NoDup cache.*1 ->
  DelTC fuel dev handle w = Some (e, w') ->
  exists done rets : list Z,
    calls w' = calls w
               ++ [EvClassDelete (dev_Index dev) handle (- NLE_BUSY);
                   EvClassCache (dev_Index dev) rc]
               ++ zip_with (EvClassDelete (dev_Index dev)) done rets /\
    length rets = length done /\
    NoDup done.
Proof.
  intros Halloc Hdel Hcache Hrc [rank Hrank] Huniq.
  unfold DelTC, emit. rewrite Halloc, Hdel. simpl. rewrite Hcache.
  destruct (rc <? 0) eqn:E; [lia|].
  destruct (collect_handles fuel cache [handle] 0) as [handles|] eqn:Hc; [|discriminate].
  assert (Hnd : NoDup handles).
  { apply (collect_handles_NoDup cache handle rank Hrank Huniq fuel [handle] 0 handles Hc).
    - apply NoDup_singleton.
    - done.
    - intros h Hh. apply list_elem_of_singleton in Hh. by left.
    - intros j c Hj Hjc. destruct j; [lia | done]. }
  set (w2 := mkWorld k1 _).
  destruct (delete_handles_spec (dev_Index dev) (rev handles) rc w2)
    as (deleted & rest & rets & Hsplit & Hlen & _ & Hcalls & _).
  destruct (delete_handles (dev_Index dev) (rev handles) rc w2) as [r w3]. simpl in *.
  intros [= <- <-]. exists deleted, rets. split; [|split; [exact Hlen|]].
  - rewrite Hcalls. unfold w2. simpl. by rewrite <- !app_assoc.
  - rewrite (Permutation_rev handles), Hsplit in Hnd. by apply NoDup_app in Hnd as [? _].
Qed.

Lemma fork_acyclic : acyclic fork.
Proof.
  exists (fun h => Z.to_nat (10 - h)). intros h p Hin. unfold fork in Hin.
  apply elem_of_cons in Hin as [Heq | Hin].
  - injection Heq as -> ->. simpl. lia.
  - apply elem_of_cons in Hin as [Heq | Hin].
    + injection Heq as -> ->. simpl. lia.
    + inversion Hin.
Defined.

Lemma fork_single_parent : NoDup fork.*1.
Proof.
  unfold fork. simpl. apply NoDup_cons. split; [|apply NoDup_singleton].
  intros Hin. apply list_elem_of_singleton in Hin. discriminate.
Defined.

(** X7 on the classes 5 and 6 under class 4 of device [eth0]. *)
Lemma DelTC_cascade_deletes_once_witness :
  exists done rets : list Z,
    [EvClassDelete 2 4 (- NLE_BUSY); EvClassCache 2 0;
     EvClassDelete 2 6 0; EvClassDelete 2 5 0; EvClassDelete 2 4 0]
    = [] ++ [EvClassDelete 2 4 (- NLE_BUSY); EvClassCache 2 0]
         ++ zip_with (EvClassDelete 2) done rets /\
    length rets = length done /\
    NoDup done.
Proof.
  exact (@DelTC_cascade_deletes_once Script script_kernel 4 eth0 4
           (fresh (mkScript (0, []) (0, fork) [] [- NLE_BUSY] []))
           (mkScript (0, []) (0, fork) [] [] []) 0 fork Success
           (mkWorld (mkScript (0, []) (0, fork) [] [] [])
                    [EvClassDelete 2 4 (- NLE_BUSY); EvClassCache 2 0;
                     EvClassDelete 2 6 0; EvClassDelete 2 5 0; EvClassDelete 2 4 0])
           eq_refl eq_refl eq_refl (Z.le_refl 0) fork_acyclic fork_single_parent eq_refl).
Defined.

(** ** Giving a NAT address back *)

Lemma PutNatAddress_skip (net : TNetwork) (x : nl_addr) (l : list nl_addr) :
  nat_base net x = None -> PutNatAddress net (x :: l) = PutNatAddress net l.
Proof.
  unfold nat_base. simpl.
  destruct (addr_family x =? AF_INET) eqn:E4.
  - intros ->. apply Z.eqb_eq in E4.
    destruct (addr_family x =? AF_INET6) eqn:E6; [|done].
    apply Z.eqb_eq in E6. rewrite E4 in E6. discriminate.
  - destruct (addr_family x =? AF_INET6); [by intros ->|done].
Qed.

Lemma PutNatAddress_hit (net : TNetwork) (a base : nl_addr) (l : list nl_addr) :
  nat_base net a = Some base -> PutNatAddress net (a :: l) = put_offset net a base.
Proof.
  unfold nat_base. simpl.
  destruct (addr_family a =? AF_INET); [by intros ->|].
  destruct (addr_family a =? AF_INET6); [by intros ->|done].
Qed.

(** X8.  [PutNatAddress] gives back at most one offset: the first address
    whose family has a configured base decides the call, the addresses
    after it never reach the bitmap; and when no address has such a
    family the call succeeds and leaves the manager as it is. *)
Theorem PutNatAddress_first_configured_family (net : TNetwork)
    (pre : list nl_addr) :
  Forall (fun x => nat_base net x = None) pre ->
  PutNatAddress net pre = (Success, net) /\
  forall (a base : nl_addr) (rest : list nl_addr),
    nat_base net a = Some base ->
    PutNatAddress net (pre ++ a :: rest) = put_offset net a base.
Proof.
  induction 1 as [|x pre Hx _ IH].
  - split; [done|]. intros a base rest Ha. by apply PutNatAddress_hit.
  - rewrite (PutNatAddress_skip net x pre Hx). split; [apply IH|].
    intros a base rest Ha. rewrite <- app_comm_cons.
    rewrite (PutNatAddress_skip net x _ Hx). by apply IH.
Qed.

Lemma PutNatAddress_first_configured_family_witness :
  PutNatAddress nat_net [mkAddr 17 5] = (Success, nat_net) /\
  PutNatAddress nat_net ([mkAddr 17 5] ++ [mkAddr AF_INET 171966464; mkAddr AF_INET 171966466])
  = put_offset nat_net (mkAddr AF_INET 171966464) (mkAddr AF_INET 171966464).
Proof.
  destruct (PutNatAddress_first_configured_family nat_net [mkAddr 17 5]
              ltac:(by repeat constructor)) as [Hnone Hfirst].
  split; [exact Hnone|].
  exact (Hfirst (mkAddr AF_INET 171966464) (mkAddr AF_INET 171966464)
                [mkAddr AF_INET 171966466] eq_refl).
Defined.

(** ** What [ParseNet] keeps true of the object it fills *)

Lemma set_mtu_map {A B : Type} (name_of : A -> string) (assign : Z -> A -> A)
    (f : A -> B) (name : string) (mtu : Z) (links links' : list A) :
  (forall m x, f (assign m x) = f x) ->
  set_mtu name_of assign name mtu links = Some links' ->
  map f links' = map f links.
Proof.
  intros Hf. revert links'. induction links as [|l links IH]; intros links'; simpl; [done|].
  destruct (String.eqb (name_of l) name).
  - intros [= <-]. simpl. by rewrite Hf.
  - destruct (set_mtu name_of assign name mtu links) as [r|]; [|done].
    intros [= <-]. simpl. by rewrite (IH r).
Qed.

Lemma set_mtu_length {A : Type} (name_of : A -> string) (assign : Z -> A -> A)
    (name : string) (mtu : Z) (links links' : list A) :
  set_mtu name_of assign name mtu links = Some links' ->
  length links' = length links.
Proof.
  intros Hs. rewrite <- (length_map (fun _ => tt) links'), <- (length_map (fun _ => tt) links).
  f_equal. by eapply set_mtu_map.
Qed.

Lemma peer_name_inj (id : Z) : Inj (=) (=) (fun k : nat => peer_name id (Z.of_nat k)).
Proof.
  intros j k Heq. unfold peer_name in Heq.
  do 3 apply String.app_inj in Heq. apply pretty_Z_inj in Heq. lia.
Qed.

(** Opening the body of the loop in a hypothesis, branch by branch. *)
Ltac parse_cases Hline :=
  unfold ParseNet_line, parse_macvlan, parse_ipvlan, parse_veth, parse_mtu in Hline;
  repeat case_match; simplify_eq; simpl in *.

Section InvariantFacts.

Context `{Util}.

(** A property of the state that every line keeps, whether the loop goes
    on or returns, holds of the object [ParseNet] leaves. *)
Lemma ParseNet_lines_invariant (P : ParseState -> Prop) :
  (forall st line st', P st -> ParseNet_line st line = Continue st' -> P st') ->
  (forall st line e st', P st -> ParseNet_line st line = Return e st' -> P st') ->
  forall lines st, P st -> P (ParseNet_lines lines st).2.
Proof.
  intros Hgo Hret. induction lines as [|line lines IH]; intros st Hst; simpl; [done|].
  destruct (ParseNet_line st line) as [st'|e st'] eqn:Hline.
  - apply IH. by eapply Hgo.
  - simpl. by eapply Hret.
Qed.

Lemma ParseNet_invariant (P : ParseState -> Prop) (c : TNetCfg) (lines : list string) :
  (forall st line st', P st -> ParseNet_line st line = Continue st' -> P st') ->
  (forall st line e st', P st -> ParseNet_line st line = Return e st' -> P st') ->
  P (mkParse (Reset c) false 0) ->
  exists st, (ParseNet c lines).2 = ps_cfg st /\ P st.
Proof.
  intros Hgo Hret H0. unfold ParseNet.
  destruct (Z.of_nat (length lines) =? 0); [by exists (mkParse (Reset c) false 0)|].
  pose proof (ParseNet_lines_invariant P Hgo Hret lines _ H0) as Hend.
  destruct (ParseNet_lines lines (mkParse (Reset c) false 0)) as [e st]. by exists st.
Qed.

(** Only the MTU branch returns success from inside the loop. *)
Lemma ParseNet_line_return_success (st st' : ParseState) (line : string) :
  ParseNet_line st line = Return Success st' -> line_type line = "MTU".
Proof.
  intros Hline. unfold line_type.
  parse_cases Hline;
    repeat match goal with
           | Hx : String.eqb _ _ = true |- _ => apply String.eqb_eq in Hx
           | Hx : _ && _ = true |- _ => apply andb_true_iff in Hx as [? ?]
           end; try done; try congruence.
Qed.

Lemma ParseNet_lines_checked (lines : list string) (st st' : ParseState) :
  Forall (fun line => line_type line <> "MTU") lines ->
  ParseNet_lines lines st = (Success, st') ->
  check_mixed st' = Success.
Proof.
  intros Hall. revert st. induction Hall as [|line lines Hline _ IH]; intros st; simpl.
  - by intros [= Hc <-].
  - destruct (ParseNet_line st line) as [st1|e st1] eqn:E; [apply IH|].
    intros [= -> <-]. by apply ParseNet_line_return_success in E.
Qed.

End InvariantFacts.

(** X9.  Whatever the lines and the outcome, the veth descriptors
    [ParseNet] leaves carry the peer names [portove-<Id>-0],
    [portove-<Id>-1], ... in the order of their lines, so that no two
    descriptors of one specification share a peer name. *)
Theorem ParseNet_veth_peers_numbered `{Util} (c : TNetCfg) (lines : list string) :
  map veth_Peer (Veth (ParseNet c lines).2)
  = map (fun k => peer_name (Id c) (Z.of_nat k))
        (seq 0 (length (Veth (ParseNet c lines).2))) /\
  NoDup (map veth_Peer (Veth (ParseNet c lines).2)).
Proof.
  set (P := fun st : ParseState =>
              ps_idx st = Z.of_nat (length (Veth (ps_cfg st))) /\
              Id (ps_cfg st) = Id c /\
              map veth_Peer (Veth (ps_cfg st))
              = map (fun k => peer_name (Id c) (Z.of_nat k))
                    (seq 0 (length (Veth (ps_cfg st))))).
  assert (Hveth : forall st v,
            P st -> veth_Peer v = peer_name (Id (ps_cfg st)) (ps_idx st) ->
            P (mkParse (set_Veth (Veth (ps_cfg st) ++ [v]) (ps_cfg st))
                       (ps_none st) (ps_idx st + 1))).
  { intros st v (Hidx & Hid & Hmap) Hv. unfold P. simpl.
    rewrite length_app, map_app, seq_app, map_app. simpl.
    split_and!; [lia | done |]. by rewrite Hmap, Hv, Hid, Hidx. }
  assert (Hmtu : forall st name mtu l,
            P st -> set_mtu veth_Name veth_set_Mtu name mtu (Veth (ps_cfg st)) = Some l ->
            P (with_cfg (set_Veth l) st)).
  { intros st name mtu l (Hidx & Hid & Hmap) Hl. unfold P. simpl.
    rewrite (set_mtu_length _ _ _ _ _ _ Hl).
    by rewrite (set_mtu_map veth_Name veth_set_Mtu veth_Peer name mtu _ l
                            (fun _ _ => eq_refl) Hl). }
  destruct (ParseNet_invariant P c lines) as (st & -> & Hidx & Hid & Hmap).
  - intros st line st' Hst Hline.
    parse_cases Hline; try exact Hst; try (by apply Hveth); by eapply Hmtu.
  - intros st line e st' Hst Hline.
    parse_cases Hline; try exact Hst; try (by apply Hveth); by eapply Hmtu.
  - by unfold P.
  - split; [done|]. rewrite Hmap.
    apply (NoDup_fmap_2 (fun k : nat => peer_name (Id c) (Z.of_nat k))
                        (Inj0 := peer_name_inj (Id c))).
    apply NoDup_seq.
Qed.

(** X10.  Whatever the lines and the outcome, an object that still asks
    for a new network namespace after [ParseNet] neither inherits the
    parent's namespace nor names a namespace or a container to join. *)
Theorem ParseNet_new_namespace_is_exclusive `{Util} (c : TNetCfg) (lines : list string) :
  NewNetNs (ParseNet c lines).2 = true ->
  Inherited (ParseNet c lines).2 = false /\
  NetNsName (ParseNet c lines).2 = "" /\
  NetCtName (ParseNet c lines).2 = "".
Proof.
  set (P := fun st : ParseState =>
              NewNetNs (ps_cfg st) = true ->
              Inherited (ps_cfg st) = false /\
              NetNsName (ps_cfg st) = "" /\ NetCtName (ps_cfg st) = "").
  destruct (ParseNet_invariant P c lines) as (st & -> & Hst); [| | by unfold P | exact Hst].
  - intros st line st' Hst Hline. unfold P in *.
    parse_cases Hline; try exact Hst; discriminate.
  - intros st line e st' Hst Hline. unfold P in *.
    parse_cases Hline; try exact Hst; discriminate.
Qed.

Lemma ParseNet_new_namespace_is_exclusive_witness :
  Inherited (@ParseNet plain_util blank_cfg ["L3 eth0"; "steal eth5"]).2 = false /\
  NetNsName (@ParseNet plain_util blank_cfg ["L3 eth0"; "steal eth5"]).2 = "" /\
  NetCtName (@ParseNet plain_util blank_cfg ["L3 eth0"; "steal eth5"]).2 = "".
Proof.
  exact (@ParseNet_new_namespace_is_exclusive plain_util blank_cfg
           ["L3 eth0"; "steal eth5"] eq_refl).
Defined.

(** X11.  [ParseNet] never changes the identifier of the object, and the
    autoconf names the object held before the call are still there
    afterwards, ahead of the ones the lines add: [Reset] does not clear
    them. *)
Theorem ParseNet_keeps_autoconf `{Util} (c : TNetCfg) (lines : list string) :
  Id (ParseNet c lines).2 = Id c /\
  exists added, Autoconf (ParseNet c lines).2 = Autoconf c ++ added.
Proof.
  set (P := fun st : ParseState =>
              Id (ps_cfg st) = Id c /\
              exists added, Autoconf (ps_cfg st) = Autoconf c ++ added).
  destruct (ParseNet_invariant P c lines) as (st & -> & Hst); [| | | exact Hst].
  - intros st line st' Hst Hline. unfold P in *.
    parse_cases Hline; try exact Hst.
    destruct Hst as (Hid & added & Hac). split; [done|].
    eexists. rewrite Hac, <- app_assoc. reflexivity.
  - intros st line e st' Hst Hline. unfold P in *.
    parse_cases Hline; exact Hst.
  - unfold P. simpl. split; [done|]. exists []. by rewrite app_nil_r.
Qed.

Lemma check_mixed_Success (st : ParseState) :
  check_mixed st = Success ->
  Inherited (ps_cfg st) = true ->
  Steal (ps_cfg st) = [] /\ MacVlan (ps_cfg st) = [] /\ IpVlan (ps_cfg st) = [] /\
  Veth (ps_cfg st) = [] /\ L3lan (ps_cfg st) = [].
Proof.
  unfold check_mixed. intros Hc Hi. rewrite Hi in Hc.
  destruct (ps_none st); simpl in Hc; [discriminate|].
  destruct (_ =? 0) eqn:E in Hc; simpl in Hc; [|discriminate].
  apply Z.eqb_eq in E.
  destruct (Steal (ps_cfg st)), (MacVlan (ps_cfg st)), (IpVlan (ps_cfg st)),
    (Veth (ps_cfg st)), (L3lan (ps_cfg st)); simpl in E; try lia; done.
Qed.

(** X12.  A specification none of whose lines is an MTU line and that
    [ParseNet] accepts has passed the final check: when the object
    inherits the parent's namespace it holds no stolen device and no
    macvlan, ipvlan, veth or L3 descriptor. *)
Theorem ParseNet_without_MTU_is_checked `{Util} (c : TNetCfg) (lines : list string) :
  Forall (fun line => line_type line <> "MTU") lines ->
  (ParseNet c lines).1 = Success ->
  Inherited (ParseNet c lines).2 = true ->
  Steal (ParseNet c lines).2 = [] /\ MacVlan (ParseNet c lines).2 = [] /\
  IpVlan (ParseNet c lines).2 = [] /\ Veth (ParseNet c lines).2 = [] /\
  L3lan (ParseNet c lines).2 = [].
Proof.
  intros Hall. unfold ParseNet.
  destruct (Z.of_nat (length lines) =? 0); [discriminate|].
  destruct (ParseNet_lines lines (mkParse (Reset c) false 0)) as [e st] eqn:Hrun.
  simpl. intros ->. apply check_mixed_Success.
  by eapply ParseNet_lines_checked.
Qed.

Lemma ParseNet_without_MTU_is_checked_witness :
  Steal (@ParseNet plain_util blank_cfg ["inherited"]).2 = [] /\
  MacVlan (@ParseNet plain_util blank_cfg ["inherited"]).2 = [] /\
  IpVlan (@ParseNet plain_util blank_cfg ["inherited"]).2 = [] /\
  Veth (@ParseNet plain_util blank_cfg ["inherited"]).2 = [] /\
  L3lan (@ParseNet plain_util blank_cfg ["inherited"]).2 = [].
Proof.
  exact (@ParseNet_without_MTU_is_checked plain_util blank_cfg ["inherited"]
           ltac:(constructor; [vm_compute; discriminate | constructor])
           eq_refl eq_refl).
Defined.

(** ** Tearing the queues down *)

Section TeardownFacts.

Context `{Util} {K : Type} `{KernelApi K}.

Variable Inv : K -> Prop.
Variable loads : string -> bool.
Hypothesis Inv_delete : forall k q name, Inv k -> Inv (k_qdisc_delete q name k).2.
Hypothesis Inv_load : forall k name, Inv k -> failed (k_link_load name k) = negb (loads name).

Lemma Destroy_loop_trace devs (w : World K) :
  Inv (kern w) ->
  calls (Destroy_loop devs w).2
  = calls w ++ map (fun d => EvQdiscDelete (dev_Name d) bare_root_qdisc)
                   (List.filter (fun d => dev_Managed d && loads (dev_Name d)) devs).
Proof using Inv_delete Inv_load.
  revert w. induction devs as [|d devs IH]; intros w Hw; simpl.
  - by rewrite app_nil_r.
  - destruct (dev_Managed d); simpl; [|by apply IH].
    unfold bind, query, emit. rewrite (Inv_load _ _ Hw).
    destruct (loads (dev_Name d)); simpl; [|by apply IH].
    pose proof (Inv_delete _ bare_root_qdisc (dev_Name d) Hw) as Hk.
    destruct (k_qdisc_delete bare_root_qdisc (dev_Name d) (kern w)) as [e k1].
    rewrite IH by done. simpl. by rewrite <- app_assoc.
Qed.

End TeardownFacts.

(** X13.  [Destroy] always returns success, whatever the kernel answers;
    what it asks of the kernel is one delete of the root qdisc for each
    managed device whose link can be loaded, in device order, and nothing
    for the other devices. *)
Theorem Destroy_removes_root_qdiscs `{Util} {K : Type} `{KernelApi K}
    (Inv : K -> Prop) (loads : string -> bool) (net : TNetwork) (w : World K) :
  (forall k q name, Inv k -> Inv (k_qdisc_delete q name k).2) ->
  (forall k name, Inv k -> failed (k_link_load name k) = negb (loads name)) ->
  Inv (kern w) ->
  (Destroy net w).1 = Success /\
  calls (Destroy net w).2
  = calls w ++ map (fun d => EvQdiscDelete (dev_Name d) bare_root_qdisc)
                   (List.filter (fun d => dev_Managed d && loads (dev_Name d))
                                (Devices net)).
Proof.
  intros Hdel Hload Hw. unfold Destroy, bind, pure.
  pose proof (Destroy_loop_trace Inv loads Hdel Hload (Devices net) w Hw) as Htrace.
  by destruct (Destroy_loop (Devices net) w) as [[] w1].
Qed.

(** X13 on the devices [eth0], [dummy0] (unmanaged) and [eth1] (gone). *)
Lemma Destroy_removes_root_qdiscs_witness :
  (@Destroy Script script_kernel host_net eth1_gone).1 = Success /\
  calls (@Destroy Script script_kernel host_net eth1_gone).2
  = [EvQdiscDelete "eth0" bare_root_qdisc].
Proof.
  exact (@Destroy_removes_root_qdiscs plain_util Script script_kernel
           (fun k => s_unloadable k = ["eth1"])
           (fun name => negb (existsb (String.eqb name) ["eth1"]))
           host_net eth1_gone
           (fun k q name Hk => Hk)
           (fun k name Hk =>
              eq_trans (f_equal (fun u => failed (if existsb (String.eqb name) u
                                                  then Error Unknown "Cannot load link"
                                                  else Success)) Hk)
                       (match existsb (String.eqb name) ["eth1"] as b
                              return failed (if b then Error Unknown "Cannot load link"
                                             else Success) = negb (negb b)
                        with true => eq_refl | false => eq_refl end))
           eq_refl).
Defined.

(** X14.  [MatchDevice] answers with the name of the first tracked device,
    managed or not, whose name matches the pattern, and with the pattern
    itself when no tracked device matches. *)
Theorem MatchDevice_first_match `{Util} (net : TNetwork) (pattern : string) :
  (forall pre d post,
      Devices net = pre ++ d :: post ->
      Forall (fun x => StringMatch (dev_Name x) pattern = false) pre ->
      StringMatch (dev_Name d) pattern = true ->
      MatchDevice net pattern = dev_Name d) /\
  (Forall (fun x => StringMatch (dev_Name x) pattern = false) (Devices net) ->
   MatchDevice net pattern = pattern).
Proof.
  unfold MatchDevice. split.
  - intros pre d post -> Hpre Hd. induction Hpre as [|x pre Hx _ IH]; simpl.
    + by rewrite Hd.
    + by rewrite Hx.
  - induction 1 as [|x l Hx _ IH]; simpl; [done|]. by rewrite Hx.
Qed.

Lemma MatchDevice_first_match_witness :
  @MatchDevice plain_util host_net "eth*" = "eth0" /\
  @MatchDevice plain_util host_net "dum*" = "dummy0" /\
  @MatchDevice plain_util host_net "wlan*" = "wlan*".
Proof.
  destruct (@MatchDevice_first_match plain_util host_net "eth*") as [Heth _].
  destruct (@MatchDevice_first_match plain_util host_net "dum*") as [Hdum _].
  destruct (@MatchDevice_first_match plain_util host_net "wlan*") as [_ Hnone].
  split_and!.
  - apply (Heth [] eth0 [dummy0; eth1]); [reflexivity | constructor | reflexivity].
  - apply (Hdum [eth0] dummy0 [eth1]); [reflexivity | repeat constructor | reflexivity].
  - apply Hnone. repeat constructor.
Defined.

(** ** Fresh device names *)

Section NameFacts.

Context {K : Type} `{KernelApi K}.

Lemma NewDeviceName_loop_spec (retries : nat) (prefix : string) (i : Z) (k : K) :
  (exists n : nat,
      (n < retries)%nat /\
      NewDeviceName_loop retries prefix i k
      = (prefix +:+ pretty (i + Z.of_nat n), i + Z.of_nat n + 1) /\
      failed (k_link_load (prefix +:+ pretty (i + Z.of_nat n)) k) = true /\
      forall m : nat, (m < n)%nat ->
        failed (k_link_load (prefix +:+ pretty (i + Z.of_nat m)) k) = false) \/
  (NewDeviceName_loop retries prefix i k = (prefix +:+ "0", i + Z.of_nat retries) /\
   forall m : nat, (m < retries)%nat ->
     failed (k_link_load (prefix +:+ pretty (i + Z.of_nat m)) k) = false).
Proof.
  revert i. induction retries as [|retries IH]; intros i; simpl.
  - right. split; [by rewrite Z.add_0_r | intros m Hm; lia].
  - destruct (failed (k_link_load (prefix +:+ pretty i) k)) eqn:E.
    + left. exists 0%nat. rewrite Z.add_0_r. split_and!; [lia | done | done |].
      intros m Hm. lia.
    + destruct (IH (i + 1)) as [(n & Hn & Hrun & Hfree & Htaken) | [Hrun Htaken]].
      * left. exists (S n).
        replace (i + Z.of_nat (S n)) with (i + 1 + Z.of_nat n) by lia.
        split_and!; [lia | done | done |].
        intros [|m] Hm; [by rewrite Z.add_0_r|].
        replace (i + Z.of_nat (S m)) with (i + 1 + Z.of_nat m) by lia.
        apply Htaken. lia.
      * right. split; [rewrite Hrun; f_equal; lia|].
        intros [|m] Hm; [by rewrite Z.add_0_r|].
        replace (i + Z.of_nat (S m)) with (i + 1 + Z.of_nat m) by lia.
        apply Htaken. lia.
Qed.

End NameFacts.

(** X15.  [NewDeviceName] tries the names [prefix<i>], [prefix<i+1>], ...
    from the counter on, at most a hundred of them, and returns the first
    one no link has, leaving the counter just past it; when a link has
    each of the hundred names it returns [prefix0], whether or not a link
    has that name, and the counter has moved on by a hundred. *)
Theorem NewDeviceName_free_or_exhausted {K : Type} `{KernelApi K}
    (prefix : string) (i : Z) (k : K) :
  (exists n : nat,
      (n < 100)%nat /\
      NewDeviceName prefix i k
      = (prefix +:+ pretty (i + Z.of_nat n), i + Z.of_nat n + 1) /\
      failed (k_link_load (prefix +:+ pretty (i + Z.of_nat n)) k) = true /\
      forall m : nat, (m < n)%nat ->
        failed (k_link_load (prefix +:+ pretty (i + Z.of_nat m)) k) = false) \/
  (NewDeviceName prefix i k = (prefix +:+ "0", i + 100) /\
   forall m : nat, (m < 100)%nat ->
     failed (k_link_load (prefix +:+ pretty (i + Z.of_nat m)) k) = false).
Proof. apply (NewDeviceName_loop_spec 100). Qed.

(** ** Proxy announcements *)

Lemma last_shift {A : Type} (l : list A) (x d : A) :
  List.last (x :: l) d = List.last l x.
Proof.
  revert x d. induction l as [|y l IH]; intros x d; [done|].
  change (List.last (y :: l) d = List.last (y :: l) x). by rewrite !IH.
Qed.

Section AnnounceFacts.

Context {K : Type} `{NeighApi K}.

Lemma DelAnnounce_loop_spec devs (addr : nl_addr) (e0 : TError) (w : NeighWorld K) :
  exists rets : list TError,
    length rets = length devs /\
    proxied (DelAnnounce_loop devs addr e0 w).2
    = proxied w ++ zip_with (fun d r => mkProxy (dev_Index d) addr false r) devs rets /\
    (DelAnnounce_loop devs addr e0 w).1 = List.last rets e0.
Proof.
  revert e0 w. induction devs as [|d devs IH]; intros e0 w; simpl.
  - exists []. by rewrite app_nil_r.
  - unfold ProxyNeighbour.
    destruct (k_proxy_neighbour (dev_Index d) addr false (nkern w)) as [e k1].
    destruct (IH e (mkNeigh k1 (proxied w ++ [mkProxy (dev_Index d) addr false e])))
      as (rets & Hlen & Hcalls & Hres).
    exists (e :: rets). rewrite last_shift. split_and!; [simpl; lia | | done].
    rewrite Hcalls. simpl. by rewrite <- app_assoc.
Qed.

Lemma AddAnnounce_loop_spec devs cache (addr : nl_addr) (e0 : TError)
    (w : NeighWorld K) :
  exists (asked rest : list TNetworkDevice) (rets : list TError),
    List.filter (fun d => reachable cache d addr) devs = asked ++ rest /\
    length rets = length asked /\
    proxied (AddAnnounce_loop devs cache addr e0 w).2
    = proxied w ++ zip_with (fun d r => mkProxy (dev_Index d) addr true r) asked rets /\
    (AddAnnounce_loop devs cache addr e0 w).1 = List.last rets e0 /\
    Forall (fun r => failed r = false) (removelast rets) /\
    (rest = [] \/ failed (List.last rets e0) = true).
Proof.
  revert e0 w. induction devs as [|d devs IH]; intros e0 w; simpl.
  - exists [], [], []. simpl. rewrite app_nil_r. split_and!; auto.
  - destruct (reachable cache d addr); [|apply IH].
    unfold ProxyNeighbour.
    destruct (k_proxy_neighbour (dev_Index d) addr true (nkern w)) as [e k1].
    destruct (failed e) eqn:Ef.
    + exists [d], (List.filter (fun d => reachable cache d addr) devs), [e].
      simpl. split_and!; auto.
    + destruct (IH e (mkNeigh k1 (proxied w ++ [mkProxy (dev_Index d) addr true e])))
        as (asked & rest & rets & Hsplit & Hlen & Hcalls & Hres & Hall & Hend).
      exists (d :: asked), rest, (e :: rets). rewrite last_shift.
      split_and!; auto.
      * simpl. by rewrite Hsplit.
      * simpl. lia.
      * rewrite Hcalls. simpl. by rewrite <- app_assoc.
      * destruct rets as [|r2 rets]; [constructor|].
        change (Forall (fun r => failed r = false) (e :: removelast (r2 :: rets))).
        by constructor.
Qed.

End AnnounceFacts.

(** X16.  [DelAnnounce] asks for the removal of the proxy entry on every
    tracked device, managed or not, in device order and whatever the
    earlier answers were, and returns the answer to the last call alone:
    [Success] when no device is tracked, and an error of an earlier device
    is not reported. *)
Theorem DelAnnounce_reports_last_call {K : Type} `{NeighApi K}
    (net : TNetwork) (addr : nl_addr) (w : NeighWorld K) :
  exists rets : list TError,
    length rets = length (Devices net) /\
    proxied (DelAnnounce net addr w).2
    = proxied w
      ++ zip_with (fun d r => mkProxy (dev_Index d) addr false r) (Devices net) rets /\
    (DelAnnounce net addr w).1 = List.last rets Success.
Proof. apply DelAnnounce_loop_spec. Qed.

(** X17.  Without a master, and once the address cache is read,
    [AddAnnounce] asks for a proxy entry on the tracked devices that have
    an address of the prefix of the announced one, in device order, and on
    no other device; the first call that fails ends the loop and is the
    error returned, the devices after it are not asked; with no such
    device, or when no call fails, the answer is [Success]. *)
Theorem AddAnnounce_stops_at_first_error {K : Type} `{NeighApi K}
    (net : TNetwork) (addr : nl_addr) (w : NeighWorld K)
    (rc : Z) (cache : list (Z * option nl_addr)) :
  k_addr_alloc_cache (nkern w) = (rc, cache) ->
  0 <= rc ->
  exists (asked rest : list TNetworkDevice) (rets : list TError),
    List.filter (fun d => reachable cache d addr) (Devices net) = asked ++ rest /\
    length rets = length asked /\
    proxied (AddAnnounce net addr "" w).2
    = proxied w ++ zip_with (fun d r => mkProxy (dev_Index d) addr true r) asked rets /\
    (AddAnnounce net addr "" w).1 = List.last rets Success /\
    Forall (fun r => failed r = false) (removelast rets) /\
    (rest = [] \/ failed (List.last rets Success) = true).
Proof.
  intros Hcache Hrc. unfold AddAnnounce. simpl. rewrite Hcache.
  destruct (rc <? 0) eqn:E; [lia|]. apply AddAnnounce_loop_spec.
Qed.

(** X17 on [eth0], [dummy0] and [eth1], of which [eth0] and [eth1] have the
    address: the refusal on [eth0] ends the call. *)
Lemma AddAnnounce_stops_at_first_error_witness :
  exists (asked rest : list TNetworkDevice) (rets : list TError),
    [eth0; eth1] = asked ++ rest /\
    length rets = length asked /\
    [mkProxy 2 announced true (Error Unknown "refused")]
    = [] ++ zip_with (fun d r => mkProxy (dev_Index d) announced true r) asked rets /\
    Error Unknown "refused" = List.last rets Success /\
    Forall (fun r => failed r = false) (removelast rets) /\
    (rest = [] \/ failed (List.last rets Success) = true).
Proof.
  exact (@AddAnnounce_stops_at_first_error NeighScript neigh_script host_net announced
           refusing 0 [(2, Some announced); (4, None); (3, Some announced)]
           eq_refl (Z.le_refl 0)).
Defined.

(** ** Generated hardware addresses *)

Lemma hex_digit_inj (a b : Z) :
  0 <= a < 16 -> 0 <= b < 16 -> hex_digit a = hex_digit b -> a = b.
Proof.
  intros Ha Hb.
  assert (Hea : a = 0 \/ a = 1 \/ a = 2 \/ a = 3 \/ a = 4 \/ a = 5 \/ a = 6 \/ a = 7 \/
                a = 8 \/ a = 9 \/ a = 10 \/ a = 11 \/ a = 12 \/ a = 13 \/ a = 14 \/ a = 15)
    by lia.
  assert (Heb : b = 0 \/ b = 1 \/ b = 2 \/ b = 3 \/ b = 4 \/ b = 5 \/ b = 6 \/ b = 7 \/
                b = 8 \/ b = 9 \/ b = 10 \/ b = 11 \/ b = 12 \/ b = 13 \/ b = 14 \/ b = 15)
    by lia.
  clear Ha Hb.
  repeat (destruct Hea as [-> | Hea]); try subst a;
    repeat (destruct Heb as [-> | Heb]); try subst b;
    (reflexivity || (intros Hd; vm_compute in Hd; discriminate)).
Qed.

Lemma hex2_inj (a b : Z) : 0 <= a < 256 -> 0 <= b < 256 -> hex2 a = hex2 b -> a = b.
Proof.
  intros Ha Hb Heq. unfold hex2 in Heq. injection Heq as Hhi Hlo.
  apply hex_digit_inj in Hhi; [| split; [apply Z.div_pos; lia | apply Z.div_lt_upper_bound; lia]
                                | split; [apply Z.div_pos; lia | apply Z.div_lt_upper_bound; lia]].
  apply hex_digit_inj in Hlo; [| apply Z.mod_pos_bound; lia | apply Z.mod_pos_bound; lia].
  rewrite (Z.div_mod a 16), (Z.div_mod b 16) by lia. by rewrite Hhi, Hlo.
Qed.

Lemma land_255_bound (x : Z) : 0 <= Z.land x 255 < 256.
Proof.
  change 255 with (Z.ones 8). rewrite Z.land_ones by lia. apply Z.mod_pos_bound. lia.
Qed.

(** X18.  A generated hardware address has seventeen characters and
    starts with the octet [02]; of the name it keeps the low byte of the
    checksum alone, so that on one host two names get the same address
    exactly when their checksums agree on that byte. *)
Theorem GenerateHw_low_byte_of_name (Crc32 : string -> Z) (Hostname : string) :
  (forall name,
      String.length (GenerateHw Crc32 Hostname name) = 17%nat /\
      String.prefix "02:" (GenerateHw Crc32 Hostname name) = true) /\
  (forall name1 name2,
      GenerateHw Crc32 Hostname name1 = GenerateHw Crc32 Hostname name2 <->
      Z.land (Crc32 name1) 255 = Z.land (Crc32 name2) 255).
Proof.
  split.
  - intros name. unfold GenerateHw, hex2. by simpl.
  - intros name1 name2. unfold GenerateHw. rewrite !Z.shiftr_0_r. split.
    + intros Heq. apply String.app_inj in Heq.
      apply hex2_inj; [apply land_255_bound | apply land_255_bound |].
      unfold hex2 in *. simpl in Heq. by injection Heq as -> ->.
    + by intros ->.
Qed.

(** ** Refreshing the classes *)

(** X19.  [RefreshClasses] returns the error of its [RefreshDevices] pass
    and nothing else: what the containers answer is not reported.  After
    a call that succeeded [NewManagedDevices] is down; a call whose pass
    failed leaves the manager as the pass left it, a raised flag
    included. *)
Theorem RefreshClasses_lowers_flag `{Util} {K : Type} `{KernelApi K}
    (G : NetConfig) (UpdateContainers : TNetwork -> M K unit)
    (net : TNetwork) (force : bool) (w : World K) :
  (RefreshClasses G UpdateContainers net force w).1.1 = (RefreshDevices G net w).1.1 /\
  Devices (RefreshClasses G UpdateContainers net force w).1.2
  = Devices (RefreshDevices G net w).1.2 /\
  ((RefreshClasses G UpdateContainers net force w).1.1 = Success ->
   NewManagedDevices (RefreshClasses G UpdateContainers net force w).1.2 = false) /\
  (failed (RefreshClasses G UpdateContainers net force w).1.1 = true ->
   RefreshClasses G UpdateContainers net force w = RefreshDevices G net w).
Proof.
  unfold RefreshClasses, bind, pure.
  destruct (RefreshDevices G net w) as [[e net1] w1]. simpl.
  destruct e; simpl; try done.
  destruct (negb force && negb (NewManagedDevices net1)) eqn:E; simpl.
  - apply andb_true_iff in E as [_ E]. apply negb_true_iff in E. done.
  - destruct (UpdateContainers _ w1) as [[] w2]. simpl. split_and!; done.
Qed.

(** * Properties of the sysctl part of [task.cpp] *)

Lemma existsb_eqb_elem (key : string) (l : list string) :
  existsb (String.eqb key) l = true <-> key ∈ l.
Proof.
  induction l as [|x l IH]; simpl.
  - split; [discriminate | intros Hin; inversion Hin].
  - rewrite orb_true_iff, IH, elem_of_cons, String.eqb_eq. done.
Qed.

Section SysctlFacts.

Context {Sys : Type} `{SysctlApi Sys}.

Local Opaque IpcSysctls.

Lemma ApplySysctl_ipc_writes (ipc_sysctl : list (string * string)) (w : SysWorld Sys) :
  exists set rest,
    ipc_sysctl = set ++ rest /\
    written (ApplySysctl_ipc ipc_sysctl w).2 = written w ++ set /\
    (failed (ApplySysctl_ipc ipc_sysctl w).1 = false ->
     rest = [] /\ (ApplySysctl_ipc ipc_sysctl w).1 = Success).
Proof.
  revert w. induction ipc_sysctl as [|[key val] l IH]; intros w; simpl.
  - exists [], []. simpl. rewrite app_nil_r. split_and!; [done | done | by intros _].
  - unfold set_sysctl. destruct (SetSysctl key val (skern w)) as [e s1].
    destruct (failed e) eqn:Ef; simpl.
    + exists [(key, val)], l. rewrite Ef. split_and!; [done | done | discriminate].
    + destruct (IH (mkSys s1 (written w ++ [(key, val)]))) as (dn & rest & -> & Hw & Hok).
      exists ((key, val) :: dn), rest. split_and!; [done | | done].
      rewrite Hw. simpl. by rewrite <- app_assoc.
Qed.

Lemma ApplySysctl_keys_writes (Isolate NetIsolate : bool)
    (Sysctl : list (string * string)) (w : SysWorld Sys) :
  exists l,
    written (ApplySysctl_keys Isolate NetIsolate Sysctl w).2 = written w ++ l /\
    (Isolate = false -> l = []) /\
    Forall (fun kv : string * string =>
              kv ∈ Sysctl /\ kv.1 ∈ IpcSysctls /\ NetworkSysctl kv.1 = false) l /\
    ((ApplySysctl_keys Isolate NetIsolate Sysctl w).1 = Returned Success ->
     l = List.filter (fun kv : string * string => negb (NetworkSysctl kv.1)) Sysctl /\
     Forall (fun kv : string * string =>
               if NetworkSysctl kv.1 then NetIsolate = true
               else kv.1 ∈ IpcSysctls /\ Isolate = true) Sysctl).
Proof.
  revert w. induction Sysctl as [|[key val] rest IH]; intros w; simpl.
  - exists []. rewrite app_nil_r. split_and!; auto.
  - destruct (NetworkSysctl key) eqn:En; simpl.
    + destruct NetIsolate; simpl.
      * destruct (IH w) as (l & Hw & Hiso & Hall & Hok).
        exists l. split_and!; [done | done | |].
        -- eapply Forall_impl; [exact Hall|]. intros kv (Hin & Hk & Hn). split_and!; [mem | done | done].
        -- intros Hs. destruct (Hok Hs) as [-> Hallowed]. split; [done|].
           constructor; [by simpl; rewrite En | done].
      * exists []. rewrite app_nil_r. split_and!; [done | done | constructor | discriminate].
    + destruct (existsb (String.eqb key) IpcSysctls) eqn:Ei; simpl.
      * apply existsb_eqb_elem in Ei. destruct Isolate; simpl.
        -- unfold set_sysctl. destruct (SetSysctl key val (skern w)) as [e s1]. simpl.
           destruct (failed e) eqn:Ef.
           ++ exists [(key, val)]. simpl. split_and!; [done | discriminate | | intros [= ->]; discriminate].
              constructor; [|constructor]. split_and!; [mem | done | done].
           ++ destruct (IH (mkSys s1 (written w ++ [(key, val)]))) as (l & Hw & Hiso & Hall & Hok).
              exists ((key, val) :: l). split_and!.
              ** rewrite Hw. simpl. by rewrite <- app_assoc.
              ** discriminate.
              ** constructor; [split_and!; [mem | done | done]|].
                 eapply Forall_impl; [exact Hall|].
                 intros kv (Hin & Hk & Hn). split_and!; [mem | done | done].
              ** intros Hs. destruct (Hok Hs) as [-> Hallowed]. split; [done|].
                 constructor; [by simpl; rewrite En | done].
        -- exists []. rewrite app_nil_r. split_and!; [done | done | constructor | discriminate].
      * exists []. rewrite app_nil_r. split_and!; [done | done | constructor | discriminate].
Qed.

Local Transparent IpcSysctls.

End SysctlFacts.

(** X20.  Whatever it returns, [ApplySysctl] writes configured entries and
    keys of the container that belong to [IpcSysctls], and nothing else:
    a network key or an unlisted key of the container is never written;
    and without IPC isolation it writes nothing at all. *)
Theorem ApplySysctl_writes_need_ipc_isolation {Sys : Type} `{SysctlApi Sys}
    (Isolate NetIsolate : bool) (ipc_sysctl Sysctl : list (string * string))
    (w : SysWorld Sys) :
  exists l,
    written (ApplySysctl Isolate NetIsolate ipc_sysctl Sysctl w).2 = written w ++ l /\
    (Isolate = false -> l = []) /\
    Forall (fun kv : string * string =>
              kv ∈ ipc_sysctl \/
              (kv ∈ Sysctl /\ kv.1 ∈ IpcSysctls /\ NetworkSysctl kv.1 = false)) l.
Proof.
  unfold ApplySysctl. destruct Isolate.
  - destruct (ApplySysctl_ipc_writes ipc_sysctl w) as (set & rest & -> & Hw & Hok).
    destruct (ApplySysctl_ipc (set ++ rest) w) as [e w1]. simpl in *.
    destruct (failed e); simpl.
    + exists set. split_and!; [done | discriminate |].
      apply Forall_forall. intros kv Hkv. left. mem.
    + destruct (ApplySysctl_keys_writes true NetIsolate Sysctl w1) as (l & Hl & _ & Hall & _).
      exists (set ++ l). split_and!; [by rewrite Hl, Hw, app_assoc | discriminate |].
      apply Forall_app. split.
      * apply Forall_forall. intros kv Hkv. left. mem.
      * eapply Forall_impl; [exact Hall|]. intros kv Hkv. by right.
  - simpl.
    destruct (ApplySysctl_keys_writes false NetIsolate Sysctl w) as (l & Hl & Hnone & Hall & _).
    exists l. split_and!; [done | done |].
    eapply Forall_impl; [exact Hall|]. intros kv Hkv. by right.
Qed.

(** X21.  When [ApplySysctl] returns success, every key of the container
    was one it may set: a network key in a container with network
    isolation, or a key of [IpcSysctls] in a container with IPC
    isolation; and the writes were the configured entries (with IPC
    isolation) followed by the keys of the container that are not network
    keys, in order. *)
Theorem ApplySysctl_success_keys_allowed {Sys : Type} `{SysctlApi Sys}
    (Isolate NetIsolate : bool) (ipc_sysctl Sysctl : list (string * string))
    (w : SysWorld Sys) :
  (ApplySysctl Isolate NetIsolate ipc_sysctl Sysctl w).1 = Returned Success ->
  Forall (fun kv : string * string =>
            if NetworkSysctl kv.1 then NetIsolate = true
            else kv.1 ∈ IpcSysctls /\ Isolate = true) Sysctl /\
  written (ApplySysctl Isolate NetIsolate ipc_sysctl Sysctl w).2
  = written w ++ (if Isolate then ipc_sysctl else [])
              ++ List.filter (fun kv : string * string => negb (NetworkSysctl kv.1)) Sysctl.
Proof.
  unfold ApplySysctl. destruct Isolate.
  - destruct (ApplySysctl_ipc_writes ipc_sysctl w) as (set & rest & -> & Hw & Hok).
    destruct (ApplySysctl_ipc (set ++ rest) w) as [e w1]. simpl in *.
    destruct (failed e) eqn:Ef; simpl.
    + intros [= ->]. discriminate.
    + destruct (Hok eq_refl) as [-> _]. rewrite app_nil_r.
      destruct (ApplySysctl_keys_writes true NetIsolate Sysctl w1)
        as (l & Hl & _ & _ & Hsucc).
      intros Hs. destruct (Hsucc Hs) as [-> Hallowed].
      split; [done|]. by rewrite Hl, Hw, app_assoc.
  - simpl.
    destruct (ApplySysctl_keys_writes false NetIsolate Sysctl w)
      as (l & Hl & _ & _ & Hsucc).
    intros Hs. destruct (Hsucc Hs) as [-> Hallowed]. by split.
Qed.

Lemma ApplySysctl_success_keys_allowed_witness :
  written (@ApplySysctl _ table_sysctl true true [("kernel.sem", "250 32000 32 128")]
                        [("kernel.shmmax", "68719476736"); ("net.ipv4.ip_forward", "1")]
                        (mkSys [] [])).2
  = [("kernel.sem", "250 32000 32 128"); ("kernel.shmmax", "68719476736")].
Proof.
  exact (proj2 (@ApplySysctl_success_keys_allowed _ table_sysctl true true
                  [("kernel.sem", "250 32000 32 128")]
                  [("kernel.shmmax", "68719476736"); ("net.ipv4.ip_forward", "1")]
                  (mkSys [] []) eq_refl)).
Defined.

Section InitFacts.

Context {Sys : Type} `{SysctlApi Sys}.

Lemma existsb_key_elem (key : string) (cfg : list (string * string)) :
  existsb (fun it : string * string => String.eqb it.1 key) cfg = true <-> key ∈ cfg.*1.
Proof.
  induction cfg as [|[k v] cfg IH]; simpl.
  - split; [discriminate | intros Hin; inversion Hin].
  - rewrite orb_true_iff, IH, elem_of_cons, String.eqb_eq. split; intros [? | ?]; auto.
Qed.

Lemma InitIpcSysctl_loop_spec (keys : list string) (cfg : list (string * string))
    (s : Sys) :
  exists added,
    InitIpcSysctl_loop keys cfg s = cfg ++ added /\
    Forall (fun kv : string * string =>
              kv.1 ∈ keys /\ (kv.1 ∉ cfg.*1) /\ GetSysctl kv.1 s = (Success, kv.2)) added /\
    (forall key, key ∈ keys ->
       key ∈ (cfg ++ added).*1 \/ failed (GetSysctl key s).1 = true).
Proof.
  revert cfg. induction keys as [|key keys IH]; intros cfg; simpl.
  - exists []. rewrite app_nil_r. split_and!; [done | constructor |].
    intros key Hin. inversion Hin.
  - destruct (existsb _ cfg) eqn:Eset; simpl.
    + apply existsb_key_elem in Eset.
      destruct (GetSysctl key s) as [e val] eqn:Eg. simpl.
      destruct (IH cfg) as (added & Hrun & Hall & Hcov).
      exists added. split_and!; [done | |].
      * eapply Forall_impl; [exact Hall|]. intros kv (Hk & Hn & Hg). split_and!; [mem | done | done].
      * intros k Hk. apply elem_of_cons in Hk as [-> | Hk]; [|by apply Hcov].
        left. rewrite fmap_app. mem.
    + assert (Hnot : key ∉ cfg.*1).
      { intros Hin. apply existsb_key_elem in Hin. congruence. }
      destruct (GetSysctl key s) as [e val] eqn:Eg. simpl.
      destruct (failed e) eqn:Ef; simpl.
      * destruct (IH cfg) as (added & Hrun & Hall & Hcov).
        exists added. split_and!; [done | |].
        -- eapply Forall_impl; [exact Hall|].
           intros kv (Hk & Hn & Hg). split_and!; [mem | done | done].
        -- intros k Hk. apply elem_of_cons in Hk as [-> | Hk]; [|by apply Hcov].
           right. by rewrite Eg.
      * destruct (IH (cfg ++ [(key, val)])) as (added & Hrun & Hall & Hcov).
        exists ((key, val) :: added). split_and!.
        -- rewrite Hrun. by rewrite <- app_assoc.
        -- constructor.
           ++ simpl. split_and!; [mem | done |]. rewrite Eg. by destruct e.
           ++ eapply Forall_impl; [exact Hall|].
              intros kv (Hk & Hn & Hg). split_and!; [mem | | done].
              intros Hin. apply Hn. rewrite fmap_app. mem.
        -- intros k Hk. rewrite <- app_assoc in Hcov. simpl in Hcov.
           apply elem_of_cons in Hk as [-> | Hk]; [|by apply Hcov].
           left. rewrite fmap_app. simpl. mem.
Qed.

Lemma InitIpcSysctl_loop_fixed (keys : list string) (cfg : list (string * string))
    (s : Sys) :
  (forall key, key ∈ keys -> key ∈ cfg.*1 \/ failed (GetSysctl key s).1 = true) ->
  InitIpcSysctl_loop keys cfg s = cfg.
Proof.
  induction keys as [|key keys IH]; intros Hcov; simpl; [done|].
  destruct (Hcov key ltac:(mem)) as [Hin | Hfail].
  - apply existsb_key_elem in Hin. rewrite Hin. simpl.
    destruct (GetSysctl key s). apply IH. intros k Hk. apply Hcov. mem.
  - destruct (GetSysctl key s) as [e val]. simpl in Hfail. rewrite Hfail.
    rewrite andb_false_r. apply IH. intros k Hk. apply Hcov. mem.
Qed.

Lemma existsb_key_fst (key : string) (cfg : list (string * string)) :
  existsb (fun it : string * string => String.eqb it.1 key) cfg
  = existsb (String.eqb key) cfg.*1.
Proof.
  induction cfg as [|[k v] cfg IH]; simpl; [done|].
  by rewrite IH, (String.eqb_sym k key).
Qed.

(** The loop adds, in the order of the keys, an entry for each key that
    has a default to add. *)
Lemma InitIpcSysctl_loop_closed (keys : list string) (cfg : list (string * string))
    (s : Sys) :
  NoDup keys ->
  InitIpcSysctl_loop keys cfg s
  = cfg ++ map (fun key => (key, (GetSysctl key s).2))
               (List.filter (host_default cfg s) keys).
Proof.
  intros Hnd. revert cfg. induction Hnd as [|key keys Hkey Hnd IH]; intros cfg; simpl.
  - by rewrite app_nil_r.
  - unfold host_default at 1. rewrite existsb_key_fst.
    destruct (GetSysctl key s) as [e val] eqn:Eg. simpl.
    destruct (negb (existsb (String.eqb key) cfg.*1) && negb (failed e)) eqn:Eadd.
    + rewrite IH. simpl. rewrite Eg. simpl. rewrite <- app_assoc. simpl.
      do 2 f_equal. f_equal. apply List.filter_ext_in. intros k Hk.
      unfold host_default. rewrite fmap_app, existsb_app. simpl.
      destruct (String.eqb k key) eqn:Ek; [|by rewrite !orb_false_r].
      apply String.eqb_eq in Ek. subst k. exfalso. apply Hkey.
      by apply list_elem_of_In.
    + apply IH.
Qed.

Lemma IpcSysctls_NoDup : NoDup IpcSysctls.
Proof.
  apply NoDup_ListNoDup. unfold IpcSysctls.
  repeat (constructor; [simpl; intuition discriminate|]). constructor.
Qed.

End InitFacts.

(** X22.  [InitIpcSysctl] keeps every configured entry as it is and adds
    after them, in the order of [IpcSysctls], one entry for each key of
    that list that had no entry and that can be read from the host, with
    the value read, and no other entry: afterwards every key of
    [IpcSysctls] has an entry or cannot be read.  Running it again changes
    nothing. *)
Theorem InitIpcSysctl_adds_host_defaults {Sys : Type} `{SysctlApi Sys}
    (ipc_sysctl : list (string * string)) (s : Sys) :
  InitIpcSysctl ipc_sysctl s
  = ipc_sysctl ++ map (fun key => (key, (GetSysctl key s).2))
                      (List.filter (host_default ipc_sysctl s) IpcSysctls) /\
  (forall key, key ∈ IpcSysctls ->
     key ∈ (InitIpcSysctl ipc_sysctl s).*1 \/ failed (GetSysctl key s).1 = true) /\
  (exists added,
      InitIpcSysctl ipc_sysctl s = ipc_sysctl ++ added /\
      Forall (fun kv : string * string =>
                kv.1 ∈ IpcSysctls /\ (kv.1 ∉ ipc_sysctl.*1) /\
                GetSysctl kv.1 s = (Success, kv.2)) added) /\
  InitIpcSysctl (InitIpcSysctl ipc_sysctl s) s = InitIpcSysctl ipc_sysctl s.
Proof.
  unfold InitIpcSysctl.
  destruct (InitIpcSysctl_loop_spec IpcSysctls ipc_sysctl s) as (added & Hrun & Hall & Hcov).
  split_and!.
  - apply InitIpcSysctl_loop_closed, IpcSysctls_NoDup.
  - intros key Hkey. rewrite Hrun. by apply Hcov.
  - by exists added.
  - rewrite Hrun. by apply InitIpcSysctl_loop_fixed.
Qed.

(** X22 on a configuration that sets [kernel.shmmax] and a host on which
    that key and [kernel.sem] can be read. *)
Lemma InitIpcSysctl_adds_host_defaults_witness :
  @InitIpcSysctl _ table_sysctl [("kernel.shmmax", "5")]
                 [("kernel.shmmax", "9"); ("kernel.sem", "250 32000 32 128")]
  = [("kernel.shmmax", "5"); ("kernel.sem", "250 32000 32 128")].
Proof.
  exact (eq_trans
           (proj1 (@InitIpcSysctl_adds_host_defaults _ table_sysctl
                     [("kernel.shmmax", "5")]
                     [("kernel.shmmax", "9"); ("kernel.sem", "250 32000 32 128")]))
           eq_refl).
Defined.

(** * Properties of the interface addresses *)

Section AddressFacts.

Context `{Util} `{AddrApi}.

Lemma push_l3_addr_ok (ip : TIpVec) (l3s : list TL3NetCfg) :
  (push_l3_addr ip l3s).1 = true ->
  (push_l3_addr ip l3s).2
  = map (fun l3 => if String.eqb (l3_Name l3) (ip_Iface ip)
                   then l3_set_Addrs (l3_Addrs l3 ++ [ip_Addr ip]) l3 else l3) l3s.
Proof.
  induction l3s as [|l3 rest IH]; simpl; [done|].
  destruct (String.eqb (l3_Name l3) (ip_Iface ip)).
  - destruct (negb (IsHost (ip_Addr ip))); [discriminate|].
    destruct (push_l3_addr ip rest) as [ok rest']. simpl in *. intros Hok. by rewrite IH.
  - destruct (push_l3_addr ip rest) as [ok rest']. simpl in *. intros Hok. by rewrite IH.
Qed.

Lemma push_l3_addr_host (ip : TIpVec) (l3s : list TL3NetCfg) :
  (forall l3, l3 ∈ l3s -> l3_Name l3 = ip_Iface ip -> IsHost (ip_Addr ip) = true) ->
  (push_l3_addr ip l3s).1 = true.
Proof.
  induction l3s as [|l3 rest IH]; intros Hhost; simpl; [done|].
  destruct (String.eqb (l3_Name l3) (ip_Iface ip)) eqn:E.
  - apply String.eqb_eq in E. rewrite (Hhost l3 ltac:(mem) E). simpl.
    destruct (push_l3_addr ip rest) as [ok rest'] eqn:Er. simpl.
    apply IH. intros x Hx. apply Hhost. mem.
  - destruct (push_l3_addr ip rest) as [ok rest'] eqn:Er. simpl.
    apply IH. intros x Hx. apply Hhost. mem.
Qed.

(** What a run of [ParseIp_lines] that succeeds has done. *)
Lemma ParseIp_lines_success (lines : list string) (c c' : TNetCfg)
    (IpVec IpVec' : list TIpVec) :
  ParseIp_lines lines c IpVec = (Success, c', IpVec') ->
  exists read,
    IpVec' = IpVec ++ read /\
    map ip_Iface read = map (fun line => field (SplitEscapedString line space) 0) lines /\
    Forall2 (fun line ip =>
               ParseAddr (field (SplitEscapedString line space) 1) = (Success, ip_Addr ip))
            lines read /\
    L3lan c'
    = map (fun l3 => l3_set_Addrs (l3_Addrs l3 ++ addrs_for (l3_Name l3) read) l3) (L3lan c).
Proof.
  revert c IpVec. induction lines as [|line lines IH]; intros c IpVec; simpl.
  - intros [= <- <-]. exists []. rewrite app_nil_r. split_and!; [done | done | constructor |].
    unfold addrs_for. simpl. induction (L3lan c) as [|l3 l IHl]; [done|].
    simpl. rewrite app_nil_r, <- IHl. by destruct l3.
  - destruct (negb (size (SplitEscapedString line space) =? 2)); [discriminate|].
    destruct (ParseAddr (field (SplitEscapedString line space) 1)) as [e addr] eqn:Ep.
    destruct e; simpl; try (intros [= _ _]; fail).
    set (ip := mkIpVec (field (SplitEscapedString line space) 0) addr).
    pose proof (push_l3_addr_ok ip (L3lan c)) as Hpush.
    destruct (push_l3_addr ip (L3lan c)) as [ok l3s]. simpl in Hpush.
    destruct ok; [|discriminate]. specialize (Hpush eq_refl). subst l3s.
    intros Hrun. destruct (IH _ _ Hrun) as (read & -> & Hif & Haddr & Hl3).
    exists (ip :: read). split_and!.
    + by rewrite <- app_assoc.
    + simpl. by rewrite Hif.
    + by constructor.
    + rewrite Hl3. simpl. rewrite map_map. apply map_ext. intros l3.
      unfold addrs_for. subst ip. simpl.
      destruct (String.eqb (l3_Name l3) (field (SplitEscapedString line space) 0)) eqn:E.
      * simpl. unfold l3_set_Addrs. simpl. by rewrite <- app_assoc.
      * done.
Qed.

End AddressFacts.

(** X23.  When [ParseIp] succeeds, [IpVec] holds one entry for each line,
    in order, made of the first field and of the address parsed from the
    second, whatever it held before; and every L3 descriptor has kept its
    addresses and gained after them, in line order, those of the lines
    that name it: all the descriptors of that name, not the first alone. *)
Theorem ParseIp_success_fills_addresses `{Util} `{AddrApi}
    (c c' : TNetCfg) (lines : list string) (IpVec : list TIpVec) :
  ParseIp c lines = (Success, c', IpVec) ->
  map ip_Iface IpVec = map (fun line => field (SplitEscapedString line space) 0) lines /\
  Forall2 (fun line ip =>
             ParseAddr (field (SplitEscapedString line space) 1) = (Success, ip_Addr ip))
          lines IpVec /\
  L3lan c'
  = map (fun l3 => l3_set_Addrs (l3_Addrs l3 ++ addrs_for (l3_Name l3) IpVec) l3) (L3lan c).
Proof.
  unfold ParseIp. intros Hrun.
  destruct (ParseIp_lines_success lines c c' [] IpVec Hrun) as (read & Heq & Hif & Haddr & Hl3).
  simpl in Heq. by subst read.
Qed.

Lemma ParseIp_success_fills_addresses_witness :
  map ip_Iface [mkIpVec "eth0" (mkAddr AF_INET 7); mkIpVec "eth1" (mkAddr AF_INET 8);
                mkIpVec "eth0" (mkAddr AF_INET 9)]
  = map (fun line => field (@SplitEscapedString plain_util line space) 0)
        ["eth0 7"; "eth1 8"; "eth0 9"] /\
  L3lan (set_L3lan [mkL3 "eth0" "" (-1) false [mkAddr AF_INET 7; mkAddr AF_INET 9]]
                   (Reset blank_cfg))
  = map (fun l3 =>
           l3_set_Addrs
             (l3_Addrs l3
              ++ addrs_for (l3_Name l3)
                   [mkIpVec "eth0" (mkAddr AF_INET 7); mkIpVec "eth1" (mkAddr AF_INET 8);
                    mkIpVec "eth0" (mkAddr AF_INET 9)]) l3)
        (L3lan (set_L3lan [mkL3 "eth0" "" (-1) false []] (Reset blank_cfg))).
Proof.
  destruct (@ParseIp_success_fills_addresses plain_util decimal_addr
              (set_L3lan [mkL3 "eth0" "" (-1) false []] (Reset blank_cfg))
              (set_L3lan [mkL3 "eth0" "" (-1) false [mkAddr AF_INET 7; mkAddr AF_INET 9]]
                         (Reset blank_cfg))
              ["eth0 7"; "eth1 8"; "eth0 9"]
              [mkIpVec "eth0" (mkAddr AF_INET 7); mkIpVec "eth1" (mkAddr AF_INET 8);
               mkIpVec "eth0" (mkAddr AF_INET 9)]
              eq_refl) as (Hif & _ & Hl3).
  split; [exact Hif | exact Hl3].
Defined.

(** X24.  Lines written by [FormatIp] are read back by [ParseIp] as the
    entries they came from, when an entry, written, splits at its one
    space into its two fields, an address parses back from its text, and
    an address that goes to an L3 descriptor is a host address. *)
Theorem ParseIp_FormatIp_round_trip `{Util} `{AddrApi}
    (c : TNetCfg) (IpVec : list TIpVec) :
  (forall ip, ip ∈ IpVec ->
     SplitEscapedString (ip_Iface ip +:+ " " +:+ FormatAddr (ip_Addr ip)) space
     = [ip_Iface ip; FormatAddr (ip_Addr ip)]) ->
  (forall ip, ip ∈ IpVec -> ParseAddr (FormatAddr (ip_Addr ip)) = (Success, ip_Addr ip)) ->
  (forall ip l3, ip ∈ IpVec -> l3 ∈ L3lan c -> l3_Name l3 = ip_Iface ip ->
     IsHost (ip_Addr ip) = true) ->
  (ParseIp c (FormatIp IpVec []).2).1.1 = Success /\
  (ParseIp c (FormatIp IpVec []).2).2 = IpVec.
Proof.
  unfold ParseIp, FormatIp. simpl.
  assert (Hgen : forall (todo : list TIpVec) (c0 : TNetCfg) (acc : list TIpVec),
            (forall ip, ip ∈ todo ->
               SplitEscapedString (ip_Iface ip +:+ " " +:+ FormatAddr (ip_Addr ip)) space
               = [ip_Iface ip; FormatAddr (ip_Addr ip)]) ->
            (forall ip, ip ∈ todo -> ParseAddr (FormatAddr (ip_Addr ip)) = (Success, ip_Addr ip)) ->
            (forall ip l3, ip ∈ todo -> l3 ∈ L3lan c0 -> l3_Name l3 = ip_Iface ip ->
               IsHost (ip_Addr ip) = true) ->
            (ParseIp_lines
               (map (fun ip => ip_Iface ip +:+ " " +:+ FormatAddr (ip_Addr ip)) todo)
               c0 acc).1.1 = Success /\
            (ParseIp_lines
               (map (fun ip => ip_Iface ip +:+ " " +:+ FormatAddr (ip_Addr ip)) todo)
               c0 acc).2 = acc ++ todo).
  { induction todo as [|ip todo IH]; intros c0 acc Hsplit Hparse Hhost; simpl.
    - by rewrite app_nil_r.
    - rewrite (Hsplit ip ltac:(mem)). unfold size, field. simpl.
      rewrite (Hparse ip ltac:(mem)).
      assert (Hip : mkIpVec (ip_Iface ip) (ip_Addr ip) = ip) by (by destruct ip).
      rewrite Hip.
      pose proof (push_l3_addr_host ip (L3lan c0)
                    (fun l3 Hl3 Hn => Hhost ip l3 ltac:(mem) Hl3 Hn)) as Hok.
      pose proof (push_l3_addr_ok ip (L3lan c0) Hok) as Hpush.
      destruct (push_l3_addr ip (L3lan c0)) as [ok l3s]. simpl in Hok, Hpush. subst ok.
      simpl.
      destruct (IH (set_L3lan l3s c0) (acc ++ [ip])) as [He Hv].
      + intros x Hx. apply Hsplit. mem.
      + intros x Hx. apply Hparse. mem.
      + intros x l3 Hx Hl3 Hn. simpl in Hl3. subst l3s.
        apply list_elem_of_fmap in Hl3 as (l0 & -> & Hl0).
        apply (Hhost x l0); [mem | done |].
        rewrite <- Hn. by destruct (String.eqb (l3_Name l0) (ip_Iface ip)).
      + split; [done|]. rewrite Hv. by rewrite <- app_assoc. }
  apply (Hgen IpVec c []).
Qed.

Lemma ParseIp_FormatIp_round_trip_witness :
  (@ParseIp plain_util decimal_addr blank_cfg
            (@FormatIp decimal_addr [mkIpVec "eth0" (mkAddr AF_INET 7);
                                     mkIpVec "eth1" (mkAddr AF_INET 8)] []).2).2
  = [mkIpVec "eth0" (mkAddr AF_INET 7); mkIpVec "eth1" (mkAddr AF_INET 8)].
Proof.
  refine (proj2 (@ParseIp_FormatIp_round_trip plain_util decimal_addr blank_cfg
                   [mkIpVec "eth0" (mkAddr AF_INET 7); mkIpVec "eth1" (mkAddr AF_INET 8)]
                   _ _ _)).
  - intros ip Hip. apply elem_of_cons in Hip as [-> | Hip]; [reflexivity|].
    apply list_elem_of_singleton in Hip as ->. reflexivity.
  - intros ip Hip. apply elem_of_cons in Hip as [-> | Hip]; [reflexivity|].
    apply list_elem_of_singleton in Hip as ->. reflexivity.
  - intros ip l3 _ Hl3. inversion Hl3.
Defined.
